(** * asciiplay: a shallow embedding of the A/V pipeline and its glyph renderer

    The development follows the C++ sources file by file:
    - [ColorLut]    : color_lut.hpp (palette, nearest index, luminance, gamma,
                      contrast, Bayer matrices, packing)
    - [Renderer]    : ascii_renderer.hpp, ascii_renderer.cpp (configuration
                      mutators, sampleCell, render, the terminal byte string)
    - [Control]     : main.cpp (the options that reach the renderer) and the key
                      dispatch of Pipeline::controlThread
    - [Audio]       : audio_player.cpp (ring, device callback, playback clock)
    - [VideoExport] : exporter.cpp (blitAscii)
    - [Queues]      : decoder.cpp and pipeline.cpp (the two video queues between
                      the decoder and the ASCII worker)
    - [Presenter]   : pipeline.cpp (the pacing and drop policy of renderThread)
    - [Workers]     : pipeline.cpp (the loops of the worker threads and the
                      joins of Pipeline::run)
    - [Terminal]    : terminal_sink.cpp (raw mode, cursor, output)

    The definitions come first; the properties follow, one module of facts per
    module of definitions, and after them further properties of the code.

    Conventions.  C++ [int], [size_t], [uint8_t], [uint32_t] values are integers
    of [Z]; every arithmetic result that the statements rely on stays inside the
    width of its C++ type, and where a value wraps the wrap is written out.
    C++ [float] and [double] values are exact rationals of [Q]: the rounding of
    the binary formats is not modelled, and the infinities and NaN, which
    [std::stof] and [std::stod] accept on the command line, are no values of the
    model: a statement about a [float] or a [double] is a statement about
    finite values.  [std::pow] belongs to the C library, not to the repository,
    and is a parameter [powf] of every definition that calls it.  A
    [std::vector] written through [v[i] = x] is a list updated with
    [<[i := x]>]; all indices the statements rely on are in range. *)

From Stdlib Require Import ZArith QArith Qround Lqa String Ascii List Lia Bool DecimalString.
From stdpp Require Import list.
Import ListNotations.
Open Scope Z_scope.

(** [for (int i = 0; i < n; ++i) s = body(i, s);] *)
Definition for_loop {S : Type} (n : Z) (body : Z -> S -> S) (s : S) : S :=
  fold_left (fun acc i => body i acc) (seqZ 0 n) s.

(** Two nested counted loops that store [val y x] at index [ix y x] of a
    vector: the shape of the cell loops of [render] and of the pixel loops of
    [blitAscii]. *)
Section Grid.
Context {A : Type}.
Variables (ncols nrows : Z) (ix : Z -> Z -> nat) (val : Z -> Z -> A).

Definition grid_store (l : list A) : list A :=
  for_loop nrows (fun y l =>
    for_loop ncols (fun x l => <[ ix y x := val y x ]> l) l) l.

Definition in_grid (y x : Z) : Prop := 0 <= y < nrows /\ 0 <= x < ncols.

(** The state after the rows before [y] and the first [x] cells of row [y]. *)
Definition stored_up_to (l0 : list A) (y x : Z) (l : list A) : Prop :=
  length l = length l0
  /\ (forall y' x', in_grid y' x' -> y' < y \/ (y' = y /\ x' < x) ->
        l !! ix y' x' = Some (val y' x'))
  /\ (forall p : nat, (forall y' x', in_grid y' x' -> p <> ix y' x') -> l !! p = l0 !! p).
End Grid.

(** The row-major grid: [cells[y * ncols + x] = val y x]. *)
Definition row_major (ncols : Z) (y x : Z) : nat := Z.to_nat (y * ncols + x).

Definition grid_fill {A : Type} (ncols nrows : Z) (val : Z -> Z -> A) (l : list A)
  : list A :=
  grid_store ncols nrows (row_major ncols) val l.

(** [std::clamp(v, lo, hi)] on integers and on floats. *)
Definition clampZ (v lo hi : Z) : Z :=
  if v <? lo then lo else if hi <? v then hi else v.

Definition Qltb (x y : Q) : bool := negb (Qle_bool y x).

Definition clampQ (v lo hi : Q) : Q :=
  if Qltb v lo then lo else if Qltb hi v then hi else v.

(** [static_cast<int>(f)]: truncation toward zero. *)
Definition Qtrunc (q : Q) : Z := Z.quot (Qnum q) (Zpos (Qden q)).

(** [static_cast<uint8_t>(f)] for a float. *)
Definition Qtrunc_u8 (q : Q) : Z := (Qtrunc q) mod 256.

(** [std::to_string] of a non-negative [int]. *)
Definition to_string (n : Z) : string := NilZero.string_of_int (Z.to_int n).

Definition ESC : string := String (ascii_of_nat 27) EmptyString.
Definition CRLF : string :=
  String (ascii_of_nat 13) (String (ascii_of_nat 10) EmptyString).

(** Does [hay] contain [needle] as a contiguous run of bytes? *)
Fixpoint contains (needle hay : string) : bool :=
  if String.prefix needle hay then true
  else match hay with
       | EmptyString => false
       | String _ rest => contains needle rest
       end.

(* ===================================================================== *)
(** ** color_lut.hpp *)
(* ===================================================================== *)

Module ColorLut.

Inductive RenderMode := Gray | ANSI256 | TrueColor.
Inductive DitherMode := Off | Bayer2 | Bayer4.

Record RGB := mkRGB { r : Z; g : Z; b : Z }.

Record BayerMatrix := mkBayer { size : Z; thresholds : list Q }.

Definition ANSI_BASE_COLORS : list RGB :=
  [ mkRGB 0 0 0;       mkRGB 205 0 0;   mkRGB 0 205 0;   mkRGB 205 205 0;
    mkRGB 0 0 238;     mkRGB 205 0 205; mkRGB 0 205 205; mkRGB 229 229 229;
    mkRGB 127 127 127; mkRGB 255 0 0;   mkRGB 0 255 0;   mkRGB 255 255 0;
    mkRGB 92 92 255;   mkRGB 255 0 255; mkRGB 0 255 255; mkRGB 255 255 255 ].

(** The cube level [r == 0 ? 0 : 55 + r * 40]. *)
Definition cube_level (c : Z) : Z := if c =? 0 then 0 else 55 + c * 40.

(** [make_xterm_palette]: the array is filled through [palette[idx++] = ...]
    with [idx] running from 0, so entry [idx] is the [idx]-th element written:
    the sixteen base colors, then the three nested cube loops, then the gray
    loop. *)
Definition make_xterm_palette : list RGB :=
  let palette := ANSI_BASE_COLORS in
  let palette :=
    for_loop 6 (fun r palette =>
      for_loop 6 (fun g palette =>
        for_loop 6 (fun b palette =>
          palette ++ [mkRGB (cube_level r) (cube_level g) (cube_level b)])
        palette) palette) palette in
  for_loop 24 (fun i palette =>
    let val := (8 + i * 10) mod 256 in
    palette ++ [mkRGB val val val]) palette.

Definition xterm_palette : list RGB := Eval vm_compute in make_xterm_palette.

(** [xterm_palette()[i]] *)
Definition palette_at (i : Z) : RGB := nth (Z.to_nat i) xterm_palette (mkRGB 0 0 0).

Definition INT_MAX : Z := 2147483647.

(** The loop state of [xterm_index_from_rgb]. *)
Record Best := mkBest { bestIndex : Z; bestDist : Z }.

Definition xterm_index_step (r g b : Z) (i : Z) (st : Best) : Best :=
  let dr := ColorLut.r (palette_at i) - r in
  let dg := ColorLut.g (palette_at i) - g in
  let db := ColorLut.b (palette_at i) - b in
  let dist := dr * dr + dg * dg + db * db in
  if dist <? bestDist st then mkBest i dist else st.

Definition xterm_index_from_rgb (r g b : Z) : Z :=
  bestIndex (for_loop 256 (xterm_index_step r g b) (mkBest 0 INT_MAX)).

Definition luminance (r g b : Z) : Q :=
  ((2126 # 10000) * inject_Z r + (7152 # 10000) * inject_Z g
   + (722 # 10000) * inject_Z b)%Q.

Section Pow.
(** [std::pow] on floats. *)
Variable powf : Q -> Q -> Q.

Definition apply_gamma (value gamma : Q) : Q :=
  let value := clampQ (value / 255) 0 1 in
  let value := powf value (1 / gamma) in
  clampQ value 0 1.
End Pow.

Definition apply_contrast (value contrast : Q) : Q :=
  let centered := (value - (1 # 2))%Q in
  let centered := (centered * contrast)%Q in
  clampQ (centered + (1 # 2)) 0 1.

Definition bayer_matrix (mode : DitherMode) : BayerMatrix :=
  match mode with
  | Bayer2 => mkBayer 2 [ 0 # 4; 2 # 4;
                          3 # 4; 1 # 4 ]%Q
  | Bayer4 => mkBayer 4 [ 0 # 16;  8 # 16;  2 # 16; 10 # 16;
                          12 # 16; 4 # 16; 14 # 16;  6 # 16;
                          3 # 16; 11 # 16;  1 # 16;  9 # 16;
                          15 # 16; 7 # 16; 13 # 16;  5 # 16 ]%Q
  | Off => mkBayer 1 [ 0%Q ]
  end.

(** [pack_rgb] on bytes: the three fields do not overlap. *)
Definition pack_rgb (r g b : Z) : Z :=
  Z.lor (Z.lor (Z.shiftl r 16) (Z.shiftl g 8)) b.

Definition unpack_rgb (value : Z) : RGB :=
  mkRGB (Z.land (Z.shiftr value 16) 255)
        (Z.land (Z.shiftr value 8) 255)
        (Z.land value 255).

(** *** Notions used in the statements about the palette *)

Definition rgb_eqb (p q : RGB) : bool :=
  (r p =? r q) && (g p =? g q) && (b p =? b q).

(** The index [xterm_index_from_rgb] returns for the color of entry [i]. *)
Definition index_of_entry (i : Z) : Z :=
  xterm_index_from_rgb (r (palette_at i)) (g (palette_at i)) (b (palette_at i)).

(** The cube entries whose color already occurs among the sixteen base colors. *)
Definition repeated_entries : list Z := [16; 46; 51; 196; 201; 226; 231].

(** The answers of the lookup for the 256 entries, computed once. *)
Definition index_table : list Z := Eval vm_compute in map index_of_entry (seqZ 0 256).

Definition table_at (i : Z) : Z := nth (Z.to_nat i) index_table 0.

Definition entry_check (i : Z) : bool :=
  rgb_eqb (palette_at (table_at i)) (palette_at i)
  && forallb (fun j => negb (rgb_eqb (palette_at j) (palette_at i)) || (table_at i <=? j))
             (seqZ 0 256)
  && (existsb (Z.eqb i) repeated_entries || (table_at i =? i)).

(** *** Notions used in the statements about nearest entries and bytes *)

(** A value of a [uint8_t]. *)
Definition is_byte (v : Z) : Prop := 0 <= v <= 255.

(** The [dist] that the loop of [xterm_index_from_rgb] computes for entry [i]. *)
Definition palette_dist (r g b i : Z) : Z :=
  let dr := ColorLut.r (palette_at i) - r in
  let dg := ColorLut.g (palette_at i) - g in
  let db := ColorLut.b (palette_at i) - b in
  dr * dr + dg * dg + db * db.

(** Every field of every palette entry is a byte. *)
Definition palette_entry_is_bytes (i : Z) : bool :=
  (0 <=? r (palette_at i)) && (r (palette_at i) <=? 255)
  && (0 <=? g (palette_at i)) && (g (palette_at i) <=? 255)
  && (0 <=? b (palette_at i)) && (b (palette_at i) <=? 255).

(** [matrix.thresholds[(row % size) * size + (col % size)]], the index
    [sampleCell] reads. *)
Definition threshold_index (matrix : BayerMatrix) (row col : Z) : Z :=
  Z.rem row (size matrix) * size matrix + Z.rem col (size matrix).

End ColorLut.

(* ===================================================================== *)
(** ** ascii_renderer.hpp, ascii_renderer.cpp *)
(* ===================================================================== *)

Module Renderer.
Import ColorLut.

Record RendererConfig := mkConfig {
  mode : RenderMode;
  dither : DitherMode;
  halfBlock : bool;
  gridCols : Z;
  gridRows : Z;
  gamma : Q;
  contrast : Q
}.

(** The member initialisers of [RendererConfig]. *)
Definition default_config : RendererConfig :=
  mkConfig Gray Bayer4 false 120 60 (22 # 10) 1.

Record AsciiCell := mkCell { glyph : string; fg : Z; bg : Z }.

(** The member initialisers of [AsciiCell]. *)
Definition default_cell : AsciiCell := mkCell " " 16777215 0.

Record VideoFrame := mkVideoFrame {
  width : Z;
  height : Z;
  data : list Z;   (* RGB24, one byte per element *)
  pts : Q
}.

Record AsciiFrame := mkAsciiFrame {
  cols : Z;
  rows : Z;
  frameHalfBlock : bool;
  framePts : Q;
  cells : list AsciiCell;
  terminalString : string
}.

Definition kRamp : list ascii :=
  ["@"; "%"; "#"; "*"; "+"; "="; "-"; ":"; "."; " "]%char.

(** [buildRamp] assigns [kRamp] to the member [ramp_], whatever the configuration. *)
Definition ramp_ : list ascii := kRamp.

(** The half-block glyph U+2584, three bytes in UTF-8. *)
Definition half_block_glyph : string :=
  String (ascii_of_nat 226) (String (ascii_of_nat 150)
    (String (ascii_of_nat 132) EmptyString)).

(** *** The configuration mutators, as functions on the member [config_]. *)

Definition configure (cfg : RendererConfig) (config_ : RendererConfig) : RendererConfig :=
  cfg.

Definition cycleMode (config_ : RendererConfig) : RendererConfig :=
  match mode config_ with
  | Gray => mkConfig ANSI256 (dither config_) (halfBlock config_) (gridCols config_)
                     (gridRows config_) (gamma config_) (contrast config_)
  | ANSI256 => mkConfig TrueColor (dither config_) (halfBlock config_) (gridCols config_)
                     (gridRows config_) (gamma config_) (contrast config_)
  | TrueColor => mkConfig Gray (dither config_) (halfBlock config_) (gridCols config_)
                     (gridRows config_) (gamma config_) (contrast config_)
  end.

Definition cycleDither (config_ : RendererConfig) : RendererConfig :=
  match dither config_ with
  | Off => mkConfig (mode config_) Bayer2 (halfBlock config_) (gridCols config_)
                     (gridRows config_) (gamma config_) (contrast config_)
  | Bayer2 => mkConfig (mode config_) Bayer4 (halfBlock config_) (gridCols config_)
                     (gridRows config_) (gamma config_) (contrast config_)
  | Bayer4 => mkConfig (mode config_) Off (halfBlock config_) (gridCols config_)
                     (gridRows config_) (gamma config_) (contrast config_)
  end.

(** [std::clamp] on a finite sum; the code's [std::clamp] hands a NaN back as
    it is. *)
Definition adjustGamma (delta : Q) (config_ : RendererConfig) : RendererConfig :=
  mkConfig (mode config_) (dither config_) (halfBlock config_) (gridCols config_)
           (gridRows config_)
           (clampQ (gamma config_ + delta) (5 # 10) 4)
           (contrast config_).

Definition adjustContrast (delta : Q) (config_ : RendererConfig) : RendererConfig :=
  mkConfig (mode config_) (dither config_) (halfBlock config_) (gridCols config_)
           (gridRows config_) (gamma config_)
           (clampQ (contrast config_ + delta) (2 # 10) 3).

(** *** sampleCell *)

(** The accumulators of the sampling loops. *)
Record Accum := mkAccum {
  accumLuma : Q; accumR : Q; accumG : Q; accumB : Q; count : Z
}.

(** [rgb[i]] for the frame buffer. *)
Definition byte_at (rgb : list Z) (i : Z) : Z := nth (Z.to_nat i) rgb 0.

Definition sample_pixel (rgb : list Z) (width yy xx : Z) (a : Accum) : Accum :=
  let pixel := (yy * width + xx) * 3 in
  let p0 := byte_at rgb pixel in
  let p1 := byte_at rgb (pixel + 1) in
  let p2 := byte_at rgb (pixel + 2) in
  mkAccum (accumLuma a + luminance p0 p1 p2)%Q
          (accumR a + inject_Z p0)%Q
          (accumG a + inject_Z p1)%Q
          (accumB a + inject_Z p2)%Q
          (count a + 1).

Definition sample_loops (rgb : list Z) (width height startX startY cellWidth cellHeight : Z)
  : Accum :=
  for_loop cellHeight (fun y a =>
    let yy := clampZ (startY + y) 0 (height - 1) in
    for_loop cellWidth (fun x a =>
      let xx := clampZ (startX + x) 0 (width - 1) in
      sample_pixel rgb width yy xx a) a)
  (mkAccum 0 0 0 0 0).

Section Pow.
Variable powf : Q -> Q -> Q.

(** [sampleCell] reads the member [config_] (not a copy of it): it is the
    first argument here. *)
Definition sampleCell (config_ : RendererConfig) (rgb : list Z)
    (width height startX startY cellWidth cellHeight row col : Z) : AsciiCell :=
  let matrix := bayer_matrix (dither config_) in
  let a := sample_loops rgb width height startX startY cellWidth cellHeight in
  let avgLuma := (accumLuma a / inject_Z (Z.max 1 (count a)))%Q in
  let normalized := apply_gamma powf avgLuma (gamma config_) in
  let normalized := apply_contrast normalized (contrast config_) in
  let rampSize := Z.of_nat (length ramp_) in
  let rampIndex := Qtrunc (normalized * inject_Z (rampSize - 1) + (1 # 2))%Q in
  let rampIndex := clampZ rampIndex 0 (rampSize - 1) in
  let threshold :=
    if 1 <? size matrix
    then nth (Z.to_nat (Z.rem row (size matrix) * size matrix + Z.rem col (size matrix)))
             (thresholds matrix) 0%Q
    else 0%Q in
  let glyph0 := String (nth (Z.to_nat rampIndex) ramp_ " "%char) EmptyString in
  let avgR := Qtrunc_u8 (accumR a / inject_Z (Z.max 1 (count a)))%Q in
  let avgG := Qtrunc_u8 (accumG a / inject_Z (Z.max 1 (count a)))%Q in
  let avgB := Qtrunc_u8 (accumB a / inject_Z (Z.max 1 (count a)))%Q in
  match mode config_ with
  | Gray =>
      let gray := Qtrunc_u8 avgLuma in
      mkCell glyph0 (pack_rgb gray gray gray) (pack_rgb 0 0 0)
  | ANSI256 =>
      let idx := xterm_index_from_rgb avgR avgG avgB in
      let rgbPalette := palette_at idx in
      mkCell (if Qltb 1 (normalized + threshold)%Q then "#"%string else glyph0)
             (pack_rgb (r rgbPalette) (g rgbPalette) (b rgbPalette))
             (pack_rgb 0 0 0)
  | TrueColor =>
      mkCell glyph0 (pack_rgb avgR avgG avgB) (pack_rgb 0 0 0)
  end.

(** The body of the two cell loops of [render] for the cell at row [y],
    column [x].  [cfg] is the copy taken at entry, [config_] the member that
    [sampleCell] reads. *)
Definition render_cell (config_ cfg : RendererConfig) (frame : VideoFrame)
    (cellWidth cellHeight y x : Z) : AsciiCell :=
  let startY := if halfBlock cfg then y * 2 * cellHeight else y * cellHeight in
  let cellTop := sampleCell config_ (data frame) (width frame) (height frame)
                   (x * cellWidth) startY cellWidth cellHeight y x in
  if halfBlock cfg then
    let cellBottom := sampleCell config_ (data frame) (width frame) (height frame)
                        (x * cellWidth) (startY + cellHeight) cellWidth cellHeight
                        (y + 1) x in
    mkCell half_block_glyph (fg cellBottom) (fg cellTop)
  else cellTop.
End Pow.

(** The cell size [render] computes, for a positive grid: the code divides by
    [gridCols] and by the number of rows, and a division by 0 is undefined. *)
Definition cellWidth_of (cfg : RendererConfig) (frame : VideoFrame) : Z :=
  Z.max 1 (Z.quot (width frame) (gridCols cfg)).

Definition cellHeight_of (cfg : RendererConfig) (frame : VideoFrame) : Z :=
  Z.max 1 (Z.quot (height frame)
                  (if halfBlock cfg then gridRows cfg * 2 else gridRows cfg)).

(** *** The terminal byte string *)

(** The state of the serialisation loop: the output buffer and the three
    locals [currentFg], [currentBg], [haveColor] that are reset per row. *)
Record RowState := mkRowState {
  buffer : string;
  currentFg : Z;
  currentBg : Z;
  haveColor : bool
}.

(** The lambda [flushTrueColor]. *)
Definition flushTrueColor (color : Z) (buffer : string) : string :=
  let rgb := unpack_rgb color in
  (buffer ++ ESC ++ "[38;2;" ++ to_string (r rgb) ++ ";" ++ to_string (g rgb)
          ++ ";" ++ to_string (b rgb) ++ "m")%string.

(** The background escape appended inside [if (cfg.halfBlock)]. *)
Definition appendBackground (color : Z) (buffer : string) : string :=
  let rgb := unpack_rgb color in
  (buffer ++ ESC ++ "[48;2;" ++ to_string (r rgb) ++ ";" ++ to_string (g rgb)
          ++ ";" ++ to_string (b rgb) ++ "m")%string.

(** The foreground part of the loop body. *)
Definition emit_foreground (cfg : RendererConfig) (cell : AsciiCell) (st : RowState)
  : RowState :=
  match mode cfg with
  | TrueColor =>
      if negb (haveColor st) || negb (fg cell =? currentFg st)
      then mkRowState (flushTrueColor (fg cell) (buffer st)) (fg cell) (currentBg st) true
      else st
  | ANSI256 =>
      let idx := xterm_index_from_rgb (Z.land (Z.shiftr (fg cell) 16) 255)
                                      (Z.land (Z.shiftr (fg cell) 8) 255)
                                      (Z.land (fg cell) 255) in
      mkRowState (buffer st ++ ESC ++ "[38;5;" ++ to_string idx ++ "m")%string
                 (currentFg st) (currentBg st) (haveColor st)
  | Gray =>
      let gray := (Z.land (Z.shiftr (fg cell) 16) 255) mod 256 in
      mkRowState (buffer st ++ ESC ++ "[38;2;" ++ to_string gray ++ ";" ++ to_string gray
                            ++ ";" ++ to_string gray ++ "m")%string
                 (currentFg st) (currentBg st) (haveColor st)
  end.

(** The background part of the loop body. *)
Definition emit_background (cfg : RendererConfig) (cell : AsciiCell) (st : RowState)
  : RowState :=
  if halfBlock cfg then
    if negb (haveColor st) || negb (bg cell =? currentBg st)
    then mkRowState (appendBackground (bg cell) (buffer st)) (currentFg st) (bg cell)
                    (haveColor st)
    else st
  else st.

Definition emit_cell (cfg : RendererConfig) (cell : AsciiCell) (st : RowState) : RowState :=
  let st := emit_foreground cfg cell st in
  let st := emit_background cfg cell st in
  mkRowState (buffer st ++ glyph cell)%string (currentFg st) (currentBg st) (haveColor st).

(** [ascii.cells[i]] *)
Definition cell_at (cells : list AsciiCell) (i : Z) : AsciiCell :=
  nth (Z.to_nat i) cells default_cell.

Definition emit_row (cfg : RendererConfig) (ncols : Z) (cells : list AsciiCell)
    (y : Z) (buffer : string) : string :=
  let st := for_loop ncols (fun x st => emit_cell cfg (cell_at cells (y * ncols + x)) st)
                     (mkRowState buffer 4294967295 0 false) in
  (Renderer.buffer st ++ ESC ++ "[0m" ++ CRLF)%string.

Definition build_terminal_string (cfg : RendererConfig) (ncols nrows : Z)
    (cells : list AsciiCell) : string :=
  for_loop nrows (emit_row cfg ncols cells) (ESC ++ "[H")%string.

(** *** render *)

Section Render.
Variable powf : Q -> Q -> Q.

(** The two cell loops of [render] when no other thread touches [config_]
    meanwhile: the member that [sampleCell] reads is the copy [cfg] throughout.
    [ascii.cells] is resized to [cols * rows] default cells, then
    [ascii.cells[y * cols + x] = cell]. *)
Definition render_cells (cfg : RendererConfig) (frame : VideoFrame) : list AsciiCell :=
  let cellWidth := cellWidth_of cfg frame in
  let cellHeight := cellHeight_of cfg frame in
  for_loop (gridRows cfg) (fun y cells =>
    for_loop (gridCols cfg) (fun x cells =>
      <[ Z.to_nat (y * gridCols cfg + x) :=
           render_cell powf cfg cfg frame cellWidth cellHeight y x ]> cells) cells)
  (replicate (Z.to_nat (gridCols cfg * gridRows cfg)) default_cell).

(** [AsciiRenderer::render] on a renderer whose member is [config_]. *)
Definition render (config_ : RendererConfig) (frame : VideoFrame) : AsciiFrame :=
  let cfg := config_ in
  let cells := render_cells cfg frame in
  mkAsciiFrame (gridCols cfg) (gridRows cfg) (halfBlock cfg) (pts frame) cells
    (build_terminal_string cfg (gridCols cfg) (gridRows cfg) cells).

(** *** render next to the control thread

    The mutators lock [mutex_]; [render] locks it only inside [config()], and
    [sampleCell] reads [config_] with no lock.  So the control thread can run
    mutators between any two [sampleCell] calls of one [render].  A schedule
    gives, for each cell, the mutators that run just before that cell is
    sampled. *)
Inductive Mutator :=
| Configure (cfg : RendererConfig)
| CycleMode
| CycleDither
| AdjustGamma (delta : Q)
| AdjustContrast (delta : Q).

Definition apply_mutator (m : Mutator) (config_ : RendererConfig) : RendererConfig :=
  match m with
  | Configure cfg => configure cfg config_
  | CycleMode => cycleMode config_
  | CycleDither => cycleDither config_
  | AdjustGamma delta => adjustGamma delta config_
  | AdjustContrast delta => adjustContrast delta config_
  end.

Definition apply_mutators (ms : list Mutator) (config_ : RendererConfig) : RendererConfig :=
  fold_left (fun c m => apply_mutator m c) ms config_.

(** The shared member and the cells written so far. *)
Record Shared := mkShared { config_now : RendererConfig; cells_now : list AsciiCell }.

Definition render_cells_under (sched : Z -> Z -> list Mutator)
    (config_ : RendererConfig) (cfg : RendererConfig) (frame : VideoFrame) : Shared :=
  let cellWidth := cellWidth_of cfg frame in
  let cellHeight := cellHeight_of cfg frame in
  for_loop (gridRows cfg) (fun y st =>
    for_loop (gridCols cfg) (fun x st =>
      let live := apply_mutators (sched y x) (config_now st) in
      mkShared live
        (<[ Z.to_nat (y * gridCols cfg + x) :=
              render_cell powf live cfg frame cellWidth cellHeight y x ]> (cells_now st)))
      st)
  (mkShared config_ (replicate (Z.to_nat (gridCols cfg * gridRows cfg)) default_cell)).

Definition render_under (sched : Z -> Z -> list Mutator)
    (config_ : RendererConfig) (frame : VideoFrame) : AsciiFrame :=
  let cfg := config_ in
  let st := render_cells_under sched config_ cfg frame in
  mkAsciiFrame (gridCols cfg) (gridRows cfg) (halfBlock cfg) (pts frame) (cells_now st)
    (build_terminal_string cfg (gridCols cfg) (gridRows cfg) (cells_now st)).
End Render.

(** *** Inputs and notions used in the statements about the renderer *)

(** An all-black frame buffer. *)
Definition all_black (rgb : list Z) : Prop := Forall (fun byte => byte = 0) rgb.

(** The sums over an all-black rectangle are zero. *)
Definition zero_accum (a : Accum) : Prop :=
  Qnum (accumLuma a) = 0 /\ Qnum (accumR a) = 0
  /\ Qnum (accumG a) = 0 /\ Qnum (accumB a) = 0.

(** The glyphs [sampleCell] can produce. *)
Definition glyph_choices : list string :=
  "#"%string :: map (fun ch => String ch EmptyString) ramp_.

(** [std::pow] at exponent 1. *)
Definition pow_exponent_one (x e : Q) : Q := x.

(** One black pixel. *)
Definition black_pixel : VideoFrame := mkVideoFrame 1 1 [0; 0; 0] 0.

(** A 1x1 grid in gray, gamma 1, contrast 1, no dither, no half blocks. *)
Definition plain_gray : RendererConfig := mkConfig Gray Off false 1 1 1 1.

(** A 1x1 frame holding the pixel (200, 10, 10). *)
Definition red_pixel (pts : Q) : VideoFrame := mkVideoFrame 1 1 [200; 10; 10] pts.

(** ANSI256 on a 1x1 grid without half blocks. *)
Definition ansi256_1x1 (d : DitherMode) (ga co : Q) : RendererConfig :=
  mkConfig ANSI256 d false 1 1 ga co.

(** The byte string of a one-cell frame whose foreground escape selects
    palette index 1. *)
Definition index_1_string (gl : string) : string :=
  (ESC ++ "[H" ++ ESC ++ "[38;5;1m" ++ gl ++ ESC ++ "[0m" ++ CRLF)%string.

(** A black 2x2 frame. *)
Definition black_2x2 : VideoFrame := mkVideoFrame 2 2 (replicate 12 0) 0.

(** Two half-block cells in one row. *)
Definition half_row (m : RenderMode) : RendererConfig :=
  mkConfig m Bayer4 true 2 1 (22 # 10) 1.

Definition fg_escape : string := (ESC ++ "[38;2;0;0;0m")%string.
Definition bg_escape : string := (ESC ++ "[48;2;0;0;0m")%string.
Definition row_end : string := (ESC ++ "[0m" ++ CRLF)%string.

(** Two red pixels side by side. *)
Definition two_red_pixels : VideoFrame := mkVideoFrame 2 1 [200; 10; 10; 200; 10; 10] 0.

(** Gray, gamma 1, contrast 1, a grid of two cells in one row. *)
Definition gray_1x2 : RendererConfig := mkConfig Gray Off false 2 1 1 1.

(** The control thread handles the key 'c' after the first cell is sampled. *)
Definition key_c_before_second_cell (y x : Z) : list Mutator :=
  if (y =? 0) && (x =? 1) then [CycleMode] else [].

(** Gray half blocks on a 1x1 grid. *)
Definition half_block_1x1 : RendererConfig := mkConfig Gray Off true 1 1 1 1.

(** *** Notions used in the statements about sampling and serialisation *)

(** Two buffers that hold the same bytes at the [width * height * 3] offsets
    of a frame. *)
Definition frame_bytes_agree (width height : Z) (rgb1 rgb2 : list Z) : Prop :=
  forall i, 0 <= i < width * height * 3 -> byte_at rgb1 i = byte_at rgb2 i.

(** Every pixel of the frame is the color ([r], [g], [b]). *)
Definition uniform_frame (rgb : list Z) (width height r g b : Z) : Prop :=
  forall p, 0 <= p < width * height ->
    byte_at rgb (p * 3) = r /\ byte_at rgb (p * 3 + 1) = g /\ byte_at rgb (p * 3 + 2) = b.

(** The foreground [sampleCell] gives a cell whose pixels all have the color
    (r, g, b), outside Gray mode: the nearest palette entry in ANSI256 mode,
    the color itself in TrueColor mode. *)
Definition uniform_color (m : RenderMode) (r g b : Z) : Z :=
  match m with
  | ANSI256 =>
      let entry := palette_at (xterm_index_from_rgb r g b) in
      pack_rgb (ColorLut.r entry) (ColorLut.g entry) (ColorLut.b entry)
  | _ => pack_rgb r g b
  end.

(** The configuration with another dither mode. *)
Definition with_dither (d : DitherMode) (cfg : RendererConfig) : RendererConfig :=
  mkConfig (mode cfg) d (halfBlock cfg) (gridCols cfg) (gridRows cfg)
           (gamma cfg) (contrast cfg).

(** A glyph of one byte taken from the ramp. *)
Definition one_ramp_glyph (gl : string) : Prop :=
  exists ch, In ch kRamp /\ gl = String ch EmptyString.

(** The glyphs of the first [n] cells of row [y], one after the other. *)
Definition row_glyphs (ncols : Z) (cells : list AsciiCell) (y n : Z) : string :=
  for_loop n (fun x s => (s ++ glyph (cell_at cells (y * ncols + x)))%string) EmptyString.

(** The first [n] cells of row [y] all have the foreground [color]. *)
Definition row_has_fg (ncols : Z) (cells : list AsciiCell) (y n color : Z) : Prop :=
  forall x, 0 <= x < n -> fg (cell_at cells (y * ncols + x)) = color.

(** TrueColor without half blocks on a grid of two cells in one row. *)
Definition truecolor_1x2 : RendererConfig := mkConfig TrueColor Off false 2 1 1 1.

(** The bytes [emit_row] appends for row [y], and those of the first [n] rows. *)
Definition row_text (cfg : RendererConfig) (ncols : Z) (cells : list AsciiCell) (y : Z)
  : string :=
  emit_row cfg ncols cells y EmptyString.

Definition rows_text (cfg : RendererConfig) (ncols : Z) (cells : list AsciiCell) (n : Z)
  : string :=
  for_loop n (fun y s => (s ++ row_text cfg ncols cells y)%string) EmptyString.

(** The three averages [avgR], [avgG], [avgB] of [sampleCell]. *)
Definition cell_average (rgb : list Z)
    (width height startX startY cellWidth cellHeight : Z) : RGB :=
  let a := sample_loops rgb width height startX startY cellWidth cellHeight in
  mkRGB (Qtrunc_u8 (accumR a / inject_Z (Z.max 1 (count a)))%Q)
        (Qtrunc_u8 (accumG a / inject_Z (Z.max 1 (count a)))%Q)
        (Qtrunc_u8 (accumB a / inject_Z (Z.max 1 (count a)))%Q).

(** Two cells with the foregrounds 0x0A0B0C and 0x0A0B0C. *)
Definition same_fg_row : list AsciiCell := [mkCell "a" 658188 0; mkCell "b" 658188 0].

End Renderer.

(* ===================================================================== *)
(** ** main.cpp: the options that reach the renderer; pipeline.cpp: the keys *)
(* ===================================================================== *)

Module Control.
Import ColorLut Renderer.

(** The fields of [CommandLineOptions] that [main] copies into
    [pipelineCfg.renderer]. *)
Record CommandLineOptions := mkOptions {
  opt_mode : RenderMode;
  opt_grid : option (Z * Z);
  opt_halfblock : bool;
  opt_dither : DitherMode;
  opt_gamma : Q;
  opt_contrast : Q
}.

Definition default_options : CommandLineOptions :=
  mkOptions ANSI256 None false Bayer4 (22 # 10) 1.

(** One recognised option with its value already converted ([std::stof] for
    [--gamma] and [--contrast]; [parseDimension] for [--grid]). *)
Inductive Arg :=
| ArgMode (m : RenderMode)
| ArgGrid (w h : Z)
| ArgHalfblock (on : bool)
| ArgDither (d : DitherMode)
| ArgGamma (v : Q)
| ArgContrast (v : Q).

(** One turn of the option loop of [parseArgs]; [None] is [std::nullopt]. *)
Definition parse_arg (a : Arg) (opts : CommandLineOptions) : option CommandLineOptions :=
  match a with
  | ArgMode m => Some (mkOptions m (opt_grid opts) (opt_halfblock opts) (opt_dither opts)
                                 (opt_gamma opts) (opt_contrast opts))
  | ArgGrid w h =>
      if (w <=? 0) || (h <=? 0) then None
      else Some (mkOptions (opt_mode opts) (Some (w, h)) (opt_halfblock opts)
                           (opt_dither opts) (opt_gamma opts) (opt_contrast opts))
  | ArgHalfblock on => Some (mkOptions (opt_mode opts) (opt_grid opts) on (opt_dither opts)
                                       (opt_gamma opts) (opt_contrast opts))
  | ArgDither d => Some (mkOptions (opt_mode opts) (opt_grid opts) (opt_halfblock opts) d
                                   (opt_gamma opts) (opt_contrast opts))
  | ArgGamma v => Some (mkOptions (opt_mode opts) (opt_grid opts) (opt_halfblock opts)
                                  (opt_dither opts) v (opt_contrast opts))
  | ArgContrast v => Some (mkOptions (opt_mode opts) (opt_grid opts) (opt_halfblock opts)
                                     (opt_dither opts) (opt_gamma opts) v)
  end.

Fixpoint parseArgs_from (args : list Arg) (opts : CommandLineOptions)
  : option CommandLineOptions :=
  match args with
  | [] => Some opts
  | a :: rest =>
      match parse_arg a opts with
      | Some opts' => parseArgs_from rest opts'
      | None => None
      end
  end.

Definition parseArgs (args : list Arg) : option CommandLineOptions :=
  parseArgs_from args default_options.

(** [pipelineCfg.renderer] as [main] fills it. *)
Definition renderer_of_options (opts : CommandLineOptions) : RendererConfig :=
  let base := default_config in
  mkConfig (opt_mode opts) (opt_dither opts) (opt_halfblock opts)
           (match opt_grid opts with Some (w, _) => w | None => gridCols base end)
           (match opt_grid opts with Some (_, h) => h | None => gridRows base end)
           (opt_gamma opts) (opt_contrast opts).

(** [Pipeline::initialize]: [renderer_.configure(config.renderer)] on a freshly
    constructed renderer. *)
Definition initialize (opts : CommandLineOptions) : RendererConfig :=
  configure (renderer_of_options opts) default_config.

Definition with_mode (m : RenderMode) (cfg : RendererConfig) : RendererConfig :=
  mkConfig m (dither cfg) (halfBlock cfg) (gridCols cfg) (gridRows cfg)
           (gamma cfg) (contrast cfg).

(** The renderer part of the key dispatch of [Pipeline::controlThread]. *)
Definition handle_key (key : ascii) (config_ : RendererConfig) : RendererConfig :=
  if (key =? "c")%char || (key =? "C")%char then cycleMode config_
  else if (key =? "d")%char || (key =? "D")%char then cycleDither config_
  else if (key =? "g")%char then adjustGamma (- (1 # 10)) config_
  else if (key =? "G")%char then adjustGamma (1 # 10) config_
  else if (key =? "b")%char then adjustContrast (- (1 # 10)) config_
  else if (key =? "B")%char then adjustContrast (1 # 10) config_
  else if (key =? "1")%char then configure (with_mode Gray config_) config_
  else if (key =? "2")%char then configure (with_mode ANSI256 config_) config_
  else if (key =? "3")%char then configure (with_mode TrueColor config_) config_
  else if (key =? "r")%char || (key =? "R")%char then configure config_ config_
  else config_.

Definition handle_keys (keys : list ascii) (config_ : RendererConfig) : RendererConfig :=
  fold_left (fun c k => handle_key k c) keys config_.

(** The renderer configurations a run can reach: start-up from a command line
    whose options satisfy [ok], then any keys. *)
Inductive reachable_when (ok : CommandLineOptions -> Prop) : RendererConfig -> Prop :=
| reach_start args opts :
    parseArgs args = Some opts -> ok opts -> reachable_when ok (initialize opts)
| reach_key key c :
    reachable_when ok c -> reachable_when ok (handle_key key c).

Definition reachable : RendererConfig -> Prop := reachable_when (fun _ => True).

Definition gamma_in_bounds (c : RendererConfig) : Prop :=
  ((5 # 10) <= gamma c /\ gamma c <= 4)%Q.

Definition contrast_in_bounds (c : RendererConfig) : Prop :=
  ((2 # 10) <= contrast c /\ contrast c <= 3)%Q.

Definition in_bounds (c : RendererConfig) : Prop :=
  gamma_in_bounds c /\ contrast_in_bounds c.

(** The options [parseArgs] returns for [--gamma 10] and for [--contrast 5]. *)
Definition gamma_10 : CommandLineOptions := mkOptions ANSI256 None false Bayer4 10 1.

Definition contrast_5 : CommandLineOptions :=
  mkOptions ANSI256 None false Bayer4 (22 # 10) 5.

(** The keys that go through [adjustGamma], and those that go through
    [adjustContrast]. *)
Definition is_gamma_key (key : ascii) : bool := (key =? "g")%char || (key =? "G")%char.

Definition is_contrast_key (key : ascii) : bool := (key =? "b")%char || (key =? "B")%char.

(** *** The whole key dispatch of [Pipeline::controlThread]

    [ctl_running]: [running_]; [ctl_paused]: [paused_]; [ctl_volume]: the
    volume of the audio player ([audio_.config_.volume]); [ctl_config]: the
    member [config_] of the renderer. *)
Record ControlState := mkControl {
  ctl_running : bool;
  ctl_paused : bool;
  ctl_volume : Q;
  ctl_config : RendererConfig
}.

(** One key: [audio_enabled] and [config_volume] are [config_.audio.enabled]
    and [config_.audio.volume] of the pipeline. *)
Definition control_key (audio_enabled : bool) (config_volume : Q) (key : ascii)
    (st : ControlState) : ControlState :=
  if (key =? " ")%char then
    let newState := negb (ctl_paused st) in
    mkControl (ctl_running st) newState
              (if audio_enabled then (if newState then 0%Q else config_volume)
               else ctl_volume st)
              (ctl_config st)
  else if (key =? "q")%char || (key =? "Q")%char then
    mkControl false (ctl_paused st) (ctl_volume st) (ctl_config st)
  else
    mkControl (ctl_running st) (ctl_paused st) (ctl_volume st)
              (handle_key key (ctl_config st)).

(** The loop [while (running_)] over the keys read; 'q' leaves it. *)
Fixpoint controlThread (audio_enabled : bool) (config_volume : Q) (keys : list ascii)
    (st : ControlState) : ControlState :=
  match keys with
  | [] => st
  | key :: rest =>
      if ctl_running st
      then controlThread audio_enabled config_volume rest
             (control_key audio_enabled config_volume key st)
      else st
  end.

(** The state when the threads start: running, not paused, the player at
    [player_volume] (the configured volume when [AudioPlayer::start] has stored
    the configuration, the default 1.0 when audio is disabled and [start] was
    never called). *)
Definition control_start (player_volume : Q) (c : RendererConfig) : ControlState :=
  mkControl true false player_volume c.

(** Is the key 'q' or 'Q'? *)
Definition is_quit_key (key : ascii) : bool := (key =? "q")%char || (key =? "Q")%char.

(** The keys before the first 'q' or 'Q'. *)
Fixpoint keys_before_quit (keys : list ascii) : list ascii :=
  match keys with
  | [] => []
  | key :: rest => if is_quit_key key then [] else key :: keys_before_quit rest
  end.

(** How many of the keys are the space bar. *)
Definition spaces (keys : list ascii) : nat :=
  length (List.filter (fun key => (key =? " ")%char) keys).

End Control.

(* ===================================================================== *)
(** ** audio_player.cpp *)
(* ===================================================================== *)

Module Audio.

(** [enabled], [volume]: [config_]; [sampleRate], [channels]: the fields
    [device_.sampleRate] and [device_.playback.channels]; [queue_]: the ring of
    16-bit samples; [samplesPlayed_]: the 64-bit counter. *)
Record AudioPlayer := mkPlayer {
  enabled : bool;
  volume : Q;
  sampleRate : Z;
  channels : Z;
  queue_ : list Z;
  samplesPlayed_ : Z
}.

Definition enqueue (samples : list Z) (p : AudioPlayer) : AudioPlayer :=
  if negb (enabled p) then p
  else mkPlayer (enabled p) (volume p) (sampleRate p) (channels p)
                (queue_ p ++ samples) (samplesPlayed_ p).

Definition playbackTime (p : AudioPlayer) : Q :=
  if negb (enabled p) then 0%Q
  else (inject_Z (samplesPlayed_ p) / inject_Z (sampleRate p))%Q.

Definition setVolume (volume : Q) (p : AudioPlayer) : AudioPlayer :=
  mkPlayer (enabled p) volume (sampleRate p) (channels p) (queue_ p) (samplesPlayed_ p).

(** The modulus of the 64-bit counter. *)
Definition two_64 : Z := 18446744073709551616.

(** [onData]: the output buffer it leaves and the player afterwards. *)
Definition onData (frameCount : Z) (p : AudioPlayer) : list Q * AudioPlayer :=
  let samplesRequested := frameCount * channels p in
  let temp := replicate (Z.to_nat samplesRequested) 0%Q in
  match queue_ p with
  | [] => (replicate (Z.to_nat samplesRequested) 0%Q, p)
  | _ =>
      let samplesAvailable := Z.min (Z.of_nat (length (queue_ p))) samplesRequested in
      let temp :=
        for_loop samplesAvailable (fun i temp =>
          <[ Z.to_nat i :=
               (inject_Z (nth (Z.to_nat i) (queue_ p) 0%Z) / 32768 * volume p)%Q ]> temp)
          temp in
      let queue' := drop (Z.to_nat samplesAvailable) (queue_ p) in
      let output := replicate (Z.to_nat samplesRequested) 0%Q in
      let output :=
        for_loop samplesAvailable (fun i output =>
          <[ Z.to_nat i := nth (Z.to_nat i) temp 0%Q ]> output) output in
      (output,
       mkPlayer (enabled p) (volume p) (sampleRate p) (channels p) queue'
                ((samplesPlayed_ p + Z.quot samplesAvailable (channels p))
                 mod two_64))
  end.

(** *** Inputs and notions used in the statements about the clock *)

(** The samples [onData] takes from the ring for a request of [frameCount] frames. *)
Definition samples_taken (frameCount : Z) (p : AudioPlayer) : Z :=
  Z.min (Z.of_nat (length (queue_ p))) (frameCount * channels p).

(** An enabled player on a 48 kHz stereo device whose ring is empty. *)
Definition starved : AudioPlayer := mkPlayer true 1 48000 2 [] 0.

(** The same device with three samples queued: one frame short of a request
    for two frames. *)
Definition short_of_one : AudioPlayer := mkPlayer true 1 48000 2 [7; 7; 7] 0.

(** [static_cast<float>(queue_[i]) / 32768.0f * config_.volume] *)
Definition scaled (p : AudioPlayer) (sample : Z) : Q :=
  (inject_Z sample / 32768 * volume p)%Q.

End Audio.

(* ===================================================================== *)
(** ** exporter.cpp *)
(* ===================================================================== *)

Module VideoExport.
Import Renderer.

Record ExportConfig := mkExportConfig {
  gridCols : Z;
  gridRows : Z;
  fontW : Z;
  fontH : Z
}.

(** [glyphW_], [glyphH_] and the size of [rgbFrame_]. *)
Record Exporter := mkExporter {
  glyphW_ : Z;
  glyphH_ : Z;
  frame_width : Z;
  frame_height : Z
}.

(** [Exporter::open] followed by a successful [initializeEncoder]. *)
Definition open (cfg : ExportConfig) : Exporter :=
  let glyphW := Z.max 4 (fontW cfg) in
  let glyphH := Z.max 8 (fontH cfg) in
  mkExporter glyphW glyphH (gridCols cfg * glyphW) (gridRows cfg * glyphH).

(** The value of a [char] holding the byte [byte]: plain [char] is signed on
    some platforms and unsigned on others. *)
Definition to_char (char_is_signed : bool) (byte : Z) : Z :=
  if char_is_signed && (127 <? byte) then byte - 256 else byte.

(** The two vectors [blitAscii] writes: the frame-sized [buffer] and the
    scratch [glyphBuffer] that every cell reuses. *)
Record Blit := mkBlit { pixels : list Z; glyphBuffer : list Z }.

Section Font.
(** tiny_font8x16.hpp is not part of the sources at hand: its two constants
    and its [blit_glyph(dst, stride, ch, fg, bg)], which leaves the glyph
    buffer it was given in a new state, are parameters. *)
Variable glyph_width glyph_height : Z.
Variable blit_glyph : list Z -> Z -> Z -> Z -> Z -> list Z.
Variable char_is_signed : bool.

(** [char glyph = cell.glyph.empty() ? ' ' : cell.glyph[0];
     if (glyph < 32 || glyph > 126) glyph = '#';] *)
Definition export_glyph (cell : AsciiCell) : Z :=
  let glyph0 :=
    match glyph cell with
    | EmptyString => 32
    | String c _ => to_char char_is_signed (Z.of_nat (nat_of_ascii c))
    end in
  if (glyph0 <? 32) || (126 <? glyph0) then 35 else glyph0.

(** The scaled copy of the glyph buffer into the cell at column [x], row [y]. *)
Definition copy_glyph (e : Exporter) (glyphBuffer : list Z) (x y : Z) (buffer : list Z)
  : list Z :=
  let stride := frame_width e in
  let baseX := x * glyphW_ e in
  let baseY := y * glyphH_ e in
  for_loop (glyphH_ e) (fun yy buffer =>
    let srcY := Z.quot (yy * glyph_height) (glyphH_ e) in
    for_loop (glyphW_ e) (fun xx buffer =>
      let srcX := Z.quot (xx * glyph_width) (glyphW_ e) in
      <[ Z.to_nat ((baseY + yy) * stride + (baseX + xx)) :=
           nth (Z.to_nat (srcY * glyph_width + srcX)) glyphBuffer 0 ]> buffer)
    buffer) buffer.

Definition blit_cell (e : Exporter) (frame : AsciiFrame) (y x : Z) (st : Blit) : Blit :=
  let cell := cell_at (cells frame) (y * cols frame + x) in
  let glyph := export_glyph cell in
  let glyphBuffer := blit_glyph (glyphBuffer st) glyph_width glyph (fg cell) (bg cell) in
  mkBlit (copy_glyph e glyphBuffer x y (pixels st)) glyphBuffer.

Definition blitAscii (e : Exporter) (frame : AsciiFrame) (buffer : list Z) : Blit :=
  for_loop (rows frame) (fun y st =>
    for_loop (cols frame) (fun x st => blit_cell e frame y x st) st)
  (mkBlit buffer (replicate (Z.to_nat (glyph_width * glyph_height)) 0)).

(** The pixel buffer [writeFrame] holds after [blitAscii]. *)
Definition writeFrame_buffer (e : Exporter) (frame : AsciiFrame) : list Z :=
  pixels (blitAscii e frame
            (replicate (Z.to_nat (frame_width e * frame_height e)) 0)).
End Font.

(** *** Notions used in the statements about the exported pixels *)

(** The first byte of a glyph, as an unsigned value. *)
Definition first_byte (gl : string) : option Z :=
  match gl with
  | EmptyString => None
  | String c _ => Some (Z.of_nat (nat_of_ascii c))
  end.

Definition unprintable (gl : string) : Prop :=
  exists byte, first_byte gl = Some byte /\ (byte < 32 \/ 126 < byte).

(** Where the pixel ([xx], [yy]) of the cell at column [x], row [y] lives in the
    frame buffer, and which pixel of the glyph buffer it copies. *)
Definition pixel_index (e : Exporter) (y x yy xx : Z) : nat :=
  Z.to_nat ((y * glyphH_ e + yy) * frame_width e + (x * glyphW_ e + xx)).

Definition glyph_pixel (glyph_width glyph_height : Z) (e : Exporter) (gb : list Z)
    (yy xx : Z) : Z :=
  nth (Z.to_nat (Z.quot (yy * glyph_height) (glyphH_ e) * glyph_width
                 + Z.quot (xx * glyph_width) (glyphW_ e))) gb 0.

Definition in_frame (e : Exporter) (frame : AsciiFrame) (y x yy xx : Z) : Prop :=
  (0 <= y < rows frame /\ 0 <= x < cols frame)
  /\ (0 <= yy < glyphH_ e /\ 0 <= xx < glyphW_ e).

(** The cell at column [x0], row [y0] of a frame. *)
Definition target_cell (frame : AsciiFrame) (y0 x0 : Z) : AsciiCell :=
  cell_at (cells frame) (y0 * cols frame + x0).

(** The pixel ([xx0], [yy0]) of that cell shows the bitmap of '#' (code 35) in
    the cell's colors. *)
Definition painted (glyph_width glyph_height : Z)
    (blit_glyph : list Z -> Z -> Z -> Z -> Z -> list Z)
    (e : Exporter) (frame : AsciiFrame) (y0 x0 yy0 xx0 : Z) (st : Blit) : Prop :=
  exists gb,
    pixels st !! pixel_index e y0 x0 yy0 xx0
    = Some (glyph_pixel glyph_width glyph_height e
              (blit_glyph gb glyph_width 35 (fg (target_cell frame y0 x0))
                          (bg (target_cell frame y0 x0)))
              yy0 xx0).

(** The invariant of the cell loops of [blitAscii] for that pixel, before the
    cell at column [x], row [y]. *)
Definition blit_inv (glyph_width glyph_height : Z)
    (blit_glyph : list Z -> Z -> Z -> Z -> Z -> list Z)
    (e : Exporter) (frame : AsciiFrame) (buffer : list Z) (y0 x0 yy0 xx0 : Z)
    (y x : Z) (st : Blit) : Prop :=
  length (pixels st) = length buffer
  /\ (y0 < y \/ (y0 = y /\ x0 < x) ->
      painted glyph_width glyph_height blit_glyph e frame y0 x0 yy0 xx0 st).

(** A font whose every glyph is a filled block of the foreground color. *)
Definition block_font (dst : list Z) (stride ch fg bg : Z) : list Z :=
  replicate 128 fg.

(** The default 8x16 cell on a 1x1 grid. *)
Definition export_1x1 : ExportConfig := mkExportConfig 1 1 8 16.

(** [--export-grid] and [--export-font] as [parseArgs] leaves them. *)
Record ExportOptions := mkExportOptions {
  exportGrid : option (Z * Z);
  exportFont : option (Z * Z)
}.

(** [pipelineCfg.exporter] as [main] fills it: the export grid defaults to the
    grid of the renderer, the font to the 8x16 of [ExportConfig]. *)
Definition exporter_of_options (eopts : ExportOptions) (renderer : RendererConfig)
  : ExportConfig :=
  mkExportConfig
    (match exportGrid eopts with Some (w, _) => w | None => Renderer.gridCols renderer end)
    (match exportGrid eopts with Some (_, h) => h | None => Renderer.gridRows renderer end)
    (match exportFont eopts with Some (w, _) => w | None => 8 end)
    (match exportFont eopts with Some (_, h) => h | None => 16 end).

(** The pixel ([xx], [yy]) of the glyph that [blitAscii] draws for the cell at
    column [x], row [y], when [blit_glyph] is handed the glyph buffer [gb]. *)
Definition cell_pixel (glyph_width glyph_height : Z)
    (blit_glyph : list Z -> Z -> Z -> Z -> Z -> list Z) (char_is_signed : bool)
    (e : Exporter) (frame : AsciiFrame) (y x yy xx : Z) (gb : list Z) : Z :=
  glyph_pixel glyph_width glyph_height e
    (blit_glyph gb glyph_width (export_glyph char_is_signed (target_cell frame y x))
                (fg (target_cell frame y x)) (bg (target_cell frame y x)))
    yy xx.

(** A font whose glyph buffer shows the character code in every pixel. *)
Definition code_font (dst : list Z) (stride ch fg bg : Z) : list Z :=
  replicate 128 ch.

(** A frame of one cell with the glyph "A". *)
Definition letter_frame : AsciiFrame := mkAsciiFrame 1 1 false 0 [mkCell "A" 16777215 0] "".

End VideoExport.

(* ===================================================================== *)
(** ** decoder.cpp, pipeline.cpp: the video path from decoder to ASCII worker *)
(* ===================================================================== *)

Module Queues.

Definition kMaxVideoQueue : Z := 8.

Section Frames.
Variable Frame : Type.

(** [decoderQueue]: [Decoder::videoQueue_]; [running_], [finished_]: the
    decoder's flags; [pipelineQueue]: [Pipeline::videoQueue_]. *)
Record State := mkState {
  decoderQueue : list Frame;
  running_ : bool;
  finished_ : bool;
  pipelineQueue : list Frame
}.

Definition initial : State := mkState [] true false [].

(** What the threads do to the two queues, one whole critical section each. *)
Inductive Event :=
| PushVideoFrame (f : Frame)   (* Decoder::pushVideoFrame, called by decodeLoop *)
| DecodeThreadTurn             (* one turn of the loop of Pipeline::decodeThread *)
| AsciiThreadPop               (* the critical section of Pipeline::asciiThread *)
| DecoderEnd                   (* the end of decodeLoop: running_ = false, finished_ = true *).

(** [None]: the thread is blocked in its [wait] in this state (the event is
    not enabled), or its loop has ended.  An event is enabled whenever the
    predicate of its [wait] holds: what wakes the waiting thread (a
    notification, or a wake-up without one) is not part of the state. *)
Definition step (e : Event) (s : State) : option State :=
  match e with
  | PushVideoFrame f =>
      if (Z.of_nat (length (decoderQueue s)) <? kMaxVideoQueue) || negb (running_ s)
      then if negb (running_ s) then Some s
           else Some (mkState (decoderQueue s ++ [f]) (running_ s) (finished_ s)
                              (pipelineQueue s))
      else None
  | DecodeThreadTurn =>
      match decoderQueue s with
      | f :: rest =>
          Some (mkState rest (running_ s) (finished_ s) (pipelineQueue s ++ [f]))
      | [] => None
      end
  | AsciiThreadPop =>
      match pipelineQueue s with
      | _ :: rest => Some (mkState (decoderQueue s) (running_ s) (finished_ s) rest)
      | [] => None
      end
  | DecoderEnd => Some (mkState (decoderQueue s) false true (pipelineQueue s))
  end.

Fixpoint run (es : list Event) (s : State) : option State :=
  match es with
  | [] => Some s
  | e :: rest =>
      match step e s with
      | Some s' => run rest s'
      | None => None
      end
  end.

Definition reachable (s : State) : Prop := exists es, run es initial = Some s.

(** The frames waiting between the decoder and the ASCII worker. *)
Definition buffered (s : State) : Z :=
  Z.of_nat (length (decoderQueue s)) + Z.of_nat (length (pipelineQueue s)).
End Frames.

Arguments decoderQueue {Frame}.
Arguments running_ {Frame}.
Arguments finished_ {Frame}.
Arguments pipelineQueue {Frame}.
Arguments initial {Frame}.
Arguments PushVideoFrame {Frame}.
Arguments DecodeThreadTurn {Frame}.
Arguments AsciiThreadPop {Frame}.
Arguments DecoderEnd {Frame}.
Arguments step {Frame}.
Arguments run {Frame}.
Arguments reachable {Frame}.
Arguments buffered {Frame}.

(** *** The frames a run has stored and handed on *)

Section Logs.
Context {Frame : Type}.

(** [stored]: the frames [pushVideoFrame] has put into the decoder's queue;
    [taken]: the frames the ASCII worker has taken off [Pipeline::videoQueue_];
    both oldest first. *)
Record Log := mkLog { stored : list Frame; taken : list Frame }.

Definition log_step (e : Event Frame) (s : State Frame) (l : Log) : Log :=
  match e with
  | PushVideoFrame f =>
      if running_ s then mkLog (stored l ++ [f]) (taken l) else l
  | AsciiThreadPop =>
      match pipelineQueue s with
      | f :: _ => mkLog (stored l) (taken l ++ [f])
      | [] => l
      end
  | _ => l
  end.

Fixpoint run_log (es : list (Event Frame)) (s : State Frame) (l : Log)
  : option (State Frame * Log) :=
  match es with
  | [] => Some (s, l)
  | e :: rest =>
      match step e s with
      | Some s' => run_log rest s' (log_step e s l)
      | None => None
      end
  end.
End Logs.

Arguments Log : clear implicits.

(** The decoder pushes the frames [0 .. n-1] and nothing is taken. *)
Definition pushes (n : nat) : list (Event nat) := map PushVideoFrame (seq 0 n).

(** The decoder delivers [n] frames and the ASCII worker takes none: each frame
    is pushed by the decoder and moved on by [Pipeline::decodeThread]. *)
Fixpoint stalled_consumer (n : nat) : list (Event nat) :=
  match n with
  | O => []
  | S k => stalled_consumer k ++ [PushVideoFrame k; DecodeThreadTurn]
  end.

End Queues.

(* ===================================================================== *)
(** ** pipeline.cpp: Pipeline::renderThread *)
(* ===================================================================== *)

Module Presenter.
Import Renderer.

(** The fields of [PipelineConfig] that the presenter reads. *)
Record PipelineConfig := mkPipelineConfig {
  exportEnabled : bool;
  targetFps : Q;
  audioEnabled : bool
}.

Record Counters := mkCounters { renderedFrames_ : Z; droppedFrames_ : Z }.

(** What one turn of the loop does to the outside. *)
Inductive Effect :=
| SleepMillis (ms : Z)            (* sleep_for(std::chrono::milliseconds(ms)) *)
| SleepSeconds (d : Q)            (* sleep_for(std::chrono::duration<double>(d)) *)
| Present (frame : AsciiFrame)    (* terminal_.present(frame) *)
| WriteFrame (frame : AsciiFrame). (* exporter_.writeFrame(frame, err) *)

Definition target_of (cfg : PipelineConfig) (st : Counters) (frame : AsciiFrame) : Q :=
  if Qltb 0 (targetFps cfg)
  then (inject_Z (renderedFrames_ st) / targetFps cfg)%Q
  else framePts frame.

(** [static_cast<int>(d)] for a [double]: truncation toward zero.  The
    conversion is undefined when the truncated value is no value of the 32-bit
    [int]; [None] stands for that. *)
Definition cast_int (d : Q) : option Z :=
  let t := Qtrunc d in
  if (-2147483648 <=? t) && (t <=? 2147483647) then Some t else None.

(** How a turn leaves the loop body: at its end or at [continue], or at
    [break]. *)
Inductive Ending := NextTurn | Break.

Record Outcome := mkOutcome {
  counters : Counters;
  effects : list Effect;
  ending : Ending
}.

(** One turn of the loop of [renderThread], from the popped [frame] on.
    [pauses] is the number of times [while (paused_.load() && running_)] sleeps
    and [running] what [if (!running_) break;] reads after it; [audioClock] is
    what [audio_.playbackTime()] returns, [elapsed] what the steady clock shows
    since [clockStart].  [None]: the turn converts to [int] a value that is no
    [int]. *)
Definition present_turn (cfg : PipelineConfig) (pauses : nat) (running : bool)
    (audioClock elapsed : Q) (frame : AsciiFrame) (st : Counters) : option Outcome :=
  let waited := replicate pauses (SleepMillis 20) in
  if negb running then Some (mkOutcome st waited Break)
  else if exportEnabled cfg then
    Some (mkOutcome (mkCounters (renderedFrames_ st + 1) (droppedFrames_ st))
                    (waited ++ [WriteFrame frame]) NextTurn)
  else
    let target := target_of cfg st frame in
    if audioEnabled cfg then
      let diff := (target - audioClock)%Q in
      if Qltb (1 # 100) diff then
        match cast_int (diff * 1000) with
        | Some ms =>
            Some (mkOutcome (mkCounters (renderedFrames_ st + 1) (droppedFrames_ st))
                            (waited ++ [SleepMillis ms; Present frame]) NextTurn)
        | None => None
        end
      else if Qltb diff (- (5 # 100)) then
        Some (mkOutcome (mkCounters (renderedFrames_ st) (droppedFrames_ st + 1))
                        waited NextTurn)
      else
        Some (mkOutcome (mkCounters (renderedFrames_ st + 1) (droppedFrames_ st))
                        (waited ++ [Present frame]) NextTurn)
    else
      let diff := (target - elapsed)%Q in
      if Qltb 0 diff then
        Some (mkOutcome (mkCounters (renderedFrames_ st + 1) (droppedFrames_ st))
                        (waited ++ [SleepSeconds diff; Present frame]) NextTurn)
      else
        Some (mkOutcome (mkCounters (renderedFrames_ st + 1) (droppedFrames_ st))
                        (waited ++ [Present frame]) NextTurn).

Definition presented (frame : AsciiFrame) (out : Outcome) : Prop :=
  In (Present frame) (effects out).

(** The duration a [SleepMillis] asks for, in seconds. *)
Definition millis (ms : Z) : Q := (inject_Z ms / 1000)%Q.

(** *** Inputs used in the statements about the presenter *)

(** Live mode, audio enabled, source timestamps. *)
Definition live_audio : PipelineConfig := mkPipelineConfig false 0 true.

(** A frame stamped 1.5625 s. *)
Definition frame_1_5625 : AsciiFrame := mkAsciiFrame 1 1 false (25 # 16) [] "".

(** *** Several turns of the loop *)

(** One popped frame with what its turn reads: the sleeps of the pause loop,
    [running_] after it, and the two clocks. *)
Record Turn := mkTurn {
  pauses : nat;
  running : bool;
  audioClock : Q;
  elapsed : Q;
  popped : AsciiFrame
}.

(** The loop over the frames popped one after the other, up to the first
    [break]: the counters at the end and all effects in order.  [None]: one of
    the turns is undefined. *)
Fixpoint present_frames (cfg : PipelineConfig) (turns : list Turn) (st : Counters)
  : option (Counters * list Effect) :=
  match turns with
  | [] => Some (st, [])
  | t :: rest =>
      match present_turn cfg (pauses t) (running t) (audioClock t) (elapsed t)
                         (popped t) st with
      | None => None
      | Some out =>
          match ending out with
          | Break => Some (counters out, effects out)
          | NextTurn =>
              match present_frames cfg rest (counters out) with
              | None => None
              | Some rest_out => Some (fst rest_out, effects out ++ snd rest_out)
              end
          end
      end
  end.

(** The turns that come before the first one that finds [running_] cleared. *)
Fixpoint before_break (turns : list Turn) : list Turn :=
  match turns with
  | [] => []
  | t :: rest => if running t then t :: before_break rest else []
  end.

(** The frames handed to the terminal or to the exporter, in order. *)
Definition shown (effects : list Effect) : list AsciiFrame :=
  flat_map (fun e => match e with
                     | Present frame => [frame]
                     | WriteFrame frame => [frame]
                     | _ => []
                     end) effects.

(** Two turns in live mode with audio: the second frame is late. *)
Definition two_turns : list Turn :=
  [mkTurn 0 true (3 # 2) 0 frame_1_5625; mkTurn 0 true 2 0 frame_1_5625].

(** Three popped frames; the third turn finds [running_] cleared after one
    sleep of the pause loop. *)
Definition turns_then_quit : list Turn :=
  [mkTurn 0 true (3 # 2) 0 frame_1_5625; mkTurn 0 true 2 0 frame_1_5625;
   mkTurn 1 false 2 0 frame_1_5625].

End Presenter.

(* ===================================================================== *)
(** ** pipeline.cpp: how the worker threads end *)
(* ===================================================================== *)

Module Workers.

(** Where a worker thread is: at the top of its [while (running_)] loop, inside
    the [wait] of its condition variable, or past the loop. *)
Inductive Place := AtLoop | AtWait | Ended.

(** Where [controlThread] is: in its loop; after 'q', inside [decoder_.stop()],
    at the join of the decoder's thread; or past the loop. *)
Inductive ControlPlace := Reading | Stopping | ControlEnded.

(** Where [Pipeline::run] is: at the joins of the four workers, at the join of
    the control thread, or past it. *)
Inductive RunPlace := JoinsWorkers | JoinsControl | Returned.

Section Frames.
Variables VideoFrame AsciiFrame : Type.
Variable render : VideoFrame -> AsciiFrame.

(** Where [renderThread] is: it also holds the frame it has popped while it
    sleeps in [while (paused_ && running_)]. *)
Inductive RenderPlace := RenderAt (p : Place) | Holding (frame : AsciiFrame).

(** [running_], [paused_], [videoQueue_], [asciiQueue_]: the members of
    [Pipeline]; the places of the five threads; [presented]: the frames
    [renderThread] has shown or written; [runThread]: how far [Pipeline::run]
    has come. *)
Record State := mkState {
  running_ : bool;
  paused_ : bool;
  videoQueue_ : list VideoFrame;
  asciiQueue_ : list AsciiFrame;
  decodeWorker_ : Place;
  asciiWorker_ : Place;
  renderWorker_ : RenderPlace;
  audioWorker_ : Place;
  controlWorker_ : ControlPlace;
  presented : list AsciiFrame;
  runThread : RunPlace
}.

(** After [Pipeline::run] has started the five threads. *)
Definition started : State :=
  mkState true false [] [] AtLoop AtLoop (RenderAt AtLoop) AtLoop Reading [] JoinsWorkers.

(** One step of one thread.  What the decoder hands to [decodeThread] and to
    [audioThread] is an input: [DecodeFrame f] is a turn in which
    [popVideoFrame] returned [f], [DecodeEnd] one in which it returned false or
    the loop test failed; likewise for audio.  [Key k] is a turn of
    [controlThread] that read the key [k].  [StopReturns] is the return of
    [decoder_.stop()], which joins the decoder's own thread: that thread is
    outside this state, so the schedule decides whether the join ever returns
    (in the code it returns once [decodeLoop] has ended, and [decodeLoop] can
    be waiting in [pushVideoFrame], which [stop] wakes only after the join).
    [RunJoins] and [RunReturns] are the two stages of the joins of
    [Pipeline::run]. *)
Inductive Event :=
| DecodeFrame (f : VideoFrame)
| DecodeEnd
| AudioFrameTurn
| AudioEnd
| AsciiStep
| RenderStep
| Key (k : ascii)
| StopReturns
| RunJoins
| RunReturns.

Definition set_running (b : bool) (s : State) : State :=
  mkState b (paused_ s) (videoQueue_ s) (asciiQueue_ s) (decodeWorker_ s)
          (asciiWorker_ s) (renderWorker_ s) (audioWorker_ s) (controlWorker_ s)
          (presented s) (runThread s).

Definition set_render (p : RenderPlace) (s : State) : State :=
  mkState (running_ s) (paused_ s) (videoQueue_ s) (asciiQueue_ s) (decodeWorker_ s)
          (asciiWorker_ s) p (audioWorker_ s) (controlWorker_ s)
          (presented s) (runThread s).

Definition set_ascii (p : Place) (s : State) : State :=
  mkState (running_ s) (paused_ s) (videoQueue_ s) (asciiQueue_ s) (decodeWorker_ s)
          p (renderWorker_ s) (audioWorker_ s) (controlWorker_ s)
          (presented s) (runThread s).

Definition set_control (p : ControlPlace) (s : State) : State :=
  mkState (running_ s) (paused_ s) (videoQueue_ s) (asciiQueue_ s) (decodeWorker_ s)
          (asciiWorker_ s) (renderWorker_ s) (audioWorker_ s) p
          (presented s) (runThread s).

(** [None]: the thread cannot take this step in this state (it is blocked, or
    it has ended). *)
Definition step (e : Event) (s : State) : option State :=
  match e with
  | DecodeFrame f =>
      (* while (running_) { popVideoFrame(frame); videoQueue_.push(frame); } *)
      match decodeWorker_ s with
      | Ended => None
      | _ =>
          if running_ s
          then Some (mkState (running_ s) (paused_ s) (videoQueue_ s ++ [f]) (asciiQueue_ s)
                             AtLoop (asciiWorker_ s) (renderWorker_ s) (audioWorker_ s)
                             (controlWorker_ s) (presented s) (runThread s))
          else None
      end
  | DecodeEnd =>
      match decodeWorker_ s with
      | Ended => None
      | _ => Some (mkState (running_ s) (paused_ s) (videoQueue_ s) (asciiQueue_ s)
                           Ended (asciiWorker_ s) (renderWorker_ s) (audioWorker_ s)
                           (controlWorker_ s) (presented s) (runThread s))
      end
  | AudioFrameTurn =>
      (* while (running_) { popAudioFrame(frame); audio_.enqueue(frame); } *)
      match audioWorker_ s with
      | Ended => None
      | _ => if running_ s then Some s else None
      end
  | AudioEnd =>
      match audioWorker_ s with
      | Ended => None
      | _ => Some (mkState (running_ s) (paused_ s) (videoQueue_ s) (asciiQueue_ s)
                           (decodeWorker_ s) (asciiWorker_ s) (renderWorker_ s) Ended
                           (controlWorker_ s) (presented s) (runThread s))
      end
  | AsciiStep =>
      match asciiWorker_ s with
      | AtLoop =>
          (* while (running_) *)
          Some (set_ascii (if running_ s then AtWait else Ended) s)
      | AtWait =>
          (* wait(!videoQueue_.empty() || !running_);
             if (!running_ && videoQueue_.empty()) break; pop; render; push *)
          match videoQueue_ s with
          | f :: rest =>
              Some (mkState (running_ s) (paused_ s) rest (asciiQueue_ s ++ [render f])
                            (decodeWorker_ s) AtLoop (renderWorker_ s) (audioWorker_ s)
                            (controlWorker_ s) (presented s) (runThread s))
          | [] => if running_ s then None else Some (set_ascii Ended s)
          end
      | Ended => None
      end
  | RenderStep =>
      match renderWorker_ s with
      | RenderAt AtLoop =>
          Some (set_render (RenderAt (if running_ s then AtWait else Ended)) s)
      | RenderAt AtWait =>
          match asciiQueue_ s with
          | f :: rest =>
              Some (mkState (running_ s) (paused_ s) (videoQueue_ s) rest
                            (decodeWorker_ s) (asciiWorker_ s) (Holding f) (audioWorker_ s)
                            (controlWorker_ s) (presented s) (runThread s))
          | [] => if running_ s then None else Some (set_render (RenderAt Ended) s)
          end
      | Holding f =>
          (* while (paused_ && running_) sleep; if (!running_) break; show *)
          if paused_ s && running_ s then None
          else if negb (running_ s) then Some (set_render (RenderAt Ended) s)
          else Some (mkState (running_ s) (paused_ s) (videoQueue_ s) (asciiQueue_ s)
                             (decodeWorker_ s) (asciiWorker_ s) (RenderAt AtLoop)
                             (audioWorker_ s) (controlWorker_ s) (presented s ++ [f])
                             (runThread s))
      | RenderAt Ended => None
      end
  | Key k =>
      match controlWorker_ s with
      | Reading =>
          if negb (running_ s)
          then Some (set_control ControlEnded s)
          else if (k =? " ")%char
          then Some (mkState (running_ s) (negb (paused_ s)) (videoQueue_ s) (asciiQueue_ s)
                             (decodeWorker_ s) (asciiWorker_ s) (renderWorker_ s)
                             (audioWorker_ s) (controlWorker_ s) (presented s) (runThread s))
          else if (k =? "q")%char || (k =? "Q")%char
          then
            (* running_.store(false); decoder_.stop(); ... *)
            Some (mkState false (paused_ s) (videoQueue_ s) (asciiQueue_ s)
                          (decodeWorker_ s) (asciiWorker_ s) (renderWorker_ s)
                          (audioWorker_ s) Stopping (presented s) (runThread s))
          else Some s
      | _ => None
      end
  | StopReturns =>
      (* ... decoder_.stop() returns; videoCv_.notify_all();
         asciiCv_.notify_all(); break; *)
      match controlWorker_ s with
      | Stopping => Some (set_control ControlEnded s)
      | _ => None
      end
  | RunJoins =>
      (* the joins of the four workers in Pipeline::run, then
         running_.store(false) *)
      match decodeWorker_ s, asciiWorker_ s, renderWorker_ s, audioWorker_ s,
            runThread s with
      | Ended, Ended, RenderAt Ended, Ended, JoinsWorkers =>
          Some (mkState false (paused_ s) (videoQueue_ s) (asciiQueue_ s)
                        (decodeWorker_ s) (asciiWorker_ s) (renderWorker_ s)
                        (audioWorker_ s) (controlWorker_ s) (presented s) JoinsControl)
      | _, _, _, _, _ => None
      end
  | RunReturns =>
      (* if (controlWorker_.joinable()) controlWorker_.join(); *)
      match runThread s, controlWorker_ s with
      | JoinsControl, ControlEnded =>
          Some (mkState (running_ s) (paused_ s) (videoQueue_ s) (asciiQueue_ s)
                        (decodeWorker_ s) (asciiWorker_ s) (renderWorker_ s)
                        (audioWorker_ s) (controlWorker_ s) (presented s) Returned)
      | _, _ => None
      end
  end.

Fixpoint run (es : list Event) (s : State) : option State :=
  match es with
  | [] => Some s
  | e :: rest =>
      match step e s with
      | Some s' => run rest s'
      | None => None
      end
  end.

(** The schedule holds no turn of [controlThread] that reads 'q' or 'Q'. *)
Definition is_quit (e : Event) : bool :=
  match e with
  | Key k => (k =? "q")%char || (k =? "Q")%char
  | _ => false
  end.

Definition no_quit (es : list Event) : Prop := forallb (fun e => negb (is_quit e)) es = true.

(** While nobody has pressed 'q': [running_] is set, the control thread reads
    keys, neither the ASCII worker nor the render worker is past its loop, and
    [run] is at the joins of the workers. *)
Definition nobody_quit (s : State) : Prop :=
  running_ s = true /\ controlWorker_ s = Reading
  /\ asciiWorker_ s <> Ended /\ renderWorker_ s <> RenderAt Ended
  /\ runThread s = JoinsWorkers.
End Frames.

Arguments started {VideoFrame AsciiFrame}.
Arguments DecodeFrame {VideoFrame}.
Arguments DecodeEnd {VideoFrame}.
Arguments AudioFrameTurn {VideoFrame}.
Arguments AudioEnd {VideoFrame}.
Arguments AsciiStep {VideoFrame}.
Arguments RenderStep {VideoFrame}.
Arguments Key {VideoFrame}.
Arguments StopReturns {VideoFrame}.
Arguments RunJoins {VideoFrame}.
Arguments RunReturns {VideoFrame}.
Arguments RenderAt {AsciiFrame}.
Arguments Holding {AsciiFrame}.
Arguments no_quit {VideoFrame}.
Arguments nobody_quit {VideoFrame AsciiFrame}.
Arguments is_quit {VideoFrame}.

(** One frame is decoded, rendered and shown; the input ends; nobody presses
    'q'. *)
Definition play_one : list (Event nat) :=
  [DecodeFrame 7%nat; DecodeEnd; AudioEnd; AsciiStep; AsciiStep; RenderStep; RenderStep;
   RenderStep; AsciiStep; RenderStep].

End Workers.

(* ===================================================================== *)
(** ** terminal_sink.cpp (the branch for systems other than Windows) *)
(* ===================================================================== *)

Module Terminal.
Import Renderer.

(** The fields of [termios] that the sink changes: [c_lflag], [c_cc[VMIN]],
    [c_cc[VTIME]]. *)
Record Termios := mkTermios { c_lflag : Z; vmin : Z; vtime : Z }.

(** Standard input and output as the sink meets them.  [is_tty]: [tcgetattr]
    and [tcsetattr] on standard input succeed; [attrs]: the attributes of the
    terminal; [status_flags]: what [fcntl(F_GETFL)] returns; [out]: the bytes
    written to standard output. *)
Record World := mkWorld {
  is_tty : bool;
  attrs : Termios;
  status_flags : Z;
  out : string
}.

Record TerminalSink := mkSink {
  initialized_ : bool;
  rawEnabled_ : bool;
  origTermios_ : Termios;
  stdinFlags_ : Z
}.

(** The member initialisers. *)
Definition fresh : TerminalSink := mkSink false false (mkTermios 0 0 0) (-1).

(** The line [initialize] prints, 25 bytes of UTF-8. *)
Definition notice : string :=
  string_of_list_ascii
    (map ascii_of_nat
       [232; 175; 183; 229; 133; 168; 229; 177; 143; 231; 187; 136; 231; 171; 175; 47;
        230; 156; 128; 229; 164; 167; 229; 140; 150]%nat).

Definition LF : string := String (ascii_of_nat 10) EmptyString.

(** [std::cout << bytes] *)
Definition write (bytes : string) (w : World) : World :=
  mkWorld (is_tty w) (attrs w) (status_flags w) (out w ++ bytes).

Definition hideCursor (w : World) : World := write (ESC ++ "[?25l") w.
Definition showCursor (w : World) : World := write (ESC ++ "[?25h") w.

Section Platform.
(** The constants of <termios.h> and <fcntl.h>. *)
Variables ICANON ECHO O_NONBLOCK : Z.

Definition enableRawMode (s : TerminalSink) (w : World) : TerminalSink * World :=
  if rawEnabled_ s then (s, w)
  else if is_tty w then
    let origTermios := attrs w in
    let raw := mkTermios (Z.land (c_lflag origTermios) (Z.lnot (Z.lor ICANON ECHO))) 0 0 in
    let stdinFlags := status_flags w in
    (mkSink (initialized_ s) true origTermios stdinFlags,
     mkWorld (is_tty w) raw (Z.lor stdinFlags O_NONBLOCK) (out w))
  else (mkSink (initialized_ s) true (origTermios_ s) (stdinFlags_ s), w).

Definition disableRawMode (s : TerminalSink) (w : World) : TerminalSink * World :=
  if negb (rawEnabled_ s) then (s, w)
  else
    let w1 := if is_tty w
              then mkWorld (is_tty w) (origTermios_ s) (status_flags w) (out w)
              else w in
    let w2 := if stdinFlags_ s =? -1 then w1
              else mkWorld (is_tty w1) (attrs w1) (stdinFlags_ s) (out w1) in
    (mkSink (initialized_ s) false (origTermios_ s) (stdinFlags_ s), w2).

Definition initialize (s : TerminalSink) (w : World) : TerminalSink * World :=
  if initialized_ s then (s, w)
  else
    let w := hideCursor w in
    let sw := enableRawMode s w in
    let w := write (notice ++ LF) (snd sw) in
    (mkSink true (rawEnabled_ (fst sw)) (origTermios_ (fst sw)) (stdinFlags_ (fst sw)), w).

Definition teardown (s : TerminalSink) (w : World) : TerminalSink * World :=
  if negb (initialized_ s) then (s, w)
  else
    let sw := disableRawMode s w in
    let w := showCursor (snd sw) in
    let w := write (ESC ++ "[0m") w in
    (mkSink false (rawEnabled_ (fst sw)) (origTermios_ (fst sw)) (stdinFlags_ (fst sw)), w).
End Platform.

Definition present (frame : AsciiFrame) (s : TerminalSink) (w : World) : World :=
  if negb (initialized_ s) then w else write (terminalString frame) w.

Definition printStats (statsLine : string) (s : TerminalSink) (w : World) : World :=
  if negb (initialized_ s) then w
  else write (ESC ++ "[s" ++ ESC ++ "[H" ++ statsLine ++ ESC ++ "[u") w.

(** What the presenter asks of the sink between [initialize] and [teardown]. *)
Inductive Call := Present (frame : AsciiFrame) | PrintStats (statsLine : string).

Definition call (c : Call) (s : TerminalSink) (w : World) : World :=
  match c with
  | Present frame => present frame s w
  | PrintStats statsLine => printStats statsLine s w
  end.

Definition calls (cs : list Call) (s : TerminalSink) (w : World) : World :=
  fold_left (fun w c => call c s w) cs w.

(** A whole session: [initialize], the calls, [teardown]. *)
Definition session (ICANON ECHO O_NONBLOCK : Z) (cs : list Call) (w : World)
  : TerminalSink * World :=
  let sw := initialize ICANON ECHO O_NONBLOCK fresh w in
  teardown (fst sw) (calls cs (fst sw) (snd sw)).

(** A terminal in canonical mode with echo (Linux: ICANON = 2, ECHO = 8,
    O_NONBLOCK = 2048), blocking reads, nothing written yet. *)
Definition cooked : World := mkWorld true (mkTermios 35387 1 0) 2 "".

End Terminal.

(* ===================================================================== *)
(** * Properties *)
(* ===================================================================== *)

(** ** Loops *)

Section Loops.
Context {S : Type}.
Implicit Types (body : Z -> S -> S) (P : Z -> S -> Prop).

Lemma fold_seqZ_ind P body (k : nat) : forall m s,
  P m s ->
  (forall i s', m <= i < m + Z.of_nat k -> P i s' -> P (i + 1) (body i s')) ->
  P (m + Z.of_nat k) (fold_left (fun acc i => body i acc) (seqZ m (Z.of_nat k)) s).
Proof.
  induction k as [|k IH]; intros m s H0 Hstep.
  - rewrite seqZ_nil by lia. simpl. now rewrite Z.add_0_r.
  - rewrite seqZ_cons by lia. simpl.
    replace (Z.pred (Z.of_nat (Datatypes.S k))) with (Z.of_nat k) by lia.
    replace (m + Z.of_nat (Datatypes.S k)) with (Z.succ m + Z.of_nat k) by lia.
    apply IH.
    + replace (Z.succ m) with (m + 1) by lia. apply Hstep; [lia | exact H0].
    + intros i s' Hi. apply Hstep. lia.
Qed.

(** The invariant rule of a counted loop. *)
Lemma for_loop_ind P n body s :
  0 <= n ->
  P 0 s ->
  (forall i s', 0 <= i < n -> P i s' -> P (i + 1) (body i s')) ->
  P n (for_loop n body s).
Proof.
  intros Hn H0 Hstep. unfold for_loop.
  pose proof (fold_seqZ_ind P body (Z.to_nat n) 0 s H0) as H.
  rewrite Z2Nat.id, Z.add_0_l in H by lia.
  apply H. intros i s' Hi. apply Hstep. lia.
Qed.

Lemma for_loop_nonpos n body s : n <= 0 -> for_loop n body s = s.
Proof. intros Hn. unfold for_loop. now rewrite seqZ_nil. Qed.

(** A property of the state alone that every turn keeps. *)
Lemma for_loop_preserves (I : S -> Prop) n body s :
  I s -> (forall i s', 0 <= i < n -> I s' -> I (body i s')) -> I (for_loop n body s).
Proof.
  intros H0 Hstep. destruct (Z.le_gt_cases 0 n) as [Hn|Hn].
  - apply (for_loop_ind (fun _ => I)); auto.
  - rewrite for_loop_nonpos by lia. exact H0.
Qed.
End Loops.

Lemma nth_map_seqZ {A} (f : Z -> A) (n i : Z) (d : A) :
  0 <= i < n -> nth (Z.to_nat i) (map f (seqZ 0 n)) d = f i.
Proof.
  intros Hi. apply nth_lookup_Some with (d := d).
  rewrite list_lookup_fmap, lookup_seqZ_lt by lia.
  rewrite Z.add_0_l, Z2Nat.id by lia. reflexivity.
Qed.

Lemma forallb_seqZ (f : Z -> bool) (n i : Z) :
  forallb f (seqZ 0 n) = true -> 0 <= i < n -> f i = true.
Proof.
  intros H Hi. rewrite forallb_forall in H. apply H.
  apply list_elem_of_In, elem_of_seqZ. lia.
Qed.

(** ** color_lut.hpp: the palette and its nearest-index lookup *)

Module ColorLutFacts.
Import ColorLut.

Lemma rgb_eqb_eq p q : rgb_eqb p q = true <-> p = q.
Proof.
  destruct p, q. unfold rgb_eqb. simpl.
  rewrite !andb_true_iff, !Z.eqb_eq. split.
  - intros [[-> ->] ->]. reflexivity.
  - intros H. injection H. auto.
Qed.

Lemma index_table_spec : map index_of_entry (seqZ 0 256) = index_table.
Proof. vm_compute. reflexivity. Qed.

Lemma index_of_entry_table i :
  0 <= i < 256 -> index_of_entry i = nth (Z.to_nat i) index_table 0.
Proof.
  intros Hi. rewrite <- index_table_spec. symmetry. apply nth_map_seqZ. exact Hi.
Qed.

Lemma entry_check_all : forallb entry_check (seqZ 0 256) = true.
Proof. vm_compute. reflexivity. Qed.

Lemma palette_length : length xterm_palette = 256%nat.
Proof. reflexivity. Qed.

(** C4, as stated, fails: entry 16 is the black of the cube, and black is
    already entry 0, which the strict comparison [dist < bestDist] keeps. *)
Lemma xterm_index_not_identity :
  ~ (forall i, 0 <= i < 256 ->
       xterm_index_from_rgb (r (palette_at i)) (g (palette_at i)) (b (palette_at i)) = i).
Proof.
  intros H. specialize (H 16 ltac:(lia)).
  assert (E : index_of_entry 16 = 0) by (vm_compute; reflexivity).
  unfold index_of_entry in E. rewrite E in H. discriminate H.
Qed.

(** C4 (amended): for every palette index [i] in [0, 255], the lookup of the
    color of entry [i] returns the smallest index that holds the same color.
    That index is [i] itself unless [i] is one of 16, 46, 51, 196, 201, 226,
    231, the cube entries that repeat a base color. *)
Theorem xterm_index_first_of_color (i : Z) :
  0 <= i < 256 ->
  palette_at (index_of_entry i) = palette_at i
  /\ (forall j, 0 <= j < 256 -> palette_at j = palette_at i -> index_of_entry i <= j)
  /\ (~ In i repeated_entries -> index_of_entry i = i).
Proof.
  intros Hi.
  pose proof (forallb_seqZ _ _ _ entry_check_all Hi) as H.
  unfold entry_check in H. rewrite !andb_true_iff in H. destruct H as [[H1 H2] H3].
  rewrite (index_of_entry_table i Hi). fold (table_at i).
  split; [now apply rgb_eqb_eq | split].
  - intros j Hj Heq. pose proof (forallb_seqZ _ _ _ H2 Hj) as H. cbv beta in H.
    apply orb_true_iff in H. destruct H as [H|H].
    + apply negb_true_iff in H. apply rgb_eqb_eq in Heq.
      rewrite Heq in H. discriminate H.
    + apply Z.leb_le. exact H.
  - intros Hnot. apply orb_true_iff in H3. destruct H3 as [H|H].
    + exfalso. apply Hnot. apply existsb_exists in H. destruct H as [x [Hx Hix]].
      apply Z.eqb_eq in Hix. rewrite Hix. exact Hx.
    + apply Z.eqb_eq. exact H.
Qed.

Lemma xterm_index_first_of_color_witness :
  palette_at (index_of_entry 160) = palette_at 160
  /\ (forall j, 0 <= j < 256 -> palette_at j = palette_at 160 -> index_of_entry 160 <= j)
  /\ (~ In 160 repeated_entries -> index_of_entry 160 = 160).
Proof. apply (xterm_index_first_of_color 160). lia. Defined.

End ColorLutFacts.

(** ** Floats as rationals: comparison, clamping, truncation *)

Lemma Qltb_lt x y : Qltb x y = true <-> (x < y)%Q.
Proof.
  unfold Qltb. rewrite negb_true_iff. split.
  - intros H. apply Qnot_le_lt. intros Hle. apply Qle_bool_iff in Hle. congruence.
  - intros H. destruct (Qle_bool y x) eqn:E; [| reflexivity].
    apply Qle_bool_iff in E. exfalso. exact (Qlt_not_le _ _ H E).
Qed.

Lemma Qltb_ge x y : Qltb x y = false <-> (y <= x)%Q.
Proof.
  unfold Qltb. rewrite negb_false_iff. apply Qle_bool_iff.
Qed.

Lemma clampQ_bounds v lo hi : (lo <= hi)%Q -> (lo <= clampQ v lo hi /\ clampQ v lo hi <= hi)%Q.
Proof.
  intros Hlh. unfold clampQ.
  destruct (Qltb v lo) eqn:E1.
  - split; [apply Qle_refl | exact Hlh].
  - destruct (Qltb hi v) eqn:E2.
    + split; [exact Hlh | apply Qle_refl].
    + apply Qltb_ge in E1. apply Qltb_ge in E2. split; assumption.
Qed.

Lemma clampQ_below v lo hi : (v <= lo)%Q -> (lo <= hi)%Q -> (clampQ v lo hi == lo)%Q.
Proof.
  intros Hv Hlh. unfold clampQ. destruct (Qltb v lo) eqn:E1; [reflexivity |].
  apply Qltb_ge in E1. destruct (Qltb hi v) eqn:E2.
  - apply Qltb_lt in E2. exfalso. apply (Qlt_not_le _ _ E2).
    apply Qle_trans with lo; assumption.
  - apply Qle_antisym; assumption.
Qed.

Lemma Qtrunc_nonneg_floor q : (0 <= q)%Q -> Qtrunc q = Qfloor q.
Proof.
  destruct q as [n d]. unfold Qle, Qtrunc, Qfloor. simpl. intros H.
  apply Z.quot_div_nonneg; lia.
Qed.

(** ** The renderer configuration: bounds of gamma and contrast *)

Module ControlFacts.
Import ColorLut Renderer Control.

Lemma cycleMode_keeps c :
  gamma (cycleMode c) = gamma c /\ contrast (cycleMode c) = contrast c.
Proof. unfold cycleMode. destruct (mode c); split; reflexivity. Qed.

Lemma cycleDither_keeps c :
  gamma (cycleDither c) = gamma c /\ contrast (cycleDither c) = contrast c.
Proof. unfold cycleDither. destruct (dither c); split; reflexivity. Qed.

(** Only 'g' and 'G' change gamma, only 'b' and 'B' change contrast. *)
Lemma handle_key_keeps_gamma key c :
  is_gamma_key key = false -> gamma (handle_key key c) = gamma c.
Proof.
  unfold is_gamma_key. intros Hkey. apply orb_false_iff in Hkey. destruct Hkey as [Hg HG].
  unfold handle_key. rewrite Hg, HG.
  repeat match goal with
         | |- context [if ?t then _ else _] => destruct t
         end;
    try reflexivity.
  - apply cycleMode_keeps.
  - apply cycleDither_keeps.
Qed.

Lemma handle_key_keeps_contrast key c :
  is_contrast_key key = false -> contrast (handle_key key c) = contrast c.
Proof.
  unfold is_contrast_key. intros Hkey. apply orb_false_iff in Hkey.
  destruct Hkey as [Hb HB].
  unfold handle_key. rewrite Hb, HB.
  repeat match goal with
         | |- context [if ?t then _ else _] => destruct t
         end;
    try reflexivity.
  - apply cycleMode_keeps.
  - apply cycleDither_keeps.
Qed.

Lemma handle_keys_keep_gamma keys c :
  forallb (fun k => negb (is_gamma_key k)) keys = true ->
  gamma (handle_keys keys c) = gamma c.
Proof.
  unfold handle_keys. revert c. induction keys as [|k keys IH]; intros c Hkeys; simpl in *.
  - reflexivity.
  - apply andb_true_iff in Hkeys. destruct Hkeys as [Hk Hkeys].
    apply negb_true_iff in Hk.
    rewrite (IH _ Hkeys). apply handle_key_keeps_gamma. exact Hk.
Qed.

Lemma handle_keys_keep_contrast keys c :
  forallb (fun k => negb (is_contrast_key k)) keys = true ->
  contrast (handle_keys keys c) = contrast c.
Proof.
  unfold handle_keys. revert c. induction keys as [|k keys IH]; intros c Hkeys; simpl in *.
  - reflexivity.
  - apply andb_true_iff in Hkeys. destruct Hkeys as [Hk Hkeys].
    apply negb_true_iff in Hk.
    rewrite (IH _ Hkeys). apply handle_key_keeps_contrast. exact Hk.
Qed.

Lemma handle_keys_reachable keys c : reachable c -> reachable (handle_keys keys c).
Proof.
  unfold handle_keys. revert c. induction keys as [|k keys IH]; intros c R; simpl.
  - exact R.
  - apply IH. apply reach_key. exact R.
Qed.

(** C9 fails on the code.  [parseArgs] stores the value of [--gamma] as
    [std::stof] returns it, [main] copies it into the renderer's configuration
    and [configure] assigns it: none of them clamps.  With [--gamma 10] the
    renderer starts with gamma = 10, outside [0.5, 4.0], and keeps it under every
    run of keys without 'g' and 'G'; the key 'g' goes through [adjustGamma],
    which clamps, and gives 4.  Likewise [--contrast 5] starts the renderer with
    contrast = 5, outside [0.2, 3.0], kept under every run of keys without 'b'
    and 'B'; the key 'b' gives 3. *)
Theorem command_line_values_are_not_clamped :
  (parseArgs [ArgGamma 10] = Some gamma_10
   /\ reachable (initialize gamma_10)
   /\ gamma (initialize gamma_10) = 10%Q
   /\ ~ gamma_in_bounds (initialize gamma_10)
   /\ (forall keys, forallb (fun k => negb (is_gamma_key k)) keys = true ->
         reachable (handle_keys keys (initialize gamma_10))
         /\ gamma (handle_keys keys (initialize gamma_10)) = 10%Q
         /\ ~ in_bounds (handle_keys keys (initialize gamma_10)))
   /\ gamma (handle_key "g" (initialize gamma_10)) = 4%Q)
  /\ (parseArgs [ArgContrast 5] = Some contrast_5
      /\ reachable (initialize contrast_5)
      /\ contrast (initialize contrast_5) = 5%Q
      /\ ~ contrast_in_bounds (initialize contrast_5)
      /\ (forall keys, forallb (fun k => negb (is_contrast_key k)) keys = true ->
            reachable (handle_keys keys (initialize contrast_5))
            /\ contrast (handle_keys keys (initialize contrast_5)) = 5%Q
            /\ ~ in_bounds (handle_keys keys (initialize contrast_5)))
      /\ contrast (handle_key "b" (initialize contrast_5)) = 3%Q).
Proof.
  assert (Rg : reachable (initialize gamma_10))
    by (apply (reach_start _ [ArgGamma 10]); [reflexivity | exact I]).
  assert (Rc : reachable (initialize contrast_5))
    by (apply (reach_start _ [ArgContrast 5]); [reflexivity | exact I]).
  split.
  - split; [reflexivity |]. split; [exact Rg |]. split; [reflexivity |].
    split; [intros [_ H]; revert H; compute; congruence |].
    split; [| reflexivity].
    intros keys Hkeys. split; [apply handle_keys_reachable; exact Rg |].
    pose proof (handle_keys_keep_gamma keys (initialize gamma_10) Hkeys) as E.
    split; [exact E |].
    intros [[_ H] _]. rewrite E in H. revert H. compute. congruence.
  - split; [reflexivity |]. split; [exact Rc |]. split; [reflexivity |].
    split; [intros [_ H]; revert H; compute; congruence |].
    split; [| reflexivity].
    intros keys Hkeys. split; [apply handle_keys_reachable; exact Rc |].
    pose proof (handle_keys_keep_contrast keys (initialize contrast_5) Hkeys) as E.
    split; [exact E |].
    intros [_ [_ H]]. rewrite E in H. revert H. compute. congruence.
Qed.

End ControlFacts.

(** ** Writes through an index inside a counted loop *)

Section IndexedWrites.
Context {A : Type}.

(** A loop that stores [val i] at index [i] for [i < n] keeps the length and
    leaves every index from [n] on as it was. *)
Lemma for_loop_store_prefix (val : Z -> list A -> A) (n : Z) (l : list A) :
  let l' := for_loop n (fun i l => <[ Z.to_nat i := val i l ]> l) l in
  length l' = length l
  /\ forall j : nat, n <= Z.of_nat j -> l' !! j = l !! j.
Proof.
  cbv zeta. destruct (Z.le_gt_cases 0 n) as [Hn|Hn].
  - apply (for_loop_ind
             (fun i (l' : list A) =>
                length l' = length l
                /\ forall j : nat, i <= Z.of_nat j -> l' !! j = l !! j)).
    + exact Hn.
    + split; [reflexivity | intros; reflexivity].
    + intros i l' Hi [Hlen Hrest]. split.
      * rewrite length_insert. exact Hlen.
      * intros j Hj. rewrite list_lookup_insert_ne by lia. apply Hrest. lia.
  - rewrite for_loop_nonpos by lia. split; [reflexivity | intros; reflexivity].
Qed.
End IndexedWrites.

(** ** audio_player.cpp: the playback clock *)

Module AudioFacts.
Import Audio.

Lemma onData_player frameCount p :
  0 <= frameCount -> 0 < channels p ->
  samplesPlayed_ (snd (onData frameCount p))
  = (samplesPlayed_ p + Z.quot (samples_taken frameCount p) (channels p)) mod two_64
  \/ (queue_ p = [] /\ snd (onData frameCount p) = p).
Proof.
  intros Hn Hc. unfold onData. destruct (queue_ p) eqn:E.
  - right. split; reflexivity.
  - left. simpl snd. unfold samples_taken. rewrite E. reflexivity.
Qed.

Lemma onData_samplesPlayed frameCount p :
  0 <= frameCount -> 0 < channels p ->
  0 <= samplesPlayed_ p -> samplesPlayed_ p + frameCount < two_64 ->
  samplesPlayed_ (snd (onData frameCount p))
  = samplesPlayed_ p + Z.quot (samples_taken frameCount p) (channels p).
Proof.
  intros Hn Hc H0 Hmax.
  assert (Hq : 0 <= Z.quot (samples_taken frameCount p) (channels p) <= frameCount).
  { unfold samples_taken. rewrite Z.quot_div_nonneg by lia. split.
    - apply Z.div_pos; lia.
    - apply Z.div_le_upper_bound; [lia |].
      rewrite Z.mul_comm. apply Z.le_min_r. }
  destruct (onData_player frameCount p Hn Hc) as [E | [Eq E]].
  - rewrite E. apply Z.mod_small. unfold two_64 in *. lia.
  - rewrite E. unfold samples_taken. rewrite Eq. simpl length.
    rewrite Z.min_l by lia. rewrite Z.quot_0_l by lia. lia.
Qed.

Lemma onData_other_fields frameCount p :
  enabled (snd (onData frameCount p)) = enabled p
  /\ sampleRate (snd (onData frameCount p)) = sampleRate p.
Proof. unfold onData. destruct (queue_ p); split; reflexivity. Qed.

Lemma onData_output frameCount p :
  0 <= frameCount -> 0 < channels p ->
  length (fst (onData frameCount p)) = Z.to_nat (frameCount * channels p)
  /\ forall j : nat,
       samples_taken frameCount p <= Z.of_nat j < frameCount * channels p ->
       fst (onData frameCount p) !! j = Some 0%Q.
Proof.
  intros Hn Hc. unfold onData. destruct (queue_ p) eqn:E.
  - simpl fst. split; [apply length_replicate |].
    intros j Hj. apply lookup_replicate_2. lia.
  - cbn [fst]. unfold samples_taken. rewrite E.
    match goal with
    | |- context [for_loop ?n (fun i output => <[ Z.to_nat i := @?v i output ]> output) ?l] =>
        destruct (for_loop_store_prefix v n l) as [Hlen Hrest]
    end.
    split.
    + rewrite Hlen. apply length_replicate.
    + intros j Hj. rewrite Hrest by lia.
      apply lookup_replicate_2. lia.
Qed.

(** C8, as stated, fails: a callback for 480 frames on an empty ring fills the
    output with zeros and leaves the clock where it was. *)
Lemma clock_stands_still_on_underrun :
  ~ (playbackTime (snd (onData 480 starved)) == playbackTime starved + (480 # 48000))%Q.
Proof. compute. discriminate. Qed.

(** C8 (amended): [playbackTime] is the count of frames taken from the ring
    divided by the sample rate.  A device callback requesting [n] frames
    advances it by [floor(min(queued, n * channels) / channels) / sample_rate]:
    by [n / sample_rate] when the ring holds at least [n * channels] samples,
    and by less when it underruns (not at all on an empty ring), although the
    output buffer always has [n * channels] samples, zero from the first sample
    the ring could not supply. *)
Theorem playbackTime_after_onData (n : Z) (p : AudioPlayer) :
  enabled p = true ->
  0 <= n -> 0 < channels p ->
  0 <= samplesPlayed_ p -> samplesPlayed_ p + n < two_64 ->
  (playbackTime (snd (onData n p))
   == playbackTime p
      + inject_Z (Z.quot (samples_taken n p) (channels p)) / inject_Z (sampleRate p))%Q
  /\ (n * channels p <= Z.of_nat (length (queue_ p)) ->
      (playbackTime (snd (onData n p))
       == playbackTime p + inject_Z n / inject_Z (sampleRate p))%Q)
  /\ length (fst (onData n p)) = Z.to_nat (n * channels p)
  /\ (forall j : nat,
        samples_taken n p <= Z.of_nat j < n * channels p ->
        fst (onData n p) !! j = Some 0%Q).
Proof.
  intros Hen Hn Hc H0 Hmax.
  assert (Hclock :
    (playbackTime (snd (onData n p))
     == playbackTime p
        + inject_Z (Z.quot (samples_taken n p) (channels p)) / inject_Z (sampleRate p))%Q).
  { unfold playbackTime. destruct (onData_other_fields n p) as [-> ->].
    rewrite Hen. simpl negb. cbv iota.
    rewrite (onData_samplesPlayed n p Hn Hc H0 Hmax).
    rewrite inject_Z_plus. unfold Qdiv. ring. }
  split; [exact Hclock | split; [| apply onData_output; assumption]].
  intros Hfull. rewrite Hclock.
  unfold samples_taken. rewrite Z.min_r by lia.
  rewrite Z.quot_mul by lia. reflexivity.
Qed.

Lemma playbackTime_after_onData_witness :
  (playbackTime (snd (onData 2 short_of_one))
   == playbackTime short_of_one + inject_Z 1 / inject_Z 48000)%Q.
Proof.
  apply (playbackTime_after_onData 2 short_of_one);
    [reflexivity | lia | reflexivity | simpl; lia | reflexivity].
Defined.

End AudioFacts.

(** ** pipeline.cpp: the pacing and drop policy of the presenter *)

Module PresenterFacts.
Import Renderer Presenter.

Lemma millis_trunc_bounds d :
  (0 <= d)%Q ->
  (millis (Qtrunc (d * 1000)) <= d /\ d - (1 # 1000) < millis (Qtrunc (d * 1000)))%Q.
Proof.
  intros Hd.
  assert (H0 : (0 <= d * 1000)%Q) by lra.
  rewrite (Qtrunc_nonneg_floor _ H0).
  pose proof (Qfloor_le (d * 1000)) as Hle.
  pose proof (Qlt_floor (d * 1000)) as Hlt.
  rewrite inject_Z_plus in Hlt.
  unfold millis. set (f := inject_Z (Qfloor (d * 1000))) in *.
  change (inject_Z 1) with 1%Q in Hlt.
  split.
  - apply Qle_shift_div_r; [reflexivity | exact Hle].
  - apply Qlt_shift_div_l; [reflexivity | lra].
Qed.

(** The conversion to [int] of a non-negative value is defined exactly below
    2^31. *)
Lemma cast_int_defined d :
  (0 <= d)%Q -> (d < 2147483648)%Q -> cast_int d = Some (Qtrunc d).
Proof.
  intros H0 H1. unfold cast_int. cbv zeta.
  rewrite (Qtrunc_nonneg_floor _ H0).
  assert (Hlo : 0 <= Qfloor d).
  { change 0 with (Qfloor 0). apply Qfloor_resp_le. exact H0. }
  assert (Hhi : Qfloor d < 2147483648).
  { apply Z.lt_nge. intros Hge.
    assert (Hq : (inject_Z 2147483648 <= inject_Z (Qfloor d))%Q)
      by (rewrite <- Zle_Qle; exact Hge).
    pose proof (Qfloor_le d) as Hle.
    change (inject_Z 2147483648) with 2147483648%Q in Hq. lra. }
  replace (-2147483648 <=? Qfloor d) with true by (symmetry; apply Z.leb_le; lia).
  replace (Qfloor d <=? 2147483647) with true by (symmetry; apply Z.leb_le; lia).
  reflexivity.
Qed.

Lemma cast_int_undefined d :
  (2147483648 <= d)%Q -> cast_int d = None.
Proof.
  intros H1. unfold cast_int. cbv zeta.
  assert (H0 : (0 <= d)%Q) by lra.
  rewrite (Qtrunc_nonneg_floor _ H0).
  assert (Hhi : 2147483648 <= Qfloor d).
  { change 2147483648 with (Qfloor 2147483648). apply Qfloor_resp_le. exact H1. }
  replace (Qfloor d <=? 2147483647) with false by (symmetry; apply Z.leb_gt; lia).
  rewrite andb_false_r. reflexivity.
Qed.

Lemma cast_int_range d ms : cast_int d = Some ms -> ms = Qtrunc d /\ ms <= 2147483647.
Proof.
  unfold cast_int. cbv zeta.
  destruct (-2147483648 <=? Qtrunc d); [| discriminate].
  destruct (Qtrunc d <=? 2147483647) eqn:E; [| discriminate].
  intros H. injection H as <-. apply Z.leb_le in E. split; [reflexivity | exact E].
Qed.




End PresenterFacts.

(** ** decoder.cpp, pipeline.cpp: the two video queues *)

Module QueueFacts.
Import Queues.

Section Frames.
Context {Frame : Type}.
Implicit Types (s : State Frame) (es : list (Event Frame)).

Lemma run_app es1 es2 s :
  run (es1 ++ es2) s
  = match run es1 s with Some s' => run es2 s' | None => None end.
Proof.
  revert s. induction es1 as [|e es1 IH]; intros s; simpl.
  - reflexivity.
  - destruct (step e s); [apply IH | reflexivity].
Qed.

(** The wait in [Decoder::pushVideoFrame] keeps the decoder's own queue
    within [kMaxVideoQueue]. *)
Lemma step_decoder_queue e s s' :
  step e s = Some s' ->
  Z.of_nat (length (decoderQueue s)) <= kMaxVideoQueue ->
  Z.of_nat (length (decoderQueue s')) <= kMaxVideoQueue.
Proof.
  destruct e as [f | | |]; simpl; intros Hstep Hlen; unfold kMaxVideoQueue in *.
  - destruct (Z.of_nat (length (decoderQueue s)) <? 8) eqn:E;
      destruct (running_ s); simpl in Hstep;
      try discriminate; inversion Hstep; subst; simpl; try exact Hlen.
    rewrite length_app. simpl. apply Z.ltb_lt in E. lia.
  - destruct (decoderQueue s) eqn:E; [discriminate |].
    inversion Hstep; subst. simpl in *. lia.
  - destruct (pipelineQueue s); [discriminate |].
    inversion Hstep; subst. exact Hlen.
  - inversion Hstep; subst. exact Hlen.
Qed.

Lemma decoder_queue_bounded s :
  reachable s -> Z.of_nat (length (decoderQueue s)) <= kMaxVideoQueue.
Proof.
  intros [es Hrun]. revert Hrun.
  assert (H0 : Z.of_nat (length (decoderQueue (@initial Frame))) <= kMaxVideoQueue)
    by (unfold kMaxVideoQueue; simpl; lia).
  revert H0. generalize (@initial Frame) as s0. revert s.
  induction es as [|e es IH]; intros s s0 H0 Hrun; simpl in Hrun.
  - inversion Hrun; subst. exact H0.
  - destruct (step e s0) as [s1|] eqn:E; [| discriminate].
    apply (IH s s1); [| exact Hrun].
    exact (step_decoder_queue e s0 s1 E H0).
Qed.
End Frames.

Lemma stalled_consumer_run (n : nat) :
  run (stalled_consumer n) initial = Some (mkState nat [] true false (seq 0 n)).
Proof.
  induction n as [|n IH].
  - reflexivity.
  - rewrite seq_S. simpl stalled_consumer. rewrite run_app, IH. reflexivity.
Qed.

(** C1 fails on the code.  Only [Decoder::videoQueue_] is bounded;
    [Pipeline::decodeThread] moves every frame on into [Pipeline::videoQueue_],
    whose push never waits.  With the ASCII worker stalled, after [n] decoded
    frames the state is reachable, the decoder's queue is empty and [n] frames
    are buffered in front of the ASCII worker: 9 already exceed the capacity. *)
Theorem video_frames_buffered_without_bound (n : nat) :
  exists s : State nat,
    run (stalled_consumer n) initial = Some s
    /\ reachable s
    /\ decoderQueue s = []
    /\ Z.of_nat (length (pipelineQueue s)) = Z.of_nat n
    /\ buffered s = Z.of_nat n.
Proof.
  exists (mkState nat [] true false (seq 0 n)).
  pose proof (stalled_consumer_run n) as Hrun.
  split; [exact Hrun |]. split; [exists (stalled_consumer n); exact Hrun |].
  split; [reflexivity |]. unfold buffered. simpl. rewrite length_seq. lia.
Qed.

End QueueFacts.

(** ** Loops in step, and writes into a grid *)

(** Two loops whose states start related and whose bodies keep them related
    end related. *)
Lemma for_loop_rel {S T : Type} (R : S -> T -> Prop) (n : Z)
    (body1 : Z -> S -> S) (body2 : Z -> T -> T) (s : S) (t : T) :
  R s t ->
  (forall i s' t', 0 <= i < n -> R s' t' -> R (body1 i s') (body2 i t')) ->
  R (for_loop n body1 s) (for_loop n body2 t).
Proof.
  intros H0 Hstep. unfold for_loop.
  assert (Hin : forall i, In i (seqZ 0 n) -> 0 <= i < n).
  { intros i Hi. apply list_elem_of_In, elem_of_seqZ in Hi. lia. }
  revert s t H0 Hin. generalize (seqZ 0 n) as l.
  induction l as [|i l IH]; intros s t H0 Hin; simpl.
  - exact H0.
  - apply IH.
    + apply Hstep; [apply Hin; left; reflexivity | exact H0].
    + intros j Hj. apply Hin. right. exact Hj.
Qed.

Lemma grid_index_inj (ncols y x y' x' : Z) :
  0 <= x < ncols -> 0 <= x' < ncols -> 0 <= y -> 0 <= y' ->
  y * ncols + x = y' * ncols + x' -> y = y' /\ x = x'.
Proof.
  intros Hx Hx' Hy Hy' E.
  assert (Hyy : y = y').
  { destruct (Z.lt_trichotomy y y') as [H | [H | H]]; [| exact H |].
    - assert (y * ncols + ncols <= y' * ncols) by nia. lia.
    - assert (y' * ncols + ncols <= y * ncols) by nia. lia. }
  subst y'. split; [reflexivity | lia].
Qed.

Section GridWrites.
Context {A : Type}.
Variables (ncols nrows : Z) (ix : Z -> Z -> nat) (val : Z -> Z -> A).

Hypothesis ix_inj : forall y x y' x',
  in_grid ncols nrows y x -> in_grid ncols nrows y' x' ->
  ix y x = ix y' x' -> y = y' /\ x = x'.

Lemma grid_store_row (l0 : list A) (y : Z) (l : list A) :
  0 <= ncols -> 0 <= y < nrows ->
  (forall y' x', in_grid ncols nrows y' x' -> (ix y' x' < length l0)%nat) ->
  stored_up_to ncols nrows ix val l0 y 0 l ->
  stored_up_to ncols nrows ix val l0 (y + 1) 0
    (for_loop ncols (fun x l => <[ ix y x := val y x ]> l) l).
Proof.
  intros Hc Hy Hrange Hstart.
  assert (Hinv : stored_up_to ncols nrows ix val l0 y ncols
    (for_loop ncols (fun x l => <[ ix y x := val y x ]> l) l)).
  { apply (for_loop_ind (stored_up_to ncols nrows ix val l0 y)).
    - exact Hc.
    - exact Hstart.
    - intros x l' Hx (Hl' & Hold & Hrest). split; [| split].
      + rewrite length_insert. exact Hl'.
      + intros y' x' Hin Hbefore.
        destruct (Z.eq_dec y' y) as [-> | Hney];
          [destruct (Z.eq_dec x' x) as [-> | Hnex] |].
        * apply list_lookup_insert_eq. rewrite Hl'. apply Hrange. exact Hin.
        * rewrite list_lookup_insert_ne; [apply Hold; [exact Hin | lia] |].
          intros E. apply ix_inj in E; [lia | split; lia | exact Hin].
        * rewrite list_lookup_insert_ne; [apply Hold; [exact Hin | lia] |].
          intros E. apply ix_inj in E; [lia | split; lia | exact Hin].
      + intros p Hp. rewrite list_lookup_insert_ne; [apply Hrest; exact Hp |].
        intros E. apply (Hp y x); [split; lia | symmetry; exact E]. }
  destruct Hinv as (Hl' & Hold & Hrest). split; [exact Hl' | split; [| exact Hrest]].
  intros y' x' Hin Hbefore. apply Hold; [exact Hin |]. destruct Hin as [_ Hx']. lia.
Qed.

(** After the two loops the length is unchanged, every cell of the grid holds
    the value stored for it, and every other index holds what it held. *)
Lemma grid_store_spec (l : list A) :
  0 <= ncols -> 0 <= nrows ->
  (forall y x, in_grid ncols nrows y x -> (ix y x < length l)%nat) ->
  length (grid_store ncols nrows ix val l) = length l
  /\ (forall y x, in_grid ncols nrows y x ->
        grid_store ncols nrows ix val l !! ix y x = Some (val y x))
  /\ (forall p : nat, (forall y x, in_grid ncols nrows y x -> p <> ix y x) ->
        grid_store ncols nrows ix val l !! p = l !! p).
Proof.
  intros Hc Hr Hrange.
  assert (Hinv : stored_up_to ncols nrows ix val l nrows 0
                   (grid_store ncols nrows ix val l)).
  { unfold grid_store.
    apply (for_loop_ind (fun y => stored_up_to ncols nrows ix val l y 0)).
    - exact Hr.
    - split; [reflexivity | split; [| reflexivity]].
      intros y' x' [Hy' Hx'] Hbefore. lia.
    - intros y l' Hy Hdone. apply grid_store_row; assumption. }
  destruct Hinv as (Hl & Hold & Hrest). split; [exact Hl | split; [| exact Hrest]].
  intros y x Hin. apply Hold; [exact Hin |]. destruct Hin as [Hy _]. lia.
Qed.
End GridWrites.

(** The row-major grid: [cells[y * ncols + x] = val y x]. *)
Section RowMajor.
Context {A : Type}.
Variables (ncols nrows : Z) (val : Z -> Z -> A).

Lemma row_major_inj y x y' x' :
  in_grid ncols nrows y x -> in_grid ncols nrows y' x' ->
  row_major ncols y x = row_major ncols y' x' -> y = y' /\ x = x'.
Proof.
  intros [Hy Hx] [Hy' Hx'] E. unfold row_major in E.
  apply Z2Nat.inj in E; [| nia | nia].
  apply grid_index_inj in E; [exact E | lia | lia | lia | lia].
Qed.

Lemma grid_fill_lookup (l : list A) :
  0 <= ncols -> 0 <= nrows ->
  length l = Z.to_nat (ncols * nrows) ->
  length (grid_fill ncols nrows val l) = length l
  /\ forall y x, 0 <= y < nrows -> 0 <= x < ncols ->
       grid_fill ncols nrows val l !! Z.to_nat (y * ncols + x) = Some (val y x).
Proof.
  intros Hc Hr Hlen.
  destruct (grid_store_spec ncols nrows (row_major ncols) val row_major_inj l Hc Hr)
    as (Hl & Hlook & _).
  { intros y x [Hy Hx]. rewrite Hlen. unfold row_major. nia. }
  split; [exact Hl |]. intros y x Hy Hx. apply Hlook. split; assumption.
Qed.

(** Every element of the filled grid is one of the values written. *)
Lemma grid_fill_elements (l : list A) (c : A) :
  0 <= ncols -> 0 <= nrows ->
  length l = Z.to_nat (ncols * nrows) ->
  In c (grid_fill ncols nrows val l) ->
  exists y x, 0 <= y < nrows /\ 0 <= x < ncols /\ c = val y x.
Proof.
  intros Hc Hr Hlen Hin.
  destruct (grid_fill_lookup l Hc Hr Hlen) as [Hl Hlook].
  apply list_elem_of_In, list_elem_of_lookup in Hin. destruct Hin as [i Hi].
  pose proof (lookup_lt_Some _ _ _ Hi) as Hlt. rewrite Hl, Hlen in Hlt.
  assert (Hcpos : 0 < ncols) by nia.
  exists (Z.of_nat i / ncols), (Z.of_nat i mod ncols).
  pose proof (Z.mod_pos_bound (Z.of_nat i) ncols Hcpos) as Hmod.
  pose proof (Z.div_mod (Z.of_nat i) ncols ltac:(lia)) as Hdm.
  assert (Hdiv : 0 <= Z.of_nat i / ncols < nrows).
  { split; [apply Z.div_pos; lia |]. apply Z.div_lt_upper_bound; nia. }
  split; [exact Hdiv | split; [exact Hmod |]].
  specialize (Hlook _ _ Hdiv Hmod).
  replace (Z.to_nat (Z.of_nat i / ncols * ncols + Z.of_nat i mod ncols)) with i in Hlook
    by lia.
  congruence.
Qed.
End RowMajor.

(** ** ascii_renderer.cpp: sampling and rendering *)

Module RendererFacts.
Import ColorLut Renderer.

Lemma Qnum_plus_zero (x y : Q) : Qnum x = 0 -> Qnum y = 0 -> Qnum (x + y) = 0.
Proof. intros Hx Hy. unfold Qplus. simpl. rewrite Hx, Hy. reflexivity. Qed.

Lemma Qnum_div_zero (x y : Q) : Qnum x = 0 -> Qnum (x / y) = 0.
Proof. intros Hx. unfold Qdiv, Qmult. simpl. rewrite Hx. reflexivity. Qed.

Lemma Qnum_zero_eq (x : Q) : Qnum x = 0 -> (x == 0)%Q.
Proof. intros Hx. unfold Qeq. simpl. rewrite Hx. reflexivity. Qed.

Lemma Qtrunc_zero (x : Q) : Qnum x = 0 -> Qtrunc x = 0.
Proof. intros Hx. unfold Qtrunc. rewrite Hx. apply Z.quot_0_l. discriminate. Qed.

Lemma Qtrunc_u8_zero (x : Q) : Qnum x = 0 -> Qtrunc_u8 x = 0.
Proof. intros Hx. unfold Qtrunc_u8. rewrite (Qtrunc_zero x Hx). reflexivity. Qed.

Lemma Qtrunc_half (x : Q) : (x == 1 # 2)%Q -> Qtrunc x = 0.
Proof.
  intros Hx. rewrite Qtrunc_nonneg_floor by (rewrite Hx; discriminate).
  rewrite Hx. reflexivity.
Qed.

Lemma clampQ_id v lo hi : (lo <= v)%Q -> (v <= hi)%Q -> clampQ v lo hi = v.
Proof.
  intros H1 H2. unfold clampQ.
  apply Qltb_ge in H1. apply Qltb_ge in H2. rewrite H1, H2. reflexivity.
Qed.

Lemma clampQ_zero v : (v == 0)%Q -> (clampQ v 0 1 == 0)%Q.
Proof.
  intros Hv. rewrite clampQ_id; [exact Hv | |]; rewrite Hv; discriminate.
Qed.

Lemma byte_at_black rgb i : all_black rgb -> byte_at rgb i = 0.
Proof.
  intros H. unfold byte_at.
  destruct (nth_in_or_default (Z.to_nat i) rgb 0) as [Hin | ->]; [| reflexivity].
  unfold all_black in H. rewrite Forall_forall in H.
  apply H. apply list_elem_of_In. exact Hin.
Qed.

Lemma sample_pixel_black rgb width yy xx a :
  all_black rgb -> zero_accum a -> zero_accum (sample_pixel rgb width yy xx a).
Proof.
  intros Hb (HL & HR & HG & HB). unfold sample_pixel.
  rewrite !byte_at_black by exact Hb.
  repeat split; cbn [accumLuma accumR accumG accumB];
    apply Qnum_plus_zero; try assumption; reflexivity.
Qed.

Lemma sample_loops_black rgb width height startX startY cellWidth cellHeight :
  all_black rgb ->
  zero_accum (sample_loops rgb width height startX startY cellWidth cellHeight).
Proof.
  intros Hb. unfold sample_loops.
  apply for_loop_preserves.
  - repeat split.
  - intros y a _ Ha. apply for_loop_preserves; [exact Ha |].
    intros x a' _ Ha'. apply sample_pixel_black; assumption.
Qed.

Lemma black_index : xterm_index_from_rgb 0 0 0 = 0.
Proof. vm_compute. reflexivity. Qed.

Section Pow.
Variable powf : Q -> Q -> Q.

Lemma sampleCell_bg c rgb width height startX startY cellWidth cellHeight row col :
  bg (sampleCell powf c rgb width height startX startY cellWidth cellHeight row col) = 0.
Proof. unfold sampleCell. destruct (mode c); reflexivity. Qed.

Lemma sampleCell_black_fg c rgb width height startX startY cellWidth cellHeight row col :
  all_black rgb ->
  fg (sampleCell powf c rgb width height startX startY cellWidth cellHeight row col) = 0.
Proof.
  intros Hb.
  destruct (sample_loops_black rgb width height startX startY cellWidth cellHeight Hb)
    as (HL & HR & HG & HB).
  unfold sampleCell. cbv zeta.
  destruct (mode c); cbn [fg].
  - rewrite (Qtrunc_u8_zero _ (Qnum_div_zero _ _ HL)). reflexivity.
  - rewrite (Qtrunc_u8_zero _ (Qnum_div_zero _ _ HR)),
            (Qtrunc_u8_zero _ (Qnum_div_zero _ _ HG)),
            (Qtrunc_u8_zero _ (Qnum_div_zero _ _ HB)).
    rewrite black_index. reflexivity.
  - rewrite (Qtrunc_u8_zero _ (Qnum_div_zero _ _ HR)),
            (Qtrunc_u8_zero _ (Qnum_div_zero _ _ HG)),
            (Qtrunc_u8_zero _ (Qnum_div_zero _ _ HB)).
    reflexivity.
Qed.

Lemma clampZ_bounds v lo hi : lo <= hi -> lo <= clampZ v lo hi <= hi.
Proof.
  intros H. unfold clampZ.
  destruct (v <? lo) eqn:E1; [lia |]. destruct (hi <? v) eqn:E2; [lia |].
  apply Z.ltb_ge in E1. apply Z.ltb_ge in E2. lia.
Qed.

Lemma sampleCell_glyph_choices c rgb width height startX startY cellWidth cellHeight
    row col :
  In (glyph (sampleCell powf c rgb width height startX startY cellWidth cellHeight row col))
     glyph_choices.
Proof.
  assert (Hramp : forall v : Z,
            In (String (nth (Z.to_nat (clampZ v 0 (Z.of_nat (length ramp_) - 1))) ramp_ " "%char)
                       EmptyString) glyph_choices).
  { intros v. right. apply (in_map (fun ch => String ch EmptyString)). apply nth_In.
    pose proof (clampZ_bounds v 0 (Z.of_nat (length ramp_) - 1)) as Hb.
    simpl length in *. lia. }
  unfold sampleCell. cbv zeta. destruct (mode c); cbn [glyph].
  - apply Hramp.
  - match goal with |- context [if ?t then _ else _] => destruct t end.
    + left. reflexivity.
    + apply Hramp.
  - apply Hramp.
Qed.

Lemma threshold_bound d i : (nth i (thresholds (bayer_matrix d)) 0 <= 15 # 16)%Q.
Proof.
  destruct (nth_in_or_default i (thresholds (bayer_matrix d)) 0%Q) as [Hin | ->];
    [| discriminate].
  revert Hin. generalize (nth i (thresholds (bayer_matrix d)) 0%Q) as t.
  intros t Hin. destruct d; simpl in Hin;
    repeat (destruct Hin as [<- | Hin]; [discriminate |]); contradiction.
Qed.

(** What the gamma and contrast stages leave of a zero luminance sum, for a
    [pow] that maps 0 to 0 at positive exponents. *)
Lemma normalized_black (a : Accum) (ga co : Q) :
  (forall x e, (x == 0)%Q -> (0 < e)%Q -> (powf x e == 0)%Q) ->
  Qnum (accumLuma a) = 0 ->
  (0 < ga)%Q -> (1 <= co)%Q ->
  (apply_contrast
     (apply_gamma powf (accumLuma a / inject_Z (Z.max 1 (count a))) ga) co == 0)%Q.
Proof.
  intros Hpow HL Hga Hco.
  assert (Hg : (apply_gamma powf (accumLuma a / inject_Z (Z.max 1 (count a))) ga == 0)%Q).
  { unfold apply_gamma. cbv zeta. apply clampQ_zero. apply Hpow.
    - apply clampQ_zero. apply Qnum_zero_eq. apply Qnum_div_zero.
      apply Qnum_div_zero. exact HL.
    - unfold Qdiv. rewrite Qmult_1_l. apply Qinv_lt_0_compat. exact Hga. }
  unfold apply_contrast. cbv zeta. apply clampQ_below; [| discriminate].
  rewrite Hg. lra.
Qed.

Lemma sampleCell_black_glyph c rgb width height startX startY cellWidth cellHeight
    row col :
  (forall x e, (x == 0)%Q -> (0 < e)%Q -> (powf x e == 0)%Q) ->
  all_black rgb ->
  (0 < gamma c)%Q -> (1 <= contrast c)%Q ->
  glyph (sampleCell powf c rgb width height startX startY cellWidth cellHeight row col)
  = "@"%string.
Proof.
  intros Hpow Hb Hga Hco.
  destruct (sample_loops_black rgb width height startX startY cellWidth cellHeight Hb)
    as (HL & _).
  pose proof (normalized_black _ _ _ Hpow HL Hga Hco) as Hn.
  unfold sampleCell. cbv zeta.
  set (n := apply_contrast _ _) in *.
  assert (Hidx : Qtrunc (n * inject_Z (Z.of_nat (length ramp_) - 1) + (1 # 2)) = 0).
  { apply Qtrunc_half. rewrite Hn. reflexivity. }
  rewrite Hidx.
  destruct (mode c); cbn [glyph]; try reflexivity.
  match goal with |- context [Qltb 1 (n + ?t)] => set (th := t) end.
  assert (Hth : (th <= 15 # 16)%Q).
  { subst th. destruct (1 <? size (bayer_matrix (dither c)));
      [apply threshold_bound | discriminate]. }
  assert (Hlt : Qltb 1 (n + th) = false).
  { apply Qltb_ge. rewrite Hn. lra. }
  rewrite Hlt. reflexivity.
Qed.

Lemma render_cells_grid cfg frame :
  render_cells powf cfg frame
  = grid_fill (gridCols cfg) (gridRows cfg)
      (render_cell powf cfg cfg frame (cellWidth_of cfg frame) (cellHeight_of cfg frame))
      (replicate (Z.to_nat (gridCols cfg * gridRows cfg)) default_cell).
Proof. reflexivity. Qed.

Lemma render_cells_length cfg frame :
  0 <= gridCols cfg -> 0 <= gridRows cfg ->
  length (render_cells powf cfg frame) = Z.to_nat (gridCols cfg * gridRows cfg).
Proof.
  intros Hc Hr. rewrite render_cells_grid.
  destruct (grid_fill_lookup (gridCols cfg) (gridRows cfg)
              (render_cell powf cfg cfg frame (cellWidth_of cfg frame) (cellHeight_of cfg frame))
              (replicate (Z.to_nat (gridCols cfg * gridRows cfg)) default_cell)
              Hc Hr (length_replicate _ _)) as [Hlen _].
  rewrite Hlen. apply length_replicate.
Qed.

Lemma render_cells_lookup cfg frame y x :
  0 <= y < gridRows cfg -> 0 <= x < gridCols cfg ->
  render_cells powf cfg frame !! Z.to_nat (y * gridCols cfg + x)
  = Some (render_cell powf cfg cfg frame (cellWidth_of cfg frame) (cellHeight_of cfg frame)
            y x).
Proof.
  intros Hy Hx. rewrite render_cells_grid.
  apply grid_fill_lookup; [lia | lia | apply length_replicate | exact Hy | exact Hx].
Qed.

Lemma render_cells_elements cfg frame c :
  0 <= gridCols cfg -> 0 <= gridRows cfg ->
  In c (render_cells powf cfg frame) ->
  exists y x, 0 <= y < gridRows cfg /\ 0 <= x < gridCols cfg
    /\ c = render_cell powf cfg cfg frame (cellWidth_of cfg frame) (cellHeight_of cfg frame)
             y x.
Proof.
  intros Hc Hr Hin. rewrite render_cells_grid in Hin.
  apply grid_fill_elements in Hin; [exact Hin | exact Hc | exact Hr |].
  apply length_replicate.
Qed.

Lemma render_cell_black cfg frame cw ch y x :
  all_black (data frame) ->
  let cell := render_cell powf cfg cfg frame cw ch y x in
  fg cell = 0
  /\ (halfBlock cfg = true -> glyph cell = half_block_glyph /\ bg cell = 0)
  /\ (halfBlock cfg = false ->
      (forall x e, (x == 0)%Q -> (0 < e)%Q -> (powf x e == 0)%Q) ->
      (0 < gamma cfg)%Q -> (1 <= contrast cfg)%Q -> glyph cell = "@"%string).
Proof.
  intros Hb. unfold render_cell. cbv zeta. destruct (halfBlock cfg).
  - cbn [fg bg glyph]. rewrite !sampleCell_black_fg by exact Hb.
    split; [reflexivity | split; [intros _; split; reflexivity | discriminate]].
  - split; [apply sampleCell_black_fg; exact Hb | split; [discriminate |]].
    intros _ Hpow Hga Hco. apply sampleCell_black_glyph; assumption.
Qed.

End Pow.

(** C6, as stated, fails: under the default configuration (gamma 2.2,
    contrast 1) the cell of a black pixel has the leftmost ramp character,
    whatever [pow] is, as long as it maps 0 to 0 at positive exponents. *)
Lemma black_cell_is_not_blank :
  ~ exists powf : Q -> Q -> Q,
      (forall x e, (x == 0)%Q -> (0 < e)%Q -> (powf x e == 0)%Q)
      /\ (forall cell, In cell (cells (render powf default_config black_pixel)) ->
            glyph cell = " "%string /\ fg cell = 0).
Proof.
  intros [powf [Hpow Hall]].
  pose proof (render_cells_lookup powf default_config black_pixel 0 0
                ltac:(simpl; lia) ltac:(simpl; lia)) as Hlook.
  apply list_elem_of_lookup_2, list_elem_of_In in Hlook.
  destruct (Hall _ Hlook) as [Hglyph _].
  destruct (render_cell_black powf default_config black_pixel
              (cellWidth_of default_config black_pixel)
              (cellHeight_of default_config black_pixel) 0 0) as (_ & _ & Hat).
  { repeat constructor. }
  rewrite Hat in Hglyph; [discriminate Hglyph | reflexivity | exact Hpow | | ];
    simpl; [reflexivity | discriminate].
Qed.

(** C6 (amended): for every frame of positive size whose pixels are all black,
    every rendered cell's fg is 0x000000, for any renderer configuration with a
    positive grid and finite gamma and contrast.  With half blocks every glyph
    is the half-block glyph and every bg is 0x000000.  Without half blocks, for
    a finite gamma > 0 and a finite contrast >= 1 (and a [pow] that maps 0 to 0
    at positive exponents) every glyph is the leftmost ramp character '@':
    luminance 0 has ramp index 0.  The gamma and the contrast of the model are
    rationals: the statement does not cover [--gamma inf], where the exponent
    1 / gamma is 0 and [pow(0, 0)] is 1, nor [--gamma nan]. *)
Theorem black_frame_cells (powf : Q -> Q -> Q) (cfg : RendererConfig) (frame : VideoFrame) :
  0 < gridCols cfg -> 0 < gridRows cfg ->
  0 < width frame -> 0 < height frame ->
  length (data frame) = Z.to_nat (width frame * height frame * 3) ->
  all_black (data frame) ->
  length (cells (render powf cfg frame)) = Z.to_nat (gridCols cfg * gridRows cfg)
  /\ forall cell, In cell (cells (render powf cfg frame)) ->
       fg cell = 0
       /\ (halfBlock cfg = true -> glyph cell = half_block_glyph /\ bg cell = 0)
       /\ (halfBlock cfg = false ->
           (forall x e, (x == 0)%Q -> (0 < e)%Q -> (powf x e == 0)%Q) ->
           (0 < gamma cfg)%Q -> (1 <= contrast cfg)%Q -> glyph cell = "@"%string).
Proof.
  intros Hc Hr _ _ _ Hb. unfold render. cbn [cells]. split.
  - apply render_cells_length; lia.
  - intros cell Hin.
    apply render_cells_elements in Hin; [| lia | lia].
    destruct Hin as (y & x & _ & _ & ->).
    apply render_cell_black. exact Hb.
Qed.

Lemma black_frame_cells_witness :
  Forall (fun cell => fg cell = 0 /\ glyph cell = "@"%string)
         (cells (render pow_exponent_one plain_gray black_pixel)).
Proof.
  destruct (black_frame_cells pow_exponent_one plain_gray black_pixel) as [_ H];
    [simpl; lia | simpl; lia | simpl; lia | simpl; lia | reflexivity
    | repeat constructor |].
  apply List.Forall_forall. intros cell Hin. destruct (H cell Hin) as (Hfg & _ & Hglyph).
  split; [exact Hfg |].
  apply Hglyph; [reflexivity | intros x e Hx _; exact Hx | reflexivity | discriminate].
Defined.

(** *** One red pixel in ANSI256 mode *)

Lemma sampleCell_ansi256_fg powf c rgb width height startX startY cellWidth cellHeight
    row col :
  mode c = ANSI256 ->
  fg (sampleCell powf c rgb width height startX startY cellWidth cellHeight row col)
  = let a := sample_loops rgb width height startX startY cellWidth cellHeight in
    let avgR := Qtrunc_u8 (accumR a / inject_Z (Z.max 1 (count a)))%Q in
    let avgG := Qtrunc_u8 (accumG a / inject_Z (Z.max 1 (count a)))%Q in
    let avgB := Qtrunc_u8 (accumB a / inject_Z (Z.max 1 (count a)))%Q in
    let rgbPalette := palette_at (xterm_index_from_rgb avgR avgG avgB) in
    pack_rgb (r rgbPalette) (g rgbPalette) (b rgbPalette).
Proof. intros Hm. unfold sampleCell. rewrite Hm. reflexivity. Qed.

Lemma red_pixel_cells powf d ga co pts :
  exists gl, In gl glyph_choices
    /\ render_cells powf (ansi256_1x1 d ga co) (red_pixel pts) = [mkCell gl 13434880 0].
Proof.
  pose proof (render_cells_length powf (ansi256_1x1 d ga co) (red_pixel pts)
                ltac:(simpl; lia) ltac:(simpl; lia)) as Hlen.
  pose proof (render_cells_lookup powf (ansi256_1x1 d ga co) (red_pixel pts) 0 0
                ltac:(simpl; lia) ltac:(simpl; lia)) as Hlook.
  change (Z.to_nat (0 * gridCols (ansi256_1x1 d ga co) + 0)) with 0%nat in Hlook.
  change (Z.to_nat (gridCols (ansi256_1x1 d ga co) * gridRows (ansi256_1x1 d ga co)))
    with 1%nat in Hlen.
  unfold render_cell in Hlook.
  change (halfBlock (ansi256_1x1 d ga co)) with false in Hlook. cbv iota zeta in Hlook.
  match type of Hlook with _ = Some ?c => set (X := c) in * end.
  exists (glyph X). split; [apply sampleCell_glyph_choices |].
  assert (Hfg : fg X = 13434880).
  { subst X. rewrite sampleCell_ansi256_fg by reflexivity. vm_compute. reflexivity. }
  assert (Hbg : bg X = 0) by apply sampleCell_bg.
  clearbody X. destruct X as [gl f b0]. simpl in Hfg, Hbg. subst f b0. simpl glyph.
  destruct (render_cells powf (ansi256_1x1 d ga co) (red_pixel pts)) as [|c0 [|c1 l]];
    simpl in Hlen; try discriminate.
  simpl in Hlook. injection Hlook as ->. reflexivity.
Qed.

Lemma index_1_string_facts d ga co gl :
  In gl glyph_choices ->
  build_terminal_string (ansi256_1x1 d ga co) 1 1 [mkCell gl 13434880 0] = index_1_string gl
  /\ contains "38;5;1m" (index_1_string gl) = true
  /\ contains "38;5;160" (index_1_string gl) = false.
Proof.
  intros Hin. unfold glyph_choices, ramp_, kRamp in Hin. simpl in Hin.
  repeat (destruct Hin as [<- | Hin]; [vm_compute; repeat split |]).
  contradiction.
Qed.

Lemma red_pixel_render powf d ga co pts :
  exists gl, In gl glyph_choices
    /\ cells (render powf (ansi256_1x1 d ga co) (red_pixel pts)) = [mkCell gl 13434880 0]
    /\ terminalString (render powf (ansi256_1x1 d ga co) (red_pixel pts)) = index_1_string gl
    /\ contains "38;5;1m" (index_1_string gl) = true
    /\ contains "38;5;160" (index_1_string gl) = false.
Proof.
  destruct (red_pixel_cells powf d ga co pts) as (gl & Hin & Hcells).
  destruct (index_1_string_facts d ga co gl Hin) as (Hts & Hyes & Hno).
  exists gl. split; [exact Hin |]. unfold render. cbn [cells terminalString].
  rewrite Hcells. split; [reflexivity |]. split; [exact Hts |]. split; assumption.
Qed.

(** C5, as stated, fails: the nearest palette entry of (200, 10, 10) is not
    160, and no [pow] makes the byte string contain 38;5;160 (default dither,
    gamma and contrast of the command line, 1x1 grid). *)
Lemma red_pixel_is_not_index_160 :
  xterm_index_from_rgb 200 10 10 <> 160
  /\ ~ exists powf : Q -> Q -> Q,
        contains "38;5;160"
          (terminalString (render powf (ansi256_1x1 Bayer4 (22 # 10) 1) (red_pixel 0)))
        = true.
Proof.
  split.
  - assert (E : xterm_index_from_rgb 200 10 10 = 1) by (vm_compute; reflexivity).
    rewrite E. discriminate.
  - intros [powf H].
    destruct (red_pixel_render powf Bayer4 (22 # 10) 1 0) as (gl & _ & _ & Hts & _ & Hno).
    rewrite Hts, Hno in H. discriminate H.
Qed.

(** C5 (amended): rendering a 1x1 input frame with rgb = (200, 10, 10) in
    ANSI256 mode (1x1 grid, any dither, gamma, contrast and [pow]) selects
    palette index 1, the base color (205, 0, 0), as the closest palette entry
    for the cell foreground (squared distance 225, against 425 for entry 160),
    and the emitted terminal byte string is ESC[H ESC[38;5;1m glyph ESC[0m CR LF:
    it contains 38;5;1m and does not contain 38;5;160. *)
Theorem ansi256_red_pixel (powf : Q -> Q -> Q) (d : DitherMode) (ga co pts : Q) :
  xterm_index_from_rgb 200 10 10 = 1
  /\ palette_at 1 = mkRGB 205 0 0
  /\ pack_rgb 205 0 0 = 13434880
  /\ exists gl, In gl glyph_choices
       /\ cells (render powf (ansi256_1x1 d ga co) (red_pixel pts))
          = [mkCell gl 13434880 0]
       /\ terminalString (render powf (ansi256_1x1 d ga co) (red_pixel pts))
          = index_1_string gl
       /\ contains "38;5;1m" (index_1_string gl) = true
       /\ contains "38;5;160" (index_1_string gl) = false.
Proof.
  split; [vm_compute; reflexivity |]. split; [reflexivity |]. split; [reflexivity |].
  apply red_pixel_render.
Qed.

(** *** The background escape of half-block frames *)

(** Outside TrueColor mode nothing sets [haveColor], so the test
    [!haveColor || cell.bg != currentBg] holds at every cell of a half-block
    frame and the background escape is appended each time. *)
Lemma background_always_emitted cfg cell st :
  mode cfg <> TrueColor -> halfBlock cfg = true -> haveColor st = false ->
  haveColor (emit_cell cfg cell st) = false
  /\ buffer (emit_cell cfg cell st)
     = (appendBackground (bg cell) (buffer (emit_foreground cfg cell st))
        ++ glyph cell)%string.
Proof.
  intros Hmode Hhalf Hhave. unfold emit_cell, emit_background. cbv zeta.
  assert (Hfg : haveColor (emit_foreground cfg cell st) = false).
  { unfold emit_foreground. destruct (mode cfg); [exact Hhave | exact Hhave | congruence]. }
  rewrite Hhalf, Hfg. simpl. split; reflexivity.
Qed.

(** In TrueColor mode the foreground branch sets [haveColor] before the
    background test, and [currentBg] starts at 0: the first cell of a row gets
    no background escape when its bg is 0x000000. *)
Lemma first_black_background_skipped cfg cell buf :
  mode cfg = TrueColor -> halfBlock cfg = true -> bg cell = 0 ->
  buffer (emit_cell cfg cell (mkRowState buf 4294967295 0 false))
  = (flushTrueColor (fg cell) buf ++ glyph cell)%string.
Proof.
  intros Hmode Hhalf Hbg. unfold emit_cell, emit_background, emit_foreground. cbv zeta.
  rewrite Hmode, Hhalf. simpl. rewrite Hbg. reflexivity.
Qed.

(** C7 fails on the code.  Gray mode, half blocks, two cells with the same bg
    in one row: the background escape is written before both cells.  TrueColor
    mode, same frame: it is written before neither, not even the first. *)
Theorem background_escape_not_memoized (powf : Q -> Q -> Q) :
  terminalString (render powf (half_row Gray) black_2x2)
  = (ESC ++ "[H" ++ fg_escape ++ bg_escape ++ half_block_glyph
         ++ fg_escape ++ bg_escape ++ half_block_glyph ++ row_end)%string
  /\ terminalString (render powf (half_row TrueColor) black_2x2)
     = (ESC ++ "[H" ++ fg_escape ++ half_block_glyph ++ half_block_glyph
            ++ row_end)%string.
Proof. split; vm_compute; reflexivity. Qed.

(** *** render next to the control thread *)

(** With no mutator scheduled, the model with the shared member is [render]. *)
Lemma render_under_quiet powf c frame :
  render_under powf (fun _ _ => []) c frame = render powf c frame.
Proof.
  unfold render_under, render. cbv zeta.
  assert (H : render_cells_under powf (fun _ _ => []) c c frame
              = mkShared c (render_cells powf c frame)).
  { unfold render_cells_under, render_cells. cbv zeta.
    apply (for_loop_rel (fun st l => st = mkShared c l)); [reflexivity |].
    intros y st l _ ->.
    apply (for_loop_rel (fun st l => st = mkShared c l)); [reflexivity |].
    intros x st l' _ ->. reflexivity. }
  rewrite H. reflexivity.
Qed.

(** C3 fails on the code.  [render] copies the configuration at entry, but
    [sampleCell] reads the member [config_]: with [cycleMode] between the two
    cells of one frame, the first cell is colored in Gray mode (0x323232) and
    the second in ANSI256 mode (0xCD0000), while a whole frame in either mode
    has the same color in both cells. *)
Theorem mode_changes_within_a_frame (powf : Q -> Q -> Q) :
  map fg (cells (render_under powf key_c_before_second_cell gray_1x2 two_red_pixels))
  = [3289650; 13434880]
  /\ map fg (cells (render powf gray_1x2 two_red_pixels)) = [3289650; 3289650]
  /\ map fg (cells (render powf (cycleMode gray_1x2) two_red_pixels))
     = [13434880; 13434880].
Proof. repeat split; vm_compute; reflexivity. Qed.

End RendererFacts.

(** ** exporter.cpp: the glyph drawn for a cell *)

Module ExportFacts.
Import Renderer VideoExport.

Lemma half_block_unprintable : unprintable half_block_glyph.
Proof. exists 226. split; [reflexivity | right; lia]. Qed.

Section Font.
Variables (glyph_width glyph_height : Z).
Variable blit_glyph : list Z -> Z -> Z -> Z -> Z -> list Z.
Variable char_is_signed : bool.

Lemma export_glyph_unprintable cell :
  unprintable (glyph cell) -> export_glyph char_is_signed cell = 35.
Proof.
  intros [byte [Hfirst Hout]]. unfold export_glyph.
  destruct (glyph cell) as [|c rest]; [discriminate |].
  simpl in Hfirst. injection Hfirst as <-.
  pose proof (nat_ascii_bounded c) as Hb.
  unfold to_char.
  destruct (char_is_signed && (127 <? Z.of_nat (nat_of_ascii c))) eqn:E.
  - assert (H : (Z.of_nat (nat_of_ascii c) - 256 <? 32) = true) by (apply Z.ltb_lt; lia).
    rewrite H. reflexivity.
  - destruct Hout as [Hlow | Hhigh].
    + apply Z.ltb_lt in Hlow. rewrite Hlow. reflexivity.
    + apply Z.ltb_lt in Hhigh. rewrite Hhigh, orb_true_r. reflexivity.
Qed.

Lemma copy_glyph_grid e gb x y buffer :
  copy_glyph glyph_width glyph_height e gb x y buffer
  = grid_store (glyphW_ e) (glyphH_ e) (pixel_index e y x)
      (glyph_pixel glyph_width glyph_height e gb) buffer.
Proof. reflexivity. Qed.

Section Frame.
Variables (e : Exporter) (frame : AsciiFrame) (buffer : list Z).
Hypothesis glyphW_pos : 0 < glyphW_ e.
Hypothesis glyphH_pos : 0 < glyphH_ e.
Hypothesis cols_nonneg : 0 <= cols frame.
Hypothesis rows_nonneg : 0 <= rows frame.
Hypothesis row_fits : cols frame * glyphW_ e <= frame_width e.
Hypothesis frame_fits :
  rows frame * glyphH_ e * frame_width e <= Z.of_nat (length buffer).

Lemma pixel_index_inj y x yy xx y' x' yy' xx' :
  in_frame e frame y x yy xx -> in_frame e frame y' x' yy' xx' ->
  pixel_index e y x yy xx = pixel_index e y' x' yy' xx' ->
  (y = y' /\ x = x') /\ (yy = yy' /\ xx = xx').
Proof.
  intros [[Hy Hx] [Hyy Hxx]] [[Hy' Hx'] [Hyy' Hxx']] E.
  unfold pixel_index in E.
  assert (Hc : 0 <= x * glyphW_ e + xx < frame_width e) by nia.
  assert (Hc' : 0 <= x' * glyphW_ e + xx' < frame_width e) by nia.
  assert (Hr : 0 <= y * glyphH_ e + yy) by nia.
  assert (Hr' : 0 <= y' * glyphH_ e + yy') by nia.
  assert (Hp : 0 <= (y * glyphH_ e + yy) * frame_width e)
    by (apply Z.mul_nonneg_nonneg; lia).
  assert (Hp' : 0 <= (y' * glyphH_ e + yy') * frame_width e)
    by (apply Z.mul_nonneg_nonneg; lia).
  apply Z2Nat.inj in E; [| lia | lia].
  apply grid_index_inj in E; [| lia | lia | lia | lia].
  destruct E as [Erow Ecol].
  apply grid_index_inj in Erow; [| lia | lia | lia | lia].
  apply grid_index_inj in Ecol; [| lia | lia | lia | lia].
  tauto.
Qed.

Lemma pixel_index_in_range y x yy xx (l : list Z) :
  length l = length buffer -> in_frame e frame y x yy xx ->
  (pixel_index e y x yy xx < length l)%nat.
Proof.
  intros Hl [[Hy Hx] [Hyy Hxx]]. rewrite Hl. unfold pixel_index.
  assert (Hc : 0 <= x * glyphW_ e + xx < frame_width e) by nia.
  assert (Hr : 0 <= y * glyphH_ e + yy) by nia.
  assert (Hr1 : y * glyphH_ e + yy + 1 <= rows frame * glyphH_ e) by nia.
  assert (Hm : (y * glyphH_ e + yy + 1) * frame_width e
               <= rows frame * glyphH_ e * frame_width e)
    by (apply Z.mul_le_mono_nonneg_r; lia).
  assert (Hp : 0 <= (y * glyphH_ e + yy) * frame_width e)
    by (apply Z.mul_nonneg_nonneg; lia).
  lia.
Qed.

(** One cell copied: its own pixels hold the glyph buffer, scaled; all other
    pixels of the frame buffer are as before. *)
Lemma copy_glyph_spec gb y x (l : list Z) :
  length l = length buffer ->
  0 <= y < rows frame -> 0 <= x < cols frame ->
  let l' := copy_glyph glyph_width glyph_height e gb x y l in
  length l' = length l
  /\ (forall yy xx, in_frame e frame y x yy xx ->
        l' !! pixel_index e y x yy xx
        = Some (glyph_pixel glyph_width glyph_height e gb yy xx))
  /\ (forall p : nat,
        (forall yy xx, in_frame e frame y x yy xx -> p <> pixel_index e y x yy xx) ->
        l' !! p = l !! p).
Proof.
  intros Hl Hy Hx. cbv zeta. rewrite copy_glyph_grid.
  destruct (grid_store_spec (glyphW_ e) (glyphH_ e) (pixel_index e y x)
              (glyph_pixel glyph_width glyph_height e gb))
    with (l := l) as (Hlen & Hlook & Hrest).
  - intros yy xx yy' xx' Hin Hin' E.
    destruct (pixel_index_inj y x yy xx y x yy' xx') as [_ H];
      [split; [split; assumption | exact Hin]
      | split; [split; assumption | exact Hin'] | exact E | exact H].
  - lia.
  - lia.
  - intros yy xx Hin. apply pixel_index_in_range; [exact Hl |].
    split; [split; assumption | exact Hin].
  - split; [exact Hlen | split].
    + intros yy xx [_ Hin]. apply Hlook. exact Hin.
    + intros p Hp. apply Hrest. intros yy xx Hin. apply Hp.
      split; [split; assumption | exact Hin].
Qed.

(** The pixel we follow through the loops of [blitAscii]. *)
Variables (y0 x0 yy0 xx0 : Z).
Hypothesis target_in_frame : in_frame e frame y0 x0 yy0 xx0.

Hypothesis target_hash : export_glyph char_is_signed (target_cell frame y0 x0) = 35.

Local Abbreviation followed_painted :=
  (painted glyph_width glyph_height blit_glyph e frame y0 x0 yy0 xx0).
Local Abbreviation followed_inv :=
  (blit_inv glyph_width glyph_height blit_glyph e frame buffer y0 x0 yy0 xx0).

Lemma blit_cell_inv y x st :
  0 <= y < rows frame -> 0 <= x < cols frame ->
  followed_inv y x st ->
  followed_inv y (x + 1)
    (blit_cell glyph_width glyph_height blit_glyph char_is_signed e frame y x st).
Proof.
  intros Hy Hx [Hl Hdone]. unfold blit_cell. cbv zeta.
  match goal with
  | |- followed_inv _ _ (mkBlit (copy_glyph _ _ _ ?gb _ _ _) _) =>
      destruct (copy_glyph_spec gb y x (pixels st) Hl Hy Hx) as (Hlen & Hlook & Hrest)
  end.
  split; cbn [pixels].
  - rewrite Hlen. exact Hl.
  - intros Hbefore.
    destruct (Z.eq_dec y y0) as [-> | Hney]; [destruct (Z.eq_dec x x0) as [-> | Hnex] |].
    + exists (glyphBuffer st). unfold painted. cbn [pixels].
      rewrite Hlook by exact target_in_frame.
      fold (target_cell frame y0 x0). rewrite target_hash. reflexivity.
    + destruct Hdone as [gb Hgb]; [lia |].
      exists gb. cbn [pixels]. rewrite Hrest; [exact Hgb |].
      intros yy xx Hin E.
      apply pixel_index_inj in E; [lia | exact target_in_frame | exact Hin].
    + destruct Hdone as [gb Hgb]; [lia |].
      exists gb. cbn [pixels]. rewrite Hrest; [exact Hgb |].
      intros yy xx Hin E.
      apply pixel_index_inj in E; [lia | exact target_in_frame | exact Hin].
Qed.

Lemma blitAscii_painted :
  followed_painted
    (blitAscii glyph_width glyph_height blit_glyph char_is_signed e frame buffer).
Proof.
  assert (Hinv : followed_inv (rows frame) 0
            (blitAscii glyph_width glyph_height blit_glyph char_is_signed e frame buffer)).
  { unfold blitAscii. apply (for_loop_ind (fun y => followed_inv y 0)).
    - exact rows_nonneg.
    - split; [reflexivity |]. destruct target_in_frame as [[? ?] _]. lia.
    - intros y st Hy Hst.
      assert (Hrow : followed_inv y (cols frame)
                (for_loop (cols frame)
                   (fun x st =>
                      blit_cell glyph_width glyph_height blit_glyph char_is_signed
                        e frame y x st) st)).
      { apply (for_loop_ind (followed_inv y)).
        - exact cols_nonneg.
        - exact Hst.
        - intros x st' Hx Hst'. apply blit_cell_inv; assumption. }
      destruct Hrow as [Hl Hdone]. split; [exact Hl |].
      intros Hbefore. apply Hdone. destruct target_in_frame as [[? ?] _]. lia. }
  destruct Hinv as [_ Hdone]. apply Hdone.
  destruct target_in_frame as [[? ?] _]. lia.
Qed.
End Frame.

(** The pixels of a cell whose glyph starts outside printable ASCII. *)
Lemma unprintable_cell_pixels (e : Exporter) (frame : AsciiFrame) (buffer : list Z)
    (y x yy xx : Z) :
  0 < glyphW_ e -> 0 < glyphH_ e ->
  cols frame * glyphW_ e <= frame_width e ->
  rows frame * glyphH_ e * frame_width e <= Z.of_nat (length buffer) ->
  in_frame e frame y x yy xx ->
  let cell := cell_at (cells frame) (y * cols frame + x) in
  unprintable (glyph cell) ->
  export_glyph char_is_signed cell = 35
  /\ exists gb,
       pixels (blitAscii glyph_width glyph_height blit_glyph char_is_signed
                 e frame buffer) !! pixel_index e y x yy xx
       = Some (glyph_pixel glyph_width glyph_height e
                 (blit_glyph gb glyph_width 35 (fg cell) (bg cell)) yy xx).
Proof.
  intros Hgw Hgh Hrow Hfit Hin cell Hunp.
  pose proof (export_glyph_unprintable cell Hunp) as Hhash.
  split; [exact Hhash |].
  assert (Hc : 0 <= cols frame) by (destruct Hin as [[_ Hx] _]; lia).
  assert (Hr : 0 <= rows frame) by (destruct Hin as [[Hy _] _]; lia).
  exact (blitAscii_painted e frame buffer Hgw Hgh Hc Hr Hrow Hfit y x yy xx Hin Hhash).
Qed.

Lemma half_block_cell_at powf cfg vf y x :
  halfBlock cfg = true ->
  0 <= y < Renderer.gridRows cfg -> 0 <= x < Renderer.gridCols cfg ->
  glyph (cell_at (cells (render powf cfg vf)) (y * cols (render powf cfg vf) + x))
  = half_block_glyph.
Proof.
  intros Hhalf Hy Hx. unfold render. cbn [cells cols]. unfold cell_at.
  rewrite (nth_lookup_Some _ _ default_cell _
             (RendererFacts.render_cells_lookup powf cfg vf y x Hy Hx)).
  unfold render_cell. rewrite Hhalf. reflexivity.
Qed.

(** The frame buffer of [writeFrame] holds a rendered frame whose grid is
    within the export grid. *)
Lemma export_grid_fits powf cfg vf ecfg :
  0 <= Renderer.gridCols cfg <= gridCols ecfg ->
  0 <= Renderer.gridRows cfg <= gridRows ecfg ->
  cols (render powf cfg vf) * glyphW_ (open ecfg) <= frame_width (open ecfg)
  /\ rows (render powf cfg vf) * glyphH_ (open ecfg) * frame_width (open ecfg)
     <= Z.of_nat (length (replicate
                            (Z.to_nat (frame_width (open ecfg) * frame_height (open ecfg)))
                            0)).
Proof.
  intros Hc Hr. rewrite length_replicate.
  unfold open, render. cbn [glyphH_ glyphW_ frame_width frame_height rows cols].
  assert (Hgw : 0 < Z.max 4 (fontW ecfg)) by lia.
  assert (Hgh : 0 < Z.max 8 (fontH ecfg)) by lia.
  revert Hgw Hgh. generalize (Z.max 4 (fontW ecfg)) as gw.
  generalize (Z.max 8 (fontH ecfg)) as gh. intros gh gw Hgw Hgh.
  assert (Hw : 0 <= gridCols ecfg * gw) by (apply Z.mul_nonneg_nonneg; lia).
  assert (Hh : 0 <= gridRows ecfg * gh) by (apply Z.mul_nonneg_nonneg; lia).
  rewrite Z2Nat.id by (apply Z.mul_nonneg_nonneg; assumption).
  split.
  - apply Z.mul_le_mono_nonneg_r; lia.
  - rewrite (Z.mul_comm (gridCols ecfg * gw) (gridRows ecfg * gh)).
    apply Z.mul_le_mono_nonneg_r; [exact Hw |].
    apply Z.mul_le_mono_nonneg_r; lia.
Qed.

End Font.


End ExportFacts.

(* ===================================================================== *)
(** * Further properties of the code *)
(* ===================================================================== *)

(** ** color_lut.hpp: packing, the palette, the nearest entry, tone curves *)

Module ColorFacts.
Import ColorLut.

Lemma lor_disjoint (a b : Z) : Z.land a b = 0 -> Z.lor a b = a + b.
Proof. intros H. pose proof (Z.add_lor_land a b) as E. rewrite H in E. lia. Qed.

Lemma byte_land (v : Z) : is_byte v -> Z.land v 255 = v.
Proof.
  intros Hv. unfold is_byte in Hv. change 255 with (Z.ones 8).
  rewrite Z.land_ones by lia. apply Z.mod_small. lia.
Qed.

Lemma byte_shiftr (v n : Z) : is_byte v -> 8 <= n -> Z.shiftr v n = 0.
Proof.
  intros Hv Hn. unfold is_byte in Hv. rewrite Z.shiftr_div_pow2 by lia.
  apply Z.div_small. split; [lia |].
  apply Z.lt_le_trans with (2 ^ 8); [lia |].
  apply Z.pow_le_mono_r; lia.
Qed.

Lemma pack_rgb_sum (r g b : Z) :
  is_byte r -> is_byte g -> is_byte b ->
  pack_rgb r g b = r * 65536 + g * 256 + b.
Proof.
  intros Hr Hg Hb. unfold pack_rgb, is_byte in *.
  rewrite !Z.shiftl_mul_pow2 by lia.
  change (2 ^ 16) with 65536. change (2 ^ 8) with 256.
  assert (E1 : Z.lor (r * 65536) (g * 256) = r * 65536 + g * 256).
  { apply lor_disjoint.
    apply Z.bits_inj'. intros n Hn. rewrite Z.land_spec, Z.bits_0.
    destruct (Z.lt_ge_cases n 16) as [Hlt | Hge].
    - replace (r * 65536) with (r * 2 ^ 16) by reflexivity.
      rewrite Z.mul_pow2_bits_low by lia. reflexivity.
    - replace (g * 256) with (g * 2 ^ 8) by reflexivity.
      rewrite Z.mul_pow2_bits by lia.
      rewrite (Z.bits_above_log2 g (n - 8)); [apply andb_false_r | lia |].
      destruct (Z.eq_dec g 0) as [-> | Hg0]; [simpl; lia |].
      apply Z.lt_le_trans with 8; [| lia].
      apply Z.log2_lt_pow2; lia. }
  rewrite E1.
  apply lor_disjoint.
  apply Z.bits_inj'. intros n Hn. rewrite Z.land_spec, Z.bits_0.
  destruct (Z.lt_ge_cases n 8) as [Hlt | Hge].
  - replace (r * 65536 + g * 256) with ((r * 256 + g) * 2 ^ 8) by (change (2 ^ 8) with 256; ring).
    rewrite Z.mul_pow2_bits_low by lia. reflexivity.
  - rewrite (Z.bits_above_log2 b n); [apply andb_false_r | lia |].
    destruct (Z.eq_dec b 0) as [-> | Hb0]; [simpl; lia |].
    apply Z.lt_le_trans with 8; [| lia].
    apply Z.log2_lt_pow2; lia.
Qed.

Lemma unpack_of_sum (r g b : Z) :
  is_byte r -> is_byte g -> is_byte b ->
  unpack_rgb (r * 65536 + g * 256 + b) = mkRGB r g b.
Proof.
  intros Hr Hg Hb. unfold unpack_rgb, is_byte in *.
  change 255 with (Z.ones 8). rewrite !Z.land_ones by lia.
  rewrite !Z.shiftr_div_pow2 by lia.
  change (2 ^ 16) with 65536. change (2 ^ 8) with 256.
  f_equal.
  - replace (r * 65536 + g * 256 + b) with (g * 256 + b + r * 65536) by ring.
    rewrite Z.div_add by lia. rewrite (Z.div_small (g * 256 + b)) by lia.
    apply Z.mod_small. lia.
  - replace (r * 65536 + g * 256 + b) with (b + (r * 256 + g) * 256) by ring.
    rewrite Z.div_add by lia. rewrite (Z.div_small b) by lia.
    replace (0 + (r * 256 + g)) with (g + r * 256) by ring.
    rewrite Z.mod_add by lia. apply Z.mod_small. lia.
  - replace (r * 65536 + g * 256 + b) with (b + (r * 256 + g) * 256) by ring.
    rewrite Z.mod_add by lia. apply Z.mod_small. lia.
Qed.

Lemma unpack_pack (r g b : Z) :
  is_byte r -> is_byte g -> is_byte b -> unpack_rgb (pack_rgb r g b) = mkRGB r g b.
Proof.
  intros Hr Hg Hb. rewrite pack_rgb_sum by assumption. apply unpack_of_sum; assumption.
Qed.

Lemma land_255_byte (v : Z) : is_byte (Z.land v 255).
Proof.
  replace (Z.land v 255) with (v mod 256).
  - unfold is_byte. pose proof (Z.mod_pos_bound v 256 ltac:(lia)). lia.
  - change 255 with (Z.ones 8). rewrite Z.land_ones by lia. reflexivity.
Qed.

Lemma unpack_fields_bytes (value : Z) :
  is_byte (r (unpack_rgb value)) /\ is_byte (g (unpack_rgb value))
  /\ is_byte (b (unpack_rgb value)).
Proof. unfold unpack_rgb. cbn [r g b]. repeat split; apply land_255_byte. Qed.

(** X1: [pack_rgb] and [unpack_rgb] are inverse on colors.  Three bytes packed
    give a 24-bit value, r * 65536 + g * 256 + b, from which [unpack_rgb]
    returns the same three bytes; and whatever [unpack_rgb] returns for a
    32-bit value are three bytes that pack to the low 24 bits of that value
    (the top byte is dropped). *)
Theorem pack_unpack_round_trip :
  (forall r g b, is_byte r -> is_byte g -> is_byte b ->
     unpack_rgb (pack_rgb r g b) = mkRGB r g b
     /\ pack_rgb r g b = r * 65536 + g * 256 + b
     /\ 0 <= pack_rgb r g b < 16777216)
  /\ (forall value, 0 <= value < 4294967296 ->
        let c := unpack_rgb value in
        is_byte (r c) /\ is_byte (g c) /\ is_byte (b c)
        /\ pack_rgb (r c) (g c) (b c) = value mod 16777216).
Proof.
  split.
  - intros r g b Hr Hg Hb. split; [apply unpack_pack; assumption |].
    split; [apply pack_rgb_sum; assumption |].
    rewrite pack_rgb_sum by assumption. unfold is_byte in *. lia.
  - intros value Hv c. destruct (unpack_fields_bytes value) as (Hr & Hg & Hb).
    split; [exact Hr |]. split; [exact Hg |]. split; [exact Hb |].
    subst c. rewrite pack_rgb_sum by assumption.
    unfold unpack_rgb. cbn [r g b]. change 255 with (Z.ones 8).
    rewrite !Z.land_ones by lia. rewrite !Z.shiftr_div_pow2 by lia.
    change (2 ^ 16) with 65536. change (2 ^ 8) with 256.
    pose proof (Z.div_mod value 256 ltac:(lia)) as E0.
    pose proof (Z.div_mod (value / 256) 256 ltac:(lia)) as E1.
    pose proof (Z.div_mod (value / 256 / 256) 256 ltac:(lia)) as E2.
    rewrite Z.div_div in E2 by lia. rewrite Z.div_div in E2 by lia.
    change (256 * 256) with 65536 in E2. change (65536 * 256) with 16777216 in E2.
    pose proof (Z.mod_pos_bound value 256 ltac:(lia)) as B0.
    pose proof (Z.mod_pos_bound (value / 256) 256 ltac:(lia)) as B1.
    pose proof (Z.mod_pos_bound (value / 65536) 256 ltac:(lia)) as B2.
    assert (E3 : value / 256 / 256 = value / 65536) by (rewrite Z.div_div by lia; reflexivity).
    apply Z.mod_unique_pos with (q := value / 16777216); [lia |].
    rewrite E3 in E1. lia.
Qed.


Lemma pack_unpack_round_trip_witness :
  unpack_rgb (pack_rgb 200 10 10) = mkRGB 200 10 10
  /\ pack_rgb 200 10 10 = 200 * 65536 + 10 * 256 + 10
  /\ 0 <= pack_rgb 200 10 10 < 16777216.
Proof.
  destruct pack_unpack_round_trip as [H _].
  apply (H 200 10 10); unfold is_byte; lia.
Defined.

(** *** The palette *)

Lemma palette_bytes_all : forallb palette_entry_is_bytes (seqZ 0 256) = true.
Proof. vm_compute. reflexivity. Qed.

Lemma palette_bytes (i : Z) :
  0 <= i < 256 ->
  is_byte (r (palette_at i)) /\ is_byte (g (palette_at i)) /\ is_byte (b (palette_at i)).
Proof.
  intros Hi. pose proof (forallb_seqZ _ _ _ palette_bytes_all Hi) as H.
  unfold palette_entry_is_bytes in H. rewrite !andb_true_iff, !Z.leb_le in H.
  unfold is_byte. tauto.
Qed.

Lemma below_6 (c : Z) : 0 <= c < 6 -> c = 0 \/ c = 1 \/ c = 2 \/ c = 3 \/ c = 4 \/ c = 5.
Proof. lia. Qed.

(** X2: the layout of the xterm palette that [make_xterm_palette] builds: 256
    entries; entries 0..15 are [ANSI_BASE_COLORS]; entry 16 + 36 r + 6 g + b is
    the cube color with levels 0, 95, 135, 175, 215, 255 for r, g, b in 0..5;
    entry 232 + i is the gray 8 + 10 i for i in 0..23.  Every field is a
    byte. *)
Theorem xterm_palette_layout :
  make_xterm_palette = xterm_palette
  /\ length xterm_palette = 256%nat
  /\ (forall i, 0 <= i < 16 ->
        palette_at i = nth (Z.to_nat i) ANSI_BASE_COLORS (mkRGB 0 0 0))
  /\ (forall r g b, 0 <= r < 6 -> 0 <= g < 6 -> 0 <= b < 6 ->
        palette_at (16 + 36 * r + 6 * g + b)
        = mkRGB (cube_level r) (cube_level g) (cube_level b))
  /\ (forall i, 0 <= i < 24 ->
        palette_at (232 + i) = mkRGB (8 + 10 * i) (8 + 10 * i) (8 + 10 * i))
  /\ (forall i, 0 <= i < 256 ->
        is_byte (ColorLut.r (palette_at i)) /\ is_byte (ColorLut.g (palette_at i))
        /\ is_byte (ColorLut.b (palette_at i))).
Proof.
  split; [vm_compute; reflexivity |]. split; [reflexivity |].
  split; [| split; [| split]].
  - intros i Hi.
    assert (H : forallb (fun i => rgb_eqb (palette_at i)
                                    (nth (Z.to_nat i) ANSI_BASE_COLORS (mkRGB 0 0 0)))
                        (seqZ 0 16) = true) by (vm_compute; reflexivity).
    apply ColorLutFacts.rgb_eqb_eq. exact (forallb_seqZ _ _ _ H Hi).
  - intros r g b Hr Hg Hb.
    destruct (below_6 r Hr) as [-> | [-> | [-> | [-> | [-> | ->]]]]];
      destruct (below_6 g Hg) as [-> | [-> | [-> | [-> | [-> | ->]]]]];
      destruct (below_6 b Hb) as [-> | [-> | [-> | [-> | [-> | ->]]]]];
      reflexivity.
  - intros i Hi.
    assert (H : forallb (fun i => rgb_eqb (palette_at (232 + i))
                                    (mkRGB (8 + 10 * i) (8 + 10 * i) (8 + 10 * i)))
                        (seqZ 0 24) = true) by (vm_compute; reflexivity).
    apply ColorLutFacts.rgb_eqb_eq. exact (forallb_seqZ _ _ _ H Hi).
  - exact palette_bytes.
Qed.

(** *** The nearest entry *)

Lemma palette_dist_bounds (r g b i : Z) :
  is_byte r -> is_byte g -> is_byte b -> 0 <= i < 256 ->
  0 <= palette_dist r g b i <= 195075.
Proof.
  intros Hr Hg Hb Hi. destruct (palette_bytes i Hi) as (Pr & Pg & Pb).
  unfold palette_dist, is_byte in *. cbv zeta.
  set (dr := ColorLut.r (palette_at i) - r).
  set (dg := ColorLut.g (palette_at i) - g).
  set (db := ColorLut.b (palette_at i) - b).
  assert (Hdr : -255 <= dr <= 255) by (subst dr; lia).
  assert (Hdg : -255 <= dg <= 255) by (subst dg; lia).
  assert (Hdb : -255 <= db <= 255) by (subst db; lia).
  clearbody dr dg db.
  assert (0 <= dr * dr <= 65025) by nia.
  assert (0 <= dg * dg <= 65025) by nia.
  assert (0 <= db * db <= 65025) by nia.
  lia.
Qed.

Lemma xterm_index_step_dist (r g b i : Z) (st : Best) :
  xterm_index_step r g b i st
  = if palette_dist r g b i <? bestDist st then mkBest i (palette_dist r g b i) else st.
Proof. reflexivity. Qed.

(** What the loop of [xterm_index_from_rgb] has found after [i] entries. *)
Lemma xterm_index_loop (r g b : Z) :
  is_byte r -> is_byte g -> is_byte b ->
  exists st,
    xterm_index_from_rgb r g b = bestIndex st
    /\ 0 <= bestIndex st < 256
    /\ bestDist st = palette_dist r g b (bestIndex st)
    /\ (forall j, 0 <= j < 256 -> bestDist st <= palette_dist r g b j)
    /\ (forall j, 0 <= j < bestIndex st -> bestDist st < palette_dist r g b j).
Proof.
  intros Hr Hg Hb.
  pose (P := fun (i : Z) (st : Best) =>
       (i = 0 /\ st = mkBest 0 INT_MAX)
       \/ (0 < i /\ 0 <= bestIndex st < i
           /\ bestDist st = palette_dist r g b (bestIndex st)
           /\ (forall j, 0 <= j < i -> bestDist st <= palette_dist r g b j)
           /\ (forall j, 0 <= j < bestIndex st -> bestDist st < palette_dist r g b j))).
  assert (Hinv : P 256 (for_loop 256 (xterm_index_step r g b) (mkBest 0 INT_MAX))).
  { apply (for_loop_ind P); unfold P.
    - lia.
    - left. split; reflexivity.
    - intros i s Hi Hs. right. rewrite xterm_index_step_dist.
      pose proof (palette_dist_bounds r g b i Hr Hg Hb Hi) as Hd.
      destruct Hs as [[-> ->] | (Hpos & Hk & Hbest & Hall & Hfirst)].
      + cbn [bestDist].
        assert (E : (palette_dist r g b 0 <? INT_MAX) = true)
          by (apply Z.ltb_lt; unfold INT_MAX; lia).
        rewrite E. cbn [bestIndex bestDist].
        split; [lia |]. split; [lia |]. split; [reflexivity |].
        split; intros j Hj; [| lia]. replace j with 0 by lia. lia.
      + destruct (palette_dist r g b i <? bestDist s) eqn:E.
        * apply Z.ltb_lt in E. cbn [bestIndex bestDist].
          split; [lia |]. split; [lia |]. split; [reflexivity |].
          split; intros j Hj.
          -- destruct (Z.eq_dec j i) as [-> | Hne]; [lia |].
             specialize (Hall j ltac:(lia)). lia.
          -- specialize (Hall j ltac:(lia)). lia.
        * apply Z.ltb_ge in E.
          split; [lia |]. split; [lia |]. split; [exact Hbest |].
          split; intros j Hj.
          -- destruct (Z.eq_dec j i) as [-> | Hne]; [lia |].
             apply Hall. lia.
          -- apply Hfirst. exact Hj. }
  exists (for_loop 256 (xterm_index_step r g b) (mkBest 0 INT_MAX)).
  split; [reflexivity |].
  revert Hinv. generalize (for_loop 256 (xterm_index_step r g b) (mkBest 0 INT_MAX)).
  intros st Hinv. unfold P in Hinv.
  destruct Hinv as [[H _] | (_ & Hk & Hbest & Hall & Hfirst)]; [lia |].
  split; [exact Hk |]. split; [exact Hbest |]. split; assumption.
Qed.

Lemma xterm_index_nearest (r g b : Z) :
  is_byte r -> is_byte g -> is_byte b ->
  0 <= xterm_index_from_rgb r g b < 256
  /\ (forall j, 0 <= j < 256 ->
        palette_dist r g b (xterm_index_from_rgb r g b) <= palette_dist r g b j)
  /\ (forall j, 0 <= j < xterm_index_from_rgb r g b ->
        palette_dist r g b (xterm_index_from_rgb r g b) < palette_dist r g b j).
Proof.
  intros Hr Hg Hb.
  destruct (xterm_index_loop r g b Hr Hg Hb) as (st & -> & Hk & Hbest & Hall & Hfirst).
  revert Hk Hbest Hall Hfirst. generalize (bestIndex st) as k. generalize (bestDist st) as d.
  intros d k Hk -> Hall Hfirst. split; [exact Hk |]. split; assumption.
Qed.

Lemma square_sum_zero (x y z : Z) : x * x + y * y + z * z = 0 -> x = 0 /\ y = 0 /\ z = 0.
Proof. intros H. nia. Qed.

(** The entry found for a color is found again for its own color. *)
Lemma xterm_index_stable (r g b : Z) :
  is_byte r -> is_byte g -> is_byte b ->
  xterm_index_from_rgb (ColorLut.r (palette_at (xterm_index_from_rgb r g b)))
                       (ColorLut.g (palette_at (xterm_index_from_rgb r g b)))
                       (ColorLut.b (palette_at (xterm_index_from_rgb r g b)))
  = xterm_index_from_rgb r g b.
Proof.
  intros Hr Hg Hb.
  pose proof (xterm_index_nearest r g b Hr Hg Hb) as H.
  revert H. generalize (xterm_index_from_rgb r g b) as k. intros k (Hk & Hall & Hfirst).
  destruct (palette_bytes k Hk) as (Pr & Pg & Pb).
  pose proof (xterm_index_nearest _ _ _ Pr Pg Pb) as H.
  pose proof (fun j => palette_dist_bounds _ _ _ j Pr Pg Pb) as Hbounds.
  assert (Hself : palette_dist (ColorLut.r (palette_at k)) (ColorLut.g (palette_at k))
                               (ColorLut.b (palette_at k)) k = 0).
  { unfold palette_dist. cbv zeta. rewrite !Z.sub_diag. reflexivity. }
  assert (Hsame : forall j,
            palette_dist (ColorLut.r (palette_at k)) (ColorLut.g (palette_at k))
                         (ColorLut.b (palette_at k)) j = 0 ->
            palette_dist r g b j = palette_dist r g b k).
  { intros j Hzero. unfold palette_dist in Hzero |- *. cbv zeta in Hzero |- *.
    apply square_sum_zero in Hzero. destruct Hzero as (E1 & E2 & E3).
    replace (ColorLut.r (palette_at j)) with (ColorLut.r (palette_at k)) by lia.
    replace (ColorLut.g (palette_at j)) with (ColorLut.g (palette_at k)) by lia.
    replace (ColorLut.b (palette_at j)) with (ColorLut.b (palette_at k)) by lia.
    reflexivity. }
  revert H Hbounds Hself Hsame.
  generalize (palette_dist (ColorLut.r (palette_at k)) (ColorLut.g (palette_at k))
                           (ColorLut.b (palette_at k))) as dk.
  generalize (xterm_index_from_rgb (ColorLut.r (palette_at k)) (ColorLut.g (palette_at k))
                                   (ColorLut.b (palette_at k))) as k'.
  intros k' dk (Hk' & Hall' & Hfirst') Hbounds Hself Hsame.
  pose proof (Hall' k Hk) as Hle. rewrite Hself in Hle.
  pose proof (Hbounds k' Hk') as Hb'.
  assert (Hzero : dk k' = 0) by lia.
  pose proof (Hsame k' Hzero) as Heq.
  destruct (Z.lt_trichotomy k' k) as [Hlt | [E | Hgt]]; [| exact E |].
  - specialize (Hfirst k' ltac:(lia)). lia.
  - specialize (Hfirst' k ltac:(lia)). lia.
Qed.

(** X3: for every color of three bytes, [xterm_index_from_rgb] returns an index
    in 0..255 whose palette entry is nearest to the color in squared Euclidean
    distance, and among the nearest entries the one with the smallest index;
    looking up the color of that entry returns the same index again. *)
Theorem xterm_index_is_first_nearest (r g b : Z) :
  is_byte r -> is_byte g -> is_byte b ->
  0 <= xterm_index_from_rgb r g b < 256
  /\ (forall j, 0 <= j < 256 ->
        palette_dist r g b (xterm_index_from_rgb r g b) <= palette_dist r g b j)
  /\ (forall j, 0 <= j < xterm_index_from_rgb r g b ->
        palette_dist r g b (xterm_index_from_rgb r g b) < palette_dist r g b j)
  /\ xterm_index_from_rgb (ColorLut.r (palette_at (xterm_index_from_rgb r g b)))
                          (ColorLut.g (palette_at (xterm_index_from_rgb r g b)))
                          (ColorLut.b (palette_at (xterm_index_from_rgb r g b)))
     = xterm_index_from_rgb r g b.
Proof.
  intros Hr Hg Hb.
  destruct (xterm_index_nearest r g b Hr Hg Hb) as (Hk & Hall & Hfirst).
  split; [exact Hk |]. split; [exact Hall |]. split; [exact Hfirst |].
  apply xterm_index_stable; assumption.
Qed.

Lemma xterm_index_is_first_nearest_witness :
  0 <= xterm_index_from_rgb 200 10 10 < 256
  /\ (forall j, 0 <= j < 256 ->
        palette_dist 200 10 10 (xterm_index_from_rgb 200 10 10) <= palette_dist 200 10 10 j).
Proof.
  destruct (xterm_index_is_first_nearest 200 10 10) as (Hk & Hall & _);
    [unfold is_byte; lia | unfold is_byte; lia | unfold is_byte; lia |].
  split; [exact Hk | exact Hall].
Defined.

(** *** The contrast curve *)

Lemma byte_inject (v : Z) : is_byte v -> (0 <= inject_Z v /\ inject_Z v <= 255)%Q.
Proof.
  intros [H0 H1]. split.
  - change 0%Q with (inject_Z 0). rewrite <- Zle_Qle. exact H0.
  - change 255%Q with (inject_Z 255). rewrite <- Zle_Qle. exact H1.
Qed.

Lemma clampQ_cases (v lo hi : Q) :
  (lo <= hi)%Q ->
  ((v < lo)%Q /\ clampQ v lo hi = lo)
  \/ ((hi < v)%Q /\ clampQ v lo hi = hi)
  \/ ((lo <= v)%Q /\ (v <= hi)%Q /\ clampQ v lo hi = v).
Proof.
  intros Hlh. unfold clampQ. destruct (Qltb v lo) eqn:E1.
  - left. apply Qltb_lt in E1. split; [exact E1 | reflexivity].
  - apply Qltb_ge in E1. destruct (Qltb hi v) eqn:E2.
    + right. left. apply Qltb_lt in E2. split; [exact E2 | reflexivity].
    + right. right. apply Qltb_ge in E2. repeat split; assumption.
Qed.

Lemma clampQ_mono (v1 v2 lo hi : Q) :
  (lo <= hi)%Q -> (v1 <= v2)%Q -> (clampQ v1 lo hi <= clampQ v2 lo hi)%Q.
Proof.
  intros Hlh Hv.
  destruct (clampQ_cases v1 lo hi Hlh) as [[H1 ->] | [[H1 ->] | (H1 & H1' & ->)]];
    destruct (clampQ_cases v2 lo hi Hlh) as [[H2 ->] | [[H2 ->] | (H2 & H2' & ->)]];
    lra.
Qed.

(** X5: for finite values and a finite contrast, [apply_contrast] maps every
    value into [0, 1]; it leaves mid-gray 0.5 where it is for every contrast;
    and for a contrast that is not negative it is monotone in the value. *)
Theorem apply_contrast_curve :
  (forall v c, (0 <= apply_contrast v c /\ apply_contrast v c <= 1)%Q)
  /\ (forall c, (apply_contrast (1 # 2) c == 1 # 2)%Q)
  /\ (forall v1 v2 c, (0 <= c)%Q -> (v1 <= v2)%Q ->
        (apply_contrast v1 c <= apply_contrast v2 c)%Q).
Proof.
  split; [| split].
  - intros v c. unfold apply_contrast. cbv zeta. apply clampQ_bounds. discriminate.
  - intros c. unfold apply_contrast. cbv zeta.
    destruct (clampQ_cases (((1 # 2) - (1 # 2)) * c + (1 # 2)) 0 1 ltac:(discriminate))
      as [[H ->] | [[H ->] | (_ & _ & ->)]]; lra.
  - intros v1 v2 c Hc Hv. unfold apply_contrast. cbv zeta.
    apply clampQ_mono; [discriminate |].
    apply Qplus_le_l. apply Qmult_le_compat_r; [lra | exact Hc].
Qed.

Lemma apply_contrast_curve_witness :
  (apply_contrast (1 # 4) 2 <= apply_contrast (3 # 4) 2)%Q.
Proof.
  destruct apply_contrast_curve as (_ & _ & Hmono).
  apply Hmono; discriminate.
Defined.

(** *** The Bayer matrices *)

Lemma threshold_range (d : DitherMode) (i : nat) :
  (0 <= nth i (thresholds (bayer_matrix d)) 0 /\ nth i (thresholds (bayer_matrix d)) 0 < 1)%Q.
Proof.
  destruct (nth_in_or_default i (thresholds (bayer_matrix d)) 0%Q) as [Hin | ->];
    [| split; [discriminate | reflexivity]].
  revert Hin. generalize (nth i (thresholds (bayer_matrix d)) 0%Q) as t.
  intros t Hin. destruct d; simpl in Hin;
    repeat (destruct Hin as [<- | Hin]; [split; [discriminate | reflexivity] |]);
    contradiction.
Qed.

(** X6: every Bayer matrix holds size * size thresholds, each in [0, 1); for a
    cell at a row and a column that are not negative the index
    (row % size) * size + (col % size) that [sampleCell] reads is inside the
    matrix, and it repeats with period size in both directions. *)
Theorem bayer_lookup_in_range (d : DitherMode) (row col : Z) :
  0 <= row -> 0 <= col ->
  let m := bayer_matrix d in
  length (thresholds m) = Z.to_nat (size m * size m)
  /\ 0 <= threshold_index m row col < size m * size m
  /\ (exists t, thresholds m !! Z.to_nat (threshold_index m row col) = Some t
                /\ (0 <= t)%Q /\ (t < 1)%Q)
  /\ threshold_index m (row + size m) col = threshold_index m row col
  /\ threshold_index m row (col + size m) = threshold_index m row col.
Proof.
  intros Hrow Hcol m.
  assert (Hsize : 0 < size m) by (subst m; destruct d; simpl; lia).
  assert (Hlen : length (thresholds m) = Z.to_nat (size m * size m))
    by (subst m; destruct d; reflexivity).
  pose proof (Z.rem_bound_pos row (size m) Hrow Hsize) as Hr.
  pose proof (Z.rem_bound_pos col (size m) Hcol Hsize) as Hc.
  assert (Hidx : 0 <= threshold_index m row col < size m * size m).
  { unfold threshold_index. nia. }
  split; [exact Hlen |]. split; [exact Hidx |]. split; [| split].
  - destruct (lookup_lt_is_Some_2 (thresholds m) (Z.to_nat (threshold_index m row col)))
      as [t Ht]; [rewrite Hlen; lia |].
    exists t. split; [exact Ht |].
    rewrite <- (nth_lookup_Some _ _ 0%Q _ Ht). subst m. apply threshold_range.
  - unfold threshold_index. f_equal. f_equal.
    rewrite !Z.rem_mod_nonneg by lia.
    rewrite <- (Z.mul_1_l (size m)) at 1. apply Z.mod_add. lia.
  - unfold threshold_index. f_equal.
    rewrite !Z.rem_mod_nonneg by lia.
    rewrite <- (Z.mul_1_l (size m)) at 1. apply Z.mod_add. lia.
Qed.

Lemma bayer_lookup_in_range_witness :
  0 <= threshold_index (bayer_matrix Bayer4) 7 5 < 16.
Proof.
  destruct (bayer_lookup_in_range Bayer4 7 5) as (_ & H & _); [lia | lia | exact H].
Defined.

End ColorFacts.

(** ** ascii_renderer.cpp, main.cpp, pipeline.cpp: what the keys can change *)

Module ConfigFacts.
Import ColorLut Renderer Control.

(** X7: [cycleMode] and [cycleDither] have period three (Gray, ANSI256,
    TrueColor; Off, Bayer2, Bayer4): three calls return to the configuration
    one started from, one or two calls never do; each changes its own field
    only, and the two commute. *)
Theorem cycles_have_period_three (c : RendererConfig) :
  cycleMode (cycleMode (cycleMode c)) = c
  /\ cycleDither (cycleDither (cycleDither c)) = c
  /\ mode (cycleMode c) <> mode c /\ mode (cycleMode (cycleMode c)) <> mode c
  /\ dither (cycleDither c) <> dither c /\ dither (cycleDither (cycleDither c)) <> dither c
  /\ cycleMode c = with_mode (mode (cycleMode c)) c
  /\ mode (cycleDither c) = mode c
  /\ cycleMode (cycleDither c) = cycleDither (cycleMode c).
Proof.
  destruct c as [m d hb gc gr ga co].
  destruct m, d; repeat split; discriminate.
Qed.

Lemma handle_key_grid (key : ascii) (c : RendererConfig) :
  gridCols (handle_key key c) = gridCols c
  /\ gridRows (handle_key key c) = gridRows c
  /\ halfBlock (handle_key key c) = halfBlock c.
Proof.
  unfold handle_key.
  repeat match goal with
         | |- context [if ?t then _ else _] => destruct t
         end;
    try (repeat split; reflexivity).
  - unfold cycleMode. destruct (mode c); repeat split; reflexivity.
  - unfold cycleDither. destruct (dither c); repeat split; reflexivity.
Qed.

Lemma handle_keys_grid (keys : list ascii) (c : RendererConfig) :
  gridCols (handle_keys keys c) = gridCols c
  /\ gridRows (handle_keys keys c) = gridRows c
  /\ halfBlock (handle_keys keys c) = halfBlock c.
Proof.
  revert c. induction keys as [|k keys IH]; intros c; [repeat split; reflexivity |].
  unfold handle_keys in *. simpl. destruct (IH (handle_key k c)) as (E1 & E2 & E3).
  destruct (handle_key_grid k c) as (F1 & F2 & F3).
  rewrite E1, E2, E3. repeat split; assumption.
Qed.

(** The grid a command line leaves in the options: absent, or positive. *)
Lemma parse_arg_grid (a : Arg) (opts opts' : CommandLineOptions) :
  parse_arg a opts = Some opts' ->
  (forall w h, opt_grid opts = Some (w, h) -> 0 < w /\ 0 < h) ->
  forall w h, opt_grid opts' = Some (w, h) -> 0 < w /\ 0 < h.
Proof.
  intros Hparse Hok w h. destruct a; simpl in Hparse;
    try (injection Hparse as <-; simpl; apply Hok).
  destruct ((w0 <=? 0) || (h0 <=? 0)) eqn:E; [discriminate |].
  injection Hparse as <-. simpl. intros Heq. injection Heq as <- <-.
  apply orb_false_iff in E. destruct E as [E1 E2].
  apply Z.leb_gt in E1. apply Z.leb_gt in E2. split; assumption.
Qed.

Lemma parseArgs_from_grid (args : list Arg) (opts opts' : CommandLineOptions) :
  parseArgs_from args opts = Some opts' ->
  (forall w h, opt_grid opts = Some (w, h) -> 0 < w /\ 0 < h) ->
  forall w h, opt_grid opts' = Some (w, h) -> 0 < w /\ 0 < h.
Proof.
  revert opts. induction args as [|a args IH]; intros opts Hparse Hok; simpl in Hparse.
  - injection Hparse as <-. exact Hok.
  - destruct (parse_arg a opts) as [opts1|] eqn:E; [| discriminate].
    apply (IH opts1 Hparse). exact (parse_arg_grid a opts opts1 E Hok).
Qed.

(** X8: every renderer configuration a run can reach has a grid of at least one
    column and one row: [parseDimension] rejects a [--grid] with a part that is
    not positive, the default is 120x60, and no key changes the grid or the
    half-block switch.  So the divisions by [gridCols] and [gridRows] in
    [render] never divide by zero. *)
Theorem reachable_grid_is_positive (c : RendererConfig) :
  reachable c ->
  0 < gridCols c /\ 0 < gridRows c
  /\ forall keys, gridCols (handle_keys keys c) = gridCols c
                  /\ gridRows (handle_keys keys c) = gridRows c
                  /\ halfBlock (handle_keys keys c) = halfBlock c.
Proof.
  intros R.
  assert (Hpos : 0 < gridCols c /\ 0 < gridRows c).
  { induction R as [args opts Hparse _ | key c R IH].
    - pose proof (parseArgs_from_grid args default_options opts Hparse) as H.
      unfold initialize, configure, renderer_of_options. cbn [gridCols gridRows].
      destruct (opt_grid opts) as [[w h]|].
      + apply (H ltac:(discriminate) w h). reflexivity.
      + simpl. lia.
    - destruct (handle_key_grid key c) as (E1 & E2 & _). rewrite E1, E2. exact IH. }
  destruct Hpos as [Hc Hr]. split; [exact Hc |]. split; [exact Hr |].
  intros keys. apply handle_keys_grid.
Qed.

Lemma reachable_grid_is_positive_witness :
  0 < gridCols (handle_key "c" (initialize (mkOptions ANSI256 (Some (80, 24)) false Bayer4
                                                      (22 # 10) 1))).
Proof.
  destruct (reachable_grid_is_positive
              (handle_key "c" (initialize (mkOptions ANSI256 (Some (80, 24)) false Bayer4
                                                     (22 # 10) 1)))) as [H _];
    [| exact H].
  apply reach_key. apply (reach_start _ [ArgGrid 80 24]); [reflexivity | exact I].
Defined.

End ConfigFacts.

(** ** ascii_renderer.cpp: what sampleCell reads and what it returns *)

Module SamplingFacts.
Import ColorLut Renderer.

Lemma clamped_pixel_in_frame (width height v w : Z) :
  0 < width -> 0 < height ->
  let yy := clampZ v 0 (height - 1) in
  let xx := clampZ w 0 (width - 1) in
  0 <= yy * width + xx < width * height.
Proof.
  intros Hw Hh yy xx.
  pose proof (RendererFacts.clampZ_bounds v 0 (height - 1) ltac:(lia)) as Hy.
  pose proof (RendererFacts.clampZ_bounds w 0 (width - 1) ltac:(lia)) as Hx.
  fold yy in Hy. fold xx in Hx. clearbody yy xx.
  assert (H1 : 0 <= yy * width) by (apply Z.mul_nonneg_nonneg; lia).
  assert (H2 : yy * width <= (height - 1) * width)
    by (apply Z.mul_le_mono_nonneg_r; lia).
  replace ((height - 1) * width) with (width * height - width) in H2 by ring.
  lia.
Qed.

Lemma sample_loops_agree rgb1 rgb2 width height startX startY cellWidth cellHeight :
  0 < width -> 0 < height ->
  frame_bytes_agree width height rgb1 rgb2 ->
  sample_loops rgb1 width height startX startY cellWidth cellHeight
  = sample_loops rgb2 width height startX startY cellWidth cellHeight.
Proof.
  intros Hw Hh Hagree. unfold sample_loops.
  apply (for_loop_rel eq); [reflexivity |]. intros y a a' _ <-. cbv zeta.
  apply (for_loop_rel eq); [reflexivity |]. intros x c c' _ <-.
  pose proof (clamped_pixel_in_frame width height (startY + y) (startX + x) Hw Hh) as Hp.
  cbv zeta in Hp. unfold sample_pixel. cbv zeta.
  rewrite !(Hagree _) by lia. reflexivity.
Qed.

(** X9: [sampleCell] reads the frame buffer only at offsets below
    width * height * 3, wherever the cell lies and however large it is (the
    coordinates are clamped into the frame): two buffers that agree on these
    offsets give the same cell. *)
Theorem sampleCell_reads_inside_frame (powf : Q -> Q -> Q) (c : RendererConfig)
    (rgb1 rgb2 : list Z) (width height startX startY cellWidth cellHeight row col : Z) :
  0 < width -> 0 < height ->
  frame_bytes_agree width height rgb1 rgb2 ->
  sampleCell powf c rgb1 width height startX startY cellWidth cellHeight row col
  = sampleCell powf c rgb2 width height startX startY cellWidth cellHeight row col.
Proof.
  intros Hw Hh Hagree. unfold sampleCell.
  rewrite (sample_loops_agree rgb1 rgb2 width height startX startY cellWidth cellHeight
             Hw Hh Hagree).
  reflexivity.
Qed.

Lemma sampleCell_reads_inside_frame_witness :
  sampleCell pow_exponent_one plain_gray [200; 10; 10] 1 1 5 (-3) 4 4 0 0
  = sampleCell pow_exponent_one plain_gray [200; 10; 10; 77; 88] 1 1 5 (-3) 4 4 0 0.
Proof.
  apply sampleCell_reads_inside_frame; [lia | lia |].
  intros i Hi.
  assert (H : i = 0 \/ i = 1 \/ i = 2) by lia.
  destruct H as [-> | [-> | ->]]; reflexivity.
Defined.

(** *** A frame of one color *)

(** The sums over a rectangle of a frame of one color. *)
Lemma sample_loops_uniform rgb width height startX startY cellWidth cellHeight r g b :
  0 < width -> 0 < height -> 0 <= cellWidth -> 0 <= cellHeight ->
  uniform_frame rgb width height r g b ->
  let a := sample_loops rgb width height startX startY cellWidth cellHeight in
  count a = cellHeight * cellWidth
  /\ (accumR a == inject_Z (count a) * inject_Z r)%Q
  /\ (accumG a == inject_Z (count a) * inject_Z g)%Q
  /\ (accumB a == inject_Z (count a) * inject_Z b)%Q.
Proof.
  intros Hw Hh Hcw Hch Huni. cbv zeta.
  pose (J := fun a : Accum =>
    (accumR a == inject_Z (count a) * inject_Z r)%Q
    /\ (accumG a == inject_Z (count a) * inject_Z g)%Q
    /\ (accumB a == inject_Z (count a) * inject_Z b)%Q).
  pose (P := fun (y : Z) (a : Accum) => count a = y * cellWidth /\ J a).
  assert (Hinv : P cellHeight
                   (sample_loops rgb width height startX startY cellWidth cellHeight)).
  { unfold sample_loops. apply (for_loop_ind P); [exact Hch | |].
    - unfold P, J. cbn [count accumR accumG accumB accumLuma].
      split; [ring |]. repeat split; ring.
    - intros y a Hy [Hcount HJ]. cbv zeta.
      pose (P2 := fun (x : Z) (a : Accum) => count a = y * cellWidth + x /\ J a).
      assert (Hrow : P2 cellWidth
        (for_loop cellWidth
           (fun x a => sample_pixel rgb width (clampZ (startY + y) 0 (height - 1))
                         (clampZ (startX + x) 0 (width - 1)) a) a)).
      { apply (for_loop_ind P2); [exact Hcw | |].
        - unfold P2. split; [lia | exact HJ].
        - intros x a' Hx [Hc' (HR & HG & HB)].
          pose proof (clamped_pixel_in_frame width height (startY + y) (startX + x) Hw Hh)
            as Hp.
          cbv zeta in Hp. destruct (Huni _ Hp) as (E0 & E1 & E2).
          unfold P2, J, sample_pixel. cbv zeta.
          cbn [count accumR accumG accumB accumLuma].
          rewrite E0, E1, E2. split; [lia |].
          rewrite inject_Z_plus. rewrite HR, HG, HB.
          change (inject_Z 1) with 1%Q.
          repeat split; ring. }
      destruct Hrow as [Hc' HJ']. split; [| exact HJ']. rewrite Hc'. ring. }
  destruct Hinv as [Hcount HJ]. split; [exact Hcount | exact HJ].
Qed.

Lemma average_of_uniform (n : Z) (q s : Q) :
  0 < n -> (s == inject_Z n * q)%Q -> (s / inject_Z (Z.max 1 n) == q)%Q.
Proof.
  intros Hn Hs. rewrite Z.max_r by lia. rewrite Hs. field.
  intros H. unfold Qeq in H. simpl in H. lia.
Qed.

Lemma Qtrunc_u8_floor (q : Q) :
  (0 <= q)%Q -> (q <= 255)%Q -> Qtrunc_u8 q = Qfloor q /\ is_byte (Qfloor q).
Proof.
  intros H0 H1. unfold Qtrunc_u8. rewrite (Qtrunc_nonneg_floor q H0).
  pose proof (Qfloor_resp_le _ _ H0) as F0.
  pose proof (Qfloor_resp_le _ _ H1) as F1.
  change (Qfloor 0) with 0 in F0. change (Qfloor 255) with 255 in F1.
  split; [apply Z.mod_small; lia | unfold is_byte; lia].
Qed.

Lemma Qtrunc_u8_of_byte (q : Q) (v : Z) :
  is_byte v -> (q == inject_Z v)%Q -> Qtrunc_u8 q = v.
Proof.
  intros Hv Hq. destruct (ColorFacts.byte_inject v Hv) as [H0 H1].
  destruct (Qtrunc_u8_floor q) as [E _]; [rewrite Hq; exact H0 | rewrite Hq; exact H1 |].
  rewrite E, Hq. apply Qfloor_Z.
Qed.

(** The cell sampled from a rectangle of a frame of one color, outside Gray
    mode. *)
Lemma sampleCell_uniform (powf : Q -> Q -> Q) (c : RendererConfig) (rgb : list Z)
    (width height startX startY cellWidth cellHeight row col r g b : Z) :
  0 < width -> 0 < height -> 0 < cellWidth -> 0 < cellHeight ->
  is_byte r -> is_byte g -> is_byte b ->
  uniform_frame rgb width height r g b ->
  mode c <> Gray ->
  fg (sampleCell powf c rgb width height startX startY cellWidth cellHeight row col)
  = uniform_color (mode c) r g b.
Proof.
  intros Hw Hh Hcw Hch Hr Hg Hb Huni Hmode.
  pose proof (sample_loops_uniform rgb width height startX startY cellWidth cellHeight
                r g b Hw Hh ltac:(lia) ltac:(lia) Huni) as H.
  cbv zeta in H. unfold sampleCell. cbv zeta.
  revert H. generalize (sample_loops rgb width height startX startY cellWidth cellHeight).
  intros a (Hcount & HR & HG & HB).
  assert (Hn : 0 < count a) by (rewrite Hcount; apply Z.mul_pos_pos; lia).
  pose proof (Qtrunc_u8_of_byte _ r Hr (average_of_uniform _ _ _ Hn HR)) as ER.
  pose proof (Qtrunc_u8_of_byte _ g Hg (average_of_uniform _ _ _ Hn HG)) as EG.
  pose proof (Qtrunc_u8_of_byte _ b Hb (average_of_uniform _ _ _ Hn HB)) as EB.
  destruct (mode c); cbn [fg uniform_color].
  - contradiction.
  - rewrite ER, EG, EB. reflexivity.
  - rewrite ER, EG, EB. reflexivity.
Qed.

(** X10: a frame whose pixels all have one color (r, g, b) renders in
    TrueColor and ANSI256 mode to cells of one foreground, on any positive grid
    whose cells hold at most 65793 pixels (the sums of the bytes of a cell then
    stay at or below 2^24, where the float sums and their average are exact) and
    for any finite gamma and contrast and any dither: (r, g, b) itself in
    TrueColor mode, the nearest palette entry in ANSI256 mode.  With half blocks
    the background of every cell is that same color, without them it is 0. *)
Theorem uniform_frame_renders_one_color (powf : Q -> Q -> Q) (cfg : RendererConfig)
    (frame : VideoFrame) (r g b : Z) :
  0 < gridCols cfg -> 0 < gridRows cfg ->
  0 < width frame -> 0 < height frame ->
  length (data frame) = Z.to_nat (width frame * height frame * 3) ->
  cellWidth_of cfg frame * cellHeight_of cfg frame <= 65793 ->
  is_byte r -> is_byte g -> is_byte b ->
  uniform_frame (data frame) (width frame) (height frame) r g b ->
  mode cfg <> Gray ->
  let color := uniform_color (mode cfg) r g b in
  Forall (fun cell => fg cell = color /\ bg cell = if halfBlock cfg then color else 0)
         (cells (render powf cfg frame)).
Proof.
  intros Hc Hr Hw Hh _ _ Br Bg Bb Huni Hmode color. apply List.Forall_forall.
  intros cell Hin.
  unfold render in Hin. cbn [cells] in Hin.
  apply RendererFacts.render_cells_elements in Hin; [| lia | lia].
  destruct Hin as (y & x & _ & _ & ->).
  assert (Hcw : 0 < cellWidth_of cfg frame) by (unfold cellWidth_of; lia).
  assert (Hch : 0 < cellHeight_of cfg frame) by (unfold cellHeight_of; lia).
  unfold render_cell. cbv zeta. destruct (halfBlock cfg); cbn [fg bg].
  - rewrite !(sampleCell_uniform powf cfg (data frame) (width frame) (height frame)
                _ _ _ _ _ _ r g b Hw Hh Hcw Hch Br Bg Bb Huni Hmode).
    split; reflexivity.
  - rewrite (sampleCell_uniform powf cfg (data frame) (width frame) (height frame)
               _ _ _ _ _ _ r g b Hw Hh Hcw Hch Br Bg Bb Huni Hmode).
    split; [reflexivity | apply RendererFacts.sampleCell_bg].
Qed.

Lemma uniform_frame_renders_one_color_witness :
  Forall (fun cell => fg cell = pack_rgb 200 10 10 /\ bg cell = 0)
         (cells (render pow_exponent_one truecolor_1x2 two_red_pixels)).
Proof.
  apply (uniform_frame_renders_one_color pow_exponent_one truecolor_1x2 two_red_pixels
           200 10 10).
  - simpl; lia.
  - simpl; lia.
  - simpl; lia.
  - simpl; lia.
  - reflexivity.
  - vm_compute. discriminate.
  - unfold is_byte; lia.
  - unfold is_byte; lia.
  - unfold is_byte; lia.
  - intros p Hp. simpl in Hp.
    assert (H : p = 0 \/ p = 1) by lia.
    destruct H as [-> | ->]; repeat split; reflexivity.
  - simpl. discriminate.
Defined.

(** *** The shape of a rendered frame *)

Lemma glyph_choices_ramp (gl : string) : In gl glyph_choices -> one_ramp_glyph gl.
Proof.
  intros [<- | Hin].
  - exists "#"%char. split; [| reflexivity]. simpl. tauto.
  - apply in_map_iff in Hin. destruct Hin as (ch & <- & Hch).
    exists ch. split; [exact Hch | reflexivity].
Qed.



(** *** The dither mode *)

Lemma sampleCell_ignores_dither (powf : Q -> Q -> Q) (c : RendererConfig) (d : DitherMode)
    (rgb : list Z) (width height startX startY cellWidth cellHeight row col : Z) :
  mode c <> ANSI256 ->
  sampleCell powf (with_dither d c) rgb width height startX startY cellWidth cellHeight
             row col
  = sampleCell powf c rgb width height startX startY cellWidth cellHeight row col.
Proof.
  intros Hmode. unfold sampleCell, with_dither. cbn [mode dither gamma contrast].
  destruct (mode c); [reflexivity | congruence | reflexivity].
Qed.

(** The value compared with the threshold is at most 1. *)
Lemma normalized_at_most_one (powf : Q -> Q -> Q) (v ga co : Q) :
  (apply_contrast (apply_gamma powf v ga) co <= 1)%Q.
Proof. unfold apply_contrast. cbv zeta. apply clampQ_bounds. discriminate. Qed.

(** X12: the dither mode has an effect in ANSI256 mode only.  In Gray and
    TrueColor mode [render] returns the same frame, byte string included,
    whatever the dither mode; and in ANSI256 mode with dither Off the glyph is
    never replaced by '#': it is the ramp glyph of the other modes. *)
Theorem dither_matters_in_ansi256_only (powf : Q -> Q -> Q) (c : RendererConfig) :
  (mode c <> ANSI256 ->
   forall d frame, render powf (with_dither d c) frame = render powf c frame)
  /\ (dither c = Off ->
      forall m rgb width height startX startY cellWidth cellHeight row col,
        glyph (sampleCell powf c rgb width height startX startY cellWidth cellHeight
                          row col)
        = glyph (sampleCell powf (Control.with_mode m c) rgb width height startX startY
                            cellWidth cellHeight row col)).
Proof.
  split.
  - intros Hmode d frame. unfold render. cbv zeta.
    assert (Hcells : render_cells powf (with_dither d c) frame = render_cells powf c frame).
    { unfold render_cells. cbv zeta. cbn [gridRows gridCols with_dither].
      apply (for_loop_rel eq); [reflexivity |]. intros y l l' _ <-.
      apply (for_loop_rel eq); [reflexivity |]. intros x l1 l1' _ <-.
      f_equal. unfold render_cell. cbn [halfBlock with_dither].
      change (cellWidth_of (with_dither d c) frame) with (cellWidth_of c frame).
      change (cellHeight_of (with_dither d c) frame) with (cellHeight_of c frame).
      fold (with_dither d c).
      rewrite !sampleCell_ignores_dither by exact Hmode. reflexivity. }
    rewrite Hcells. cbn [gridRows gridCols halfBlock with_dither]. f_equal.
  - intros Hoff m rgb width height startX startY cellWidth cellHeight row col.
    assert (Hramp : forall m',
      glyph (sampleCell powf (Control.with_mode m' c) rgb width height startX startY
                        cellWidth cellHeight row col)
      = glyph (sampleCell powf (Control.with_mode Gray c) rgb width height startX startY
                          cellWidth cellHeight row col)).
    { intros m'. unfold sampleCell, Control.with_mode.
      cbn [mode dither gamma contrast]. rewrite Hoff. cbn [bayer_matrix size].
      change (1 <? 1) with false. cbv iota.
      destruct m'; cbn [glyph]; try reflexivity.
      match goal with |- context [Qltb 1 (?n + 0)] => set (nz := n) end.
      assert (Hle : Qltb 1 (nz + 0) = false).
      { apply Qltb_ge. pose proof (normalized_at_most_one powf
          (accumLuma (sample_loops rgb width height startX startY cellWidth cellHeight)
           / inject_Z (Z.max 1 (count (sample_loops rgb width height startX startY
                                         cellWidth cellHeight))))
          (gamma c) (contrast c)) as H. fold nz in H. lra. }
      rewrite Hle. reflexivity. }
    rewrite (Hramp m). clear Hoff.
    destruct c as [m0 d0 hb gc gr ga co]. exact (Hramp m0).
Qed.

Lemma dither_matters_in_ansi256_only_witness :
  render pow_exponent_one (with_dither Bayer4 gray_1x2) two_red_pixels
  = render pow_exponent_one gray_1x2 two_red_pixels.
Proof.
  destruct (dither_matters_in_ansi256_only pow_exponent_one gray_1x2) as [H _].
  apply H. discriminate.
Defined.

End SamplingFacts.

(** ** ascii_renderer.cpp: the terminal byte string *)

Lemma for_loop_succ {S : Type} (n : Z) (body : Z -> S -> S) (s : S) :
  0 <= n -> for_loop (n + 1) body s = body n (for_loop n body s).
Proof.
  intros Hn. unfold for_loop. rewrite seqZ_app by lia.
  rewrite fold_left_app. rewrite Z.add_0_l. reflexivity.
Qed.

Lemma string_app_assoc (a b c : string) : ((a ++ b) ++ c = a ++ (b ++ c))%string.
Proof. induction a as [|ch a IH]; simpl; [reflexivity | rewrite IH; reflexivity]. Qed.

Lemma string_app_nil_r (a : string) : (a ++ "" = a)%string.
Proof. induction a as [|ch a IH]; simpl; [reflexivity | rewrite IH; reflexivity]. Qed.

Module SerialFacts.
Import ColorLut Renderer.

(** What a cell appends does not depend on what the buffer already holds. *)
Lemma emit_foreground_appends (cfg : RendererConfig) (cell : AsciiCell) (buf b : string)
    (f g : Z) (h : bool) :
  emit_foreground cfg cell (mkRowState (buf ++ b) f g h)
  = let st2 := emit_foreground cfg cell (mkRowState b f g h) in
    mkRowState (buf ++ buffer st2) (currentFg st2) (currentBg st2) (haveColor st2).
Proof.
  unfold emit_foreground, flushTrueColor. cbv zeta.
  cbn [buffer currentFg currentBg haveColor].
  destruct (mode cfg).
  - cbn [buffer currentFg currentBg haveColor]. rewrite !string_app_assoc. reflexivity.
  - cbn [buffer currentFg currentBg haveColor]. rewrite !string_app_assoc. reflexivity.
  - destruct (negb h || negb (fg cell =? f)); cbn [buffer currentFg currentBg haveColor];
      rewrite ?string_app_assoc; reflexivity.
Qed.

Lemma emit_background_appends (cfg : RendererConfig) (cell : AsciiCell) (buf b : string)
    (f g : Z) (h : bool) :
  emit_background cfg cell (mkRowState (buf ++ b) f g h)
  = let st2 := emit_background cfg cell (mkRowState b f g h) in
    mkRowState (buf ++ buffer st2) (currentFg st2) (currentBg st2) (haveColor st2).
Proof.
  unfold emit_background, appendBackground. cbv zeta.
  cbn [buffer currentFg currentBg haveColor].
  destruct (halfBlock cfg); [| reflexivity].
  destruct (negb h || negb (bg cell =? g)); cbn [buffer currentFg currentBg haveColor];
    rewrite ?string_app_assoc; reflexivity.
Qed.

Lemma emit_cell_appends (cfg : RendererConfig) (cell : AsciiCell) (buf b : string)
    (f g : Z) (h : bool) :
  emit_cell cfg cell (mkRowState (buf ++ b) f g h)
  = let st2 := emit_cell cfg cell (mkRowState b f g h) in
    mkRowState (buf ++ buffer st2) (currentFg st2) (currentBg st2) (haveColor st2).
Proof.
  unfold emit_cell. cbv zeta. rewrite emit_foreground_appends. cbv zeta.
  destruct (emit_foreground cfg cell (mkRowState b f g h)) as [b1 f1 g1 h1].
  cbn [buffer currentFg currentBg haveColor].
  rewrite emit_background_appends. cbv zeta.
  destruct (emit_background cfg cell (mkRowState b1 f1 g1 h1)) as [b2 f2 g2 h2].
  cbn [buffer currentFg currentBg haveColor]. rewrite string_app_assoc. reflexivity.
Qed.

Lemma emit_row_appends (cfg : RendererConfig) (ncols : Z) (cells : list AsciiCell) (y : Z)
    (buf : string) :
  emit_row cfg ncols cells y buf = (buf ++ row_text cfg ncols cells y)%string.
Proof.
  unfold row_text, emit_row. cbv zeta.
  pose (R := fun st1 st2 : RowState =>
    buffer st1 = (buf ++ buffer st2)%string
    /\ currentFg st1 = currentFg st2 /\ currentBg st1 = currentBg st2
    /\ haveColor st1 = haveColor st2).
  assert (H : R (for_loop ncols
                   (fun x st => emit_cell cfg (cell_at cells (y * ncols + x)) st)
                   (mkRowState buf 4294967295 0 false))
                (for_loop ncols
                   (fun x st => emit_cell cfg (cell_at cells (y * ncols + x)) st)
                   (mkRowState "" 4294967295 0 false))).
  { apply (for_loop_rel R); unfold R.
    - cbn [buffer currentFg currentBg haveColor]. rewrite string_app_nil_r.
      repeat split; reflexivity.
    - intros x st1 st2 _ (Hb & Hf & Hg & Hh).
      destruct st1 as [b1 f1 g1 h1]. destruct st2 as [b2 f2 g2 h2].
      cbn [buffer currentFg currentBg haveColor] in Hb, Hf, Hg, Hh.
      subst b1 f1 g1 h1. rewrite emit_cell_appends. cbv zeta.
      cbn [buffer currentFg currentBg haveColor]. repeat split; reflexivity. }
  destruct H as [H _]. rewrite H. apply string_app_assoc.
Qed.

(** X13: the terminal byte string is the cursor-home escape followed by the
    rows in order; the bytes of a row end with the reset escape and CR LF, and
    they depend on the cells of that row only: the color state is reset at the
    start of every row. *)
Theorem terminal_string_is_rows (cfg : RendererConfig) (ncols nrows : Z)
    (cells : list AsciiCell) :
  build_terminal_string cfg ncols nrows cells
  = (ESC ++ "[H" ++ rows_text cfg ncols cells nrows)%string
  /\ (forall y, exists body,
        row_text cfg ncols cells y = (body ++ ESC ++ "[0m" ++ CRLF)%string)
  /\ (forall y cells',
        (forall x, 0 <= x < ncols ->
           cell_at cells' (y * ncols + x) = cell_at cells (y * ncols + x)) ->
        row_text cfg ncols cells' y = row_text cfg ncols cells y).
Proof.
  split; [| split].
  - unfold build_terminal_string, rows_text.
    apply (for_loop_rel (fun s1 s2 => s1 = (ESC ++ "[H" ++ s2)%string)); [reflexivity |].
    intros y s1 s2 _ ->. rewrite emit_row_appends.
    rewrite !string_app_assoc. reflexivity.
  - intros y. unfold row_text, emit_row. cbv zeta. eexists. reflexivity.
  - intros y cells' Hsame. unfold row_text, emit_row. cbv zeta. f_equal. f_equal.
    apply (for_loop_rel eq); [reflexivity |]. intros x st st' Hx <-.
    rewrite (Hsame x Hx). reflexivity.
Qed.

Lemma terminal_string_is_rows_witness :
  row_text truecolor_1x2 2 (same_fg_row ++ [mkCell "z" 1 2]) 0
  = row_text truecolor_1x2 2 same_fg_row 0.
Proof.
  destruct (terminal_string_is_rows truecolor_1x2 2 1 same_fg_row) as (_ & _ & H).
  apply H. intros x Hx.
  assert (E : x = 0 \/ x = 1) by lia. destruct E as [-> | ->]; reflexivity.
Defined.

(** *** The foreground escapes *)

Lemma Qtrunc_u8_byte (q : Q) : is_byte (Qtrunc_u8 q).
Proof.
  unfold Qtrunc_u8, is_byte. pose proof (Z.mod_pos_bound (Qtrunc q) 256 ltac:(lia)). lia.
Qed.

(** X14: in ANSI256 mode the index in the escape ESC[38;5;<idx>m of a cell is
    the palette index that [sampleCell] chose for it, the entry nearest to the
    average color of the cell: the serialisation looks the index up again from
    the stored palette color and finds the same entry. *)
Theorem ansi256_escape_is_sampled_index (powf : Q -> Q -> Q) (c cfg : RendererConfig)
    (rgb : list Z) (width height startX startY cellWidth cellHeight row col : Z)
    (st : RowState) :
  mode c = ANSI256 -> mode cfg = ANSI256 ->
  let avg := cell_average rgb width height startX startY cellWidth cellHeight in
  let k := xterm_index_from_rgb (r avg) (g avg) (b avg) in
  let cell := sampleCell powf c rgb width height startX startY cellWidth cellHeight
                         row col in
  0 <= k < 256
  /\ unpack_rgb (fg cell) = palette_at k
  /\ buffer (emit_foreground cfg cell st)
     = (buffer st ++ ESC ++ "[38;5;" ++ to_string k ++ "m")%string.
Proof.
  intros Hc Hcfg avg k cell.
  assert (Bavg : is_byte (r avg) /\ is_byte (g avg) /\ is_byte (b avg)).
  { subst avg. unfold cell_average. cbv zeta. cbn [r g b].
    repeat split; apply Qtrunc_u8_byte. }
  destruct Bavg as (Br & Bg & Bb).
  pose proof (ColorFacts.xterm_index_nearest _ _ _ Br Bg Bb) as Hnear.
  pose proof (ColorFacts.xterm_index_stable _ _ _ Br Bg Bb) as Hstable.
  fold k in Hnear, Hstable. destruct Hnear as (Hk & _).
  destruct (ColorFacts.palette_bytes k Hk) as (Pr & Pg & Pb).
  assert (Hfg : fg cell = pack_rgb (r (palette_at k)) (g (palette_at k)) (b (palette_at k))).
  { subst cell. rewrite RendererFacts.sampleCell_ansi256_fg by exact Hc. reflexivity. }
  assert (Hun : unpack_rgb (fg cell) = palette_at k).
  { rewrite Hfg. rewrite ColorFacts.unpack_pack by assumption.
    destruct (palette_at k). reflexivity. }
  split; [exact Hk |]. split; [exact Hun |].
  unfold emit_foreground. rewrite Hcfg. cbn [buffer].
  change (Z.land (Z.shiftr (fg cell) 16) 255) with (r (unpack_rgb (fg cell))).
  change (Z.land (Z.shiftr (fg cell) 8) 255) with (g (unpack_rgb (fg cell))).
  change (Z.land (fg cell) 255) with (b (unpack_rgb (fg cell))).
  rewrite Hun, Hstable. reflexivity.
Qed.

Lemma ansi256_escape_is_sampled_index_witness :
  buffer (emit_foreground (ansi256_1x1 Off 1 1)
            (sampleCell pow_exponent_one (ansi256_1x1 Off 1 1) [200; 10; 10] 1 1 0 0 1 1 0 0)
            (mkRowState "" 4294967295 0 false))
  = (ESC ++ "[38;5;"
         ++ to_string (xterm_index_from_rgb
                         (r (cell_average [200; 10; 10] 1 1 0 0 1 1))
                         (g (cell_average [200; 10; 10] 1 1 0 0 1 1))
                         (b (cell_average [200; 10; 10] 1 1 0 0 1 1)))
         ++ "m")%string.
Proof.
  destruct (ansi256_escape_is_sampled_index pow_exponent_one (ansi256_1x1 Off 1 1)
              (ansi256_1x1 Off 1 1) [200; 10; 10] 1 1 0 0 1 1 0 0
              (mkRowState "" 4294967295 0 false) eq_refl eq_refl) as (_ & _ & H).
  exact H.
Defined.

(** X15: in TrueColor mode without half blocks, a row whose cells all have the
    same foreground carries one foreground escape, before its first glyph: the
    row is that escape, the glyphs of the row one after the other, the reset
    escape and CR LF. *)
Theorem truecolor_row_has_one_escape (cfg : RendererConfig) (ncols : Z)
    (cells : list AsciiCell) (y color : Z) (buf : string) :
  mode cfg = TrueColor -> halfBlock cfg = false ->
  0 < ncols -> row_has_fg ncols cells y ncols color ->
  emit_row cfg ncols cells y buf
  = (flushTrueColor color buf ++ row_glyphs ncols cells y ncols ++ ESC ++ "[0m" ++ CRLF)%string.
Proof.
  intros Hmode Hhalf Hn Hfg. unfold emit_row. cbv zeta.
  pose (P := fun (x : Z) (st : RowState) =>
    (x = 0 /\ st = mkRowState buf 4294967295 0 false)
    \/ (0 < x /\ st = mkRowState (flushTrueColor color buf ++ row_glyphs ncols cells y x)
                                 color 0 true)).
  assert (Hinv : P ncols (for_loop ncols
                   (fun x st => emit_cell cfg (cell_at cells (y * ncols + x)) st)
                   (mkRowState buf 4294967295 0 false))).
  { apply (for_loop_ind P); unfold P; [lia | left; split; reflexivity |].
    intros x st Hx Hst. right. split; [lia |].
    pose proof (Hfg x Hx) as Hcolor.
    unfold row_glyphs. rewrite for_loop_succ by lia. fold (row_glyphs ncols cells y x).
    unfold emit_cell, emit_background, emit_foreground. cbv zeta.
    rewrite Hmode, Hhalf, Hcolor.
    destruct Hst as [[-> ->] | [Hpos ->]]; cbn [buffer currentFg currentBg haveColor negb orb].
    - unfold row_glyphs. rewrite for_loop_nonpos by lia. reflexivity.
    - rewrite Z.eqb_refl. cbn [negb]. cbn [buffer currentFg currentBg haveColor].
      rewrite string_app_assoc. reflexivity. }
  destruct Hinv as [[H _] | [_ ->]]; [lia |].
  cbn [buffer]. rewrite !string_app_assoc. reflexivity.
Qed.

Lemma truecolor_row_has_one_escape_witness :
  emit_row truecolor_1x2 2 same_fg_row 0 ""
  = (ESC ++ "[38;2;10;11;12m" ++ "ab" ++ ESC ++ "[0m" ++ CRLF)%string.
Proof.
  rewrite (truecolor_row_has_one_escape truecolor_1x2 2 same_fg_row 0 658188 "");
    [reflexivity | reflexivity | reflexivity | lia |].
  intros x Hx. assert (E : x = 0 \/ x = 1) by lia. destruct E as [-> | ->]; reflexivity.
Defined.

End SerialFacts.

(** ** audio_player.cpp: the samples and the clock *)

Section StoredValues.
Context {A : Type}.

(** A loop that stores [val i] at index [i] for [i < n] leaves [val i] there. *)
Lemma for_loop_store_values (val : Z -> A) (n : Z) (l : list A) :
  0 <= n <= Z.of_nat (length l) ->
  forall i : nat, Z.of_nat i < n ->
    for_loop n (fun i l => <[ Z.to_nat i := val i ]> l) l !! i = Some (val (Z.of_nat i)).
Proof.
  intros Hn.
  pose (P := fun (k : Z) (l' : list A) =>
    length l' = length l
    /\ forall i : nat, Z.of_nat i < k -> l' !! i = Some (val (Z.of_nat i))).
  assert (H : P n (for_loop n (fun i l => <[ Z.to_nat i := val i ]> l) l)).
  { apply (for_loop_ind P); unfold P; [lia | split; [reflexivity | intros; lia] |].
    intros k l' Hk [Hlen Hdone]. split; [rewrite length_insert; exact Hlen |].
    intros i Hi. destruct (Z.eq_dec (Z.of_nat i) k) as [E | Hne].
    - subst k. rewrite Nat2Z.id. apply list_lookup_insert_eq. lia.
    - rewrite list_lookup_insert_ne by lia. apply Hdone. lia. }
  exact (proj2 H).
Qed.
End StoredValues.

Module ClockFacts.
Import Audio.

Lemma onData_queue (frameCount : Z) (p : AudioPlayer) :
  0 <= frameCount -> 0 < channels p ->
  queue_ (snd (onData frameCount p))
  = drop (Z.to_nat (samples_taken frameCount p)) (queue_ p).
Proof.
  intros Hn Hc. unfold onData, samples_taken. destruct (queue_ p) eqn:E.
  - cbn [snd]. rewrite E. symmetry. apply drop_nil.
  - cbn [snd queue_]. reflexivity.
Qed.

Lemma onData_played_samples (frameCount : Z) (p : AudioPlayer) (i : nat) :
  0 <= frameCount -> 0 < channels p ->
  Z.of_nat i < samples_taken frameCount p ->
  fst (onData frameCount p) !! i = Some (scaled p (nth i (queue_ p) 0)).
Proof.
  intros Hn Hc Hi. unfold onData, samples_taken in *. destruct (queue_ p) eqn:E.
  - simpl in Hi. lia.
  - cbn [fst]. rewrite <- E in *. clear E.
    set (taken := Z.min (Z.of_nat (length (queue_ p))) (frameCount * channels p)) in *.
    assert (Hreq : 0 <= frameCount * channels p) by (apply Z.mul_nonneg_nonneg; lia).
    assert (Ht : 0 <= taken <= Z.of_nat (length (replicate (Z.to_nat (frameCount * channels p))
                                                          0%Q)))
      by (rewrite length_replicate; lia).
    rewrite (for_loop_store_values _ taken _ Ht i Hi).
    f_equal. rewrite Nat2Z.id.
    pose proof (for_loop_store_values
                  (fun i => (inject_Z (nth (Z.to_nat i) (queue_ p) 0%Z) / 32768 * volume p)%Q)
                  taken _ Ht i Hi) as Htemp.
    rewrite (nth_lookup_Some _ _ 0%Q _ Htemp). rewrite Nat2Z.id. reflexivity.
Qed.

(** X16: the device callback plays the ring in order.  Of a request for n
    frames it takes the first min(queued, n * channels) samples of the ring:
    output sample i is ring sample i divided by 32768 and multiplied by the
    volume, the rest of the output is zero, and the ring keeps exactly the
    samples that were not taken, in their order. *)
Theorem onData_plays_ring_in_order (n : Z) (p : AudioPlayer) :
  0 <= n -> 0 < channels p ->
  let taken := samples_taken n p in
  0 <= taken <= n * channels p
  /\ length (fst (onData n p)) = Z.to_nat (n * channels p)
  /\ (forall i : nat, Z.of_nat i < taken ->
        exists sample, queue_ p !! i = Some sample
                       /\ fst (onData n p) !! i = Some (scaled p sample))
  /\ (forall i : nat, taken <= Z.of_nat i < n * channels p ->
        fst (onData n p) !! i = Some 0%Q)
  /\ queue_ p = (take (Z.to_nat taken) (queue_ p) ++ queue_ (snd (onData n p))).
Proof.
  intros Hn Hc taken.
  assert (Hreq : 0 <= n * channels p) by (apply Z.mul_nonneg_nonneg; lia).
  destruct (AudioFacts.onData_output n p Hn Hc) as [Hlen Hzero].
  split; [subst taken; unfold samples_taken; lia |].
  split; [exact Hlen |]. split; [| split; [exact Hzero |]].
  - intros i Hi.
    destruct (lookup_lt_is_Some_2 (queue_ p) i) as [sample Hs].
    { subst taken. unfold samples_taken in Hi. lia. }
    exists sample. split; [exact Hs |].
    rewrite (onData_played_samples n p i Hn Hc Hi).
    rewrite (nth_lookup_Some _ _ 0 _ Hs). reflexivity.
  - rewrite (onData_queue n p Hn Hc). symmetry. apply take_drop.
Qed.

Lemma onData_plays_ring_in_order_witness :
  fst (onData 2 short_of_one) !! 3%nat = Some 0%Q
  /\ exists sample, queue_ short_of_one !! 2%nat = Some sample
                    /\ fst (onData 2 short_of_one) !! 2%nat = Some (scaled short_of_one sample).
Proof.
  destruct (onData_plays_ring_in_order 2 short_of_one) as (_ & _ & Hplayed & Hzero & _);
    [lia | simpl; lia |].
  split; [apply Hzero | apply Hplayed]; unfold samples_taken; simpl; lia.
Defined.

(** X17: the playback clock never runs backward and never runs ahead of the
    frames requested: a callback for n frames moves it forward by at most
    n / sample_rate; [enqueue] and [setVolume] leave it where it is. *)
Theorem playback_clock_is_monotone (n : Z) (p : AudioPlayer) :
  enabled p = true ->
  0 <= n -> 0 < channels p -> 0 < sampleRate p ->
  0 <= samplesPlayed_ p -> samplesPlayed_ p + n < two_64 ->
  (playbackTime p <= playbackTime (snd (onData n p)))%Q
  /\ (playbackTime (snd (onData n p)) <= playbackTime p + inject_Z n / inject_Z (sampleRate p))%Q
  /\ (forall samples, playbackTime (enqueue samples p) = playbackTime p)
  /\ (forall v, playbackTime (setVolume v p) = playbackTime p).
Proof.
  intros Hen Hn Hc Hrate H0 Hmax.
  assert (Hq : 0 <= Z.quot (samples_taken n p) (channels p) <= n).
  { unfold samples_taken. rewrite Z.quot_div_nonneg by lia. split.
    - apply Z.div_pos; lia.
    - apply Z.div_le_upper_bound; [lia |]. rewrite Z.mul_comm. apply Z.le_min_r. }
  assert (Hrate' : (0 < inject_Z (sampleRate p))%Q).
  { change 0%Q with (inject_Z 0). rewrite <- Zlt_Qlt. exact Hrate. }
  assert (Hclock : (playbackTime (snd (onData n p))
                    == playbackTime p
                       + inject_Z (Z.quot (samples_taken n p) (channels p))
                         / inject_Z (sampleRate p))%Q).
  { unfold playbackTime. destruct (AudioFacts.onData_other_fields n p) as [-> ->].
    rewrite Hen. simpl negb. cbv iota.
    rewrite (AudioFacts.onData_samplesPlayed n p Hn Hc H0 Hmax).
    rewrite inject_Z_plus. unfold Qdiv. ring. }
  split; [| split; [| split]].
  - rewrite Hclock. rewrite <- (Qplus_0_r (playbackTime p)) at 1.
    apply Qplus_le_r. apply Qle_shift_div_l; [exact Hrate' |].
    rewrite Qmult_0_l. change 0%Q with (inject_Z 0). rewrite <- Zle_Qle. lia.
  - rewrite Hclock. apply Qplus_le_r. unfold Qdiv.
    apply Qmult_le_compat_r; [rewrite <- Zle_Qle; lia |].
    apply Qlt_le_weak. apply Qinv_lt_0_compat. exact Hrate'.
  - intros samples. unfold enqueue, playbackTime. rewrite Hen. reflexivity.
  - intros v. reflexivity.
Qed.

Lemma playback_clock_is_monotone_witness :
  (playbackTime short_of_one <= playbackTime (snd (onData 2 short_of_one)))%Q.
Proof.
  destruct (playback_clock_is_monotone 2 short_of_one) as [H _];
    [reflexivity | lia | simpl; lia | simpl; lia | simpl; lia | reflexivity | exact H].
Defined.

Lemma onData_setVolume_player (n : Z) (v : Q) (p : AudioPlayer) :
  snd (onData n (setVolume v p)) = setVolume v (snd (onData n p)).
Proof.
  unfold onData, setVolume. cbn [queue_ channels].
  destruct (queue_ p) eqn:E; cbn [snd enabled volume sampleRate channels queue_ samplesPlayed_];
    rewrite ?E; reflexivity.
Qed.

(** X18: the volume scales the samples and nothing else.  With the volume at 0
    (what the space bar sets while paused) every output sample of a callback is
    zero, yet the callback takes the same samples off the ring and advances the
    sample counter as it does at any other volume: the audio clock keeps
    running while the output is muted. *)
Theorem muted_callback_still_advances (n : Z) (p : AudioPlayer) :
  0 <= n -> 0 < channels p ->
  Forall (fun sample => (sample == 0)%Q) (fst (onData n (setVolume 0 p)))
  /\ (forall v, queue_ (snd (onData n (setVolume v p))) = queue_ (snd (onData n p))
                /\ samplesPlayed_ (snd (onData n (setVolume v p)))
                   = samplesPlayed_ (snd (onData n p))
                /\ playbackTime (snd (onData n (setVolume v p)))
                   = playbackTime (snd (onData n p))).
Proof.
  intros Hn Hc. split.
  - apply Forall_lookup. intros i q Hq.
    assert (Hc' : 0 < channels (setVolume 0 p)) by exact Hc.
    destruct (AudioFacts.onData_output n (setVolume 0 p) Hn Hc') as [Hlen Hzero].
    pose proof (lookup_lt_Some _ _ _ Hq) as Hlt. rewrite Hlen in Hlt.
    destruct (Z.lt_ge_cases (Z.of_nat i) (samples_taken n (setVolume 0 p))) as [Hin | Hout].
    + rewrite (onData_played_samples n (setVolume 0 p) i Hn Hc' Hin) in Hq.
      injection Hq as <-. unfold scaled. cbn [volume setVolume]. ring.
    + rewrite Hzero in Hq by (cbn [channels setVolume] in *; lia).
      injection Hq as <-. reflexivity.
  - intros v. rewrite onData_setVolume_player. repeat split; reflexivity.
Qed.

Lemma muted_callback_still_advances_witness :
  Forall (fun sample => (sample == 0)%Q) (fst (onData 2 (setVolume 0 short_of_one)))
  /\ samplesPlayed_ (snd (onData 2 (setVolume 0 short_of_one))) = 1.
Proof.
  destruct (muted_callback_still_advances 2 short_of_one) as [Hmute Hsame];
    [lia | simpl; lia |].
  split; [exact Hmute |]. destruct (Hsame 0%Q) as (_ & -> & _). reflexivity.
Defined.

End ClockFacts.

(** ** decoder.cpp, pipeline.cpp: capacity and order of the video path *)

Module FifoFacts.
Import Queues.

Lemma pushes_run : run (pushes 8) initial = Some (mkState nat (seq 0 8) true false []).
Proof. reflexivity. Qed.

(** X19: the decoder's own video queue never holds more than 8 frames, and the
    bound is met: eight pushes fill it.  With 8 frames queued and the decoder
    running, [pushVideoFrame] stores no ninth frame: the predicate of its wait
    is false.  Once the decoder is no longer running a push returns at once and
    stores nothing. *)
Theorem decoder_queue_capacity :
  (forall (Frame : Type) (s : State Frame),
     reachable s -> Z.of_nat (length (decoderQueue s)) <= kMaxVideoQueue)
  /\ (exists s : State nat,
        reachable s /\ Z.of_nat (length (decoderQueue s)) = kMaxVideoQueue)
  /\ (forall (Frame : Type) (s : State Frame) (f : Frame),
        Z.of_nat (length (decoderQueue s)) = kMaxVideoQueue -> running_ s = true ->
        step (PushVideoFrame f) s = None)
  /\ (forall (Frame : Type) (s : State Frame) (f : Frame),
        running_ s = false -> step (PushVideoFrame f) s = Some s).
Proof.
  split; [| split; [| split]].
  - intros Frame s. apply QueueFacts.decoder_queue_bounded.
  - exists (mkState nat (seq 0 8) true false []).
    split; [exists (pushes 8); exact pushes_run | reflexivity].
  - intros Frame s f Hfull Hrun. unfold step. rewrite Hfull, Hrun. reflexivity.
  - intros Frame s f Hrun. unfold step. rewrite Hrun. simpl.
    rewrite orb_true_r. reflexivity.
Qed.

Section Frames.
Context {Frame : Type}.
Implicit Types (s : State Frame) (es : list (Event Frame)) (l : Log Frame).

(** Every frame stored and not yet taken is in one of the two queues, oldest
    first: first those of [Pipeline::videoQueue_], then the decoder's. *)
Lemma log_step_in_order e s s' l :
  step e s = Some s' ->
  stored l = taken l ++ pipelineQueue s ++ decoderQueue s ->
  stored (log_step e s l) = taken (log_step e s l) ++ pipelineQueue s' ++ decoderQueue s'.
Proof.
  destruct e as [f | | |]; simpl; intros Hstep Hinv.
  - destruct (running_ s) eqn:Hrun; simpl in Hstep.
    + rewrite orb_false_r in Hstep.
      destruct (Z.of_nat (length (decoderQueue s)) <? kMaxVideoQueue); [| discriminate].
      injection Hstep as <-. cbn [stored taken pipelineQueue decoderQueue].
      rewrite Hinv. rewrite <- !app_assoc. reflexivity.
    + rewrite orb_true_r in Hstep. injection Hstep as <-. exact Hinv.
  - destruct (decoderQueue s) as [|f rest] eqn:E; [discriminate |].
    injection Hstep as <-. cbn [pipelineQueue decoderQueue].
    rewrite Hinv. rewrite <- !app_assoc. reflexivity.
  - destruct (pipelineQueue s) as [|f rest] eqn:E; [discriminate |].
    injection Hstep as <-. cbn [stored taken pipelineQueue decoderQueue].
    rewrite Hinv. rewrite <- !app_assoc. reflexivity.
  - injection Hstep as <-. exact Hinv.
Qed.

Lemma run_log_in_order es s l s' l' :
  run_log es s l = Some (s', l') ->
  stored l = taken l ++ pipelineQueue s ++ decoderQueue s ->
  stored l' = taken l' ++ pipelineQueue s' ++ decoderQueue s'.
Proof.
  revert s l. induction es as [|e es IH]; intros s l Hrun Hinv; simpl in Hrun.
  - injection Hrun as <- <-. exact Hinv.
  - destruct (step e s) as [s1|] eqn:E; [| discriminate].
    apply (IH s1 (log_step e s l) Hrun). exact (log_step_in_order e s s1 l E Hinv).
Qed.

Lemma run_log_run es s l :
  run es s = option_map fst (run_log es s l).
Proof.
  revert s l. induction es as [|e es IH]; intros s l; simpl; [reflexivity |].
  destruct (step e s) as [s1|]; [apply IH | reflexivity].
Qed.
End Frames.



End FifoFacts.

(** ** pipeline.cpp: when Pipeline::run returns *)

Module WorkerFacts.
Import Workers.

Section Frames.
Context {VideoFrame AsciiFrame : Type}.
Variable render : VideoFrame -> AsciiFrame.
Implicit Types (s : State VideoFrame AsciiFrame) (es : list (Event VideoFrame)).

Lemma step_keeps_running e s s' :
  is_quit e = false ->
  step _ _ render e s = Some s' ->
  nobody_quit s -> nobody_quit s'.
Proof.
  unfold nobody_quit. intros Hq Hstep (Hrun & Hctl & Hascii & Hrender & Hret).
  destruct s as [run pau vq aq dw aw rw uw cw pres ret].
  cbn [running_ controlWorker_ asciiWorker_ renderWorker_ runThread] in *.
  subst run cw ret.
  destruct e as [f | | | | | | k | | |]; simpl in Hstep, Hq.
  - destruct dw; inversion Hstep; subst; repeat split; assumption.
  - destruct dw; inversion Hstep; subst; repeat split; assumption.
  - destruct uw; inversion Hstep; subst; repeat split; assumption.
  - destruct uw; inversion Hstep; subst; repeat split; assumption.
  - destruct aw; [| destruct vq |]; inversion Hstep; subst;
      repeat split; try assumption; discriminate.
  - destruct rw as [[| |] | f]; [| destruct aq | | destruct pau];
      inversion Hstep; subst; repeat split; try assumption; discriminate.
  - rewrite Hq in Hstep.
    destruct (k =? " ")%char; inversion Hstep; subst; repeat split; assumption.
  - discriminate Hstep.
  - destruct dw; try discriminate. destruct aw; try discriminate.
    exfalso. apply Hascii. reflexivity.
  - discriminate Hstep.
Qed.

Lemma run_keeps_running es s s' :
  no_quit es ->
  run _ _ render es s = Some s' ->
  nobody_quit s -> nobody_quit s'.
Proof.
  unfold no_quit. revert s. induction es as [|e es IH]; intros s Hq Hrun Hinv; simpl in *.
  - injection Hrun as <-. exact Hinv.
  - apply andb_true_iff in Hq. destruct Hq as [He Hes]. apply negb_true_iff in He.
    destruct (step _ _ render e s) as [s1|] eqn:E; [| discriminate].
    apply (IH s1 Hes Hrun). exact (step_keeps_running e s s1 He E Hinv).
Qed.
End Frames.

(** X21: [Pipeline::run] does not return before 'q' or 'Q' is read.  In every
    state that a schedule without that key reaches, [running_] is still set,
    the ASCII worker and the render worker are still inside their loops (at the
    end of the input they wait for a frame that never comes), [run] is still at
    the joins of the workers, and neither stage of its joins can complete. *)
Theorem run_returns_only_after_quit (VideoFrame AsciiFrame : Type)
    (render : VideoFrame -> AsciiFrame) (es : list (Event VideoFrame))
    (s : State VideoFrame AsciiFrame) :
  no_quit es ->
  run _ _ render es started = Some s ->
  running_ _ _ s = true /\ asciiWorker_ _ _ s <> Ended
  /\ renderWorker_ _ _ s <> RenderAt Ended /\ runThread _ _ s = JoinsWorkers
  /\ step _ _ render RunJoins s = None
  /\ step _ _ render RunReturns s = None.
Proof.
  intros Hq Hrun.
  destruct (run_keeps_running render es started s Hq Hrun) as (H1 & H2 & H3 & H4 & H5).
  { repeat split; try reflexivity; discriminate. }
  split; [exact H1 |]. split; [exact H3 |]. split; [exact H4 |]. split; [exact H5 |].
  split.
  - unfold step. destruct (decodeWorker_ _ _ s); try reflexivity.
    destruct (asciiWorker_ _ _ s); try reflexivity. congruence.
  - unfold step. rewrite H5. reflexivity.
Qed.

Lemma run_returns_only_after_quit_witness :
  exists s : State nat nat,
    run _ _ (fun f => f) play_one started = Some s
    /\ runThread _ _ s = JoinsWorkers /\ presented _ _ s = [7%nat]
    /\ step _ _ (fun f => f) RunJoins s = None.
Proof.
  eexists. split; [vm_compute; reflexivity |].
  split; [| split; [reflexivity |]];
    apply (run_returns_only_after_quit nat nat (fun f => f) play_one);
    vm_compute; reflexivity.
Defined.

End WorkerFacts.

(** ** pipeline.cpp: what the presenter does with the frames it pops *)

Module PacingFacts.
Import Renderer Presenter.

Lemma cast_int_none d : (0 <= d)%Q -> cast_int d = None -> (2147483648 <= d)%Q.
Proof.
  intros H0 Hnone. apply Qnot_lt_le. intros Hlt.
  rewrite (PresenterFacts.cast_int_defined d H0 Hlt) in Hnone. discriminate Hnone.
Qed.

Lemma shown_app l1 l2 : shown (l1 ++ l2) = shown l1 ++ shown l2.
Proof. unfold shown. apply flat_map_app. Qed.

(** The sleeps of the pause loop show nothing. *)
Lemma shown_waited n : shown (replicate n (SleepMillis 20)) = [].
Proof. induction n as [|n IH]; [reflexivity | exact IH]. Qed.

Lemma in_waited e n : In e (replicate n (SleepMillis 20)) -> e = SleepMillis 20.
Proof.
  intros Hin. apply list_elem_of_In, elem_of_replicate in Hin. apply Hin.
Qed.

(** A turn that finds [running_] cleared leaves the loop with the counters as
    they were. *)
Lemma present_turn_break cfg n ac el frame st :
  present_turn cfg n false ac el frame st
  = Some (mkOutcome st (replicate n (SleepMillis 20)) Break).
Proof. reflexivity. Qed.

(** A turn that finds [running_] set either shows the frame (presents it, or
    hands it to the exporter) and counts it as rendered, or drops it and counts
    it as dropped; it is undefined exactly when the sleep does not fit an
    [int]. *)
Lemma present_turn_cases cfg n ac el frame st :
  let diff := (target_of cfg st frame - ac)%Q in
  match present_turn cfg n true ac el frame st with
  | Some out =>
      ending out = NextTurn
      /\ ((shown (effects out) = [frame]
           /\ counters out = mkCounters (renderedFrames_ st + 1) (droppedFrames_ st))
          \/ (shown (effects out) = []
              /\ counters out = mkCounters (renderedFrames_ st) (droppedFrames_ st + 1)
              /\ exportEnabled cfg = false /\ audioEnabled cfg = true
              /\ (diff < - (5 # 100))%Q))
  | None =>
      exportEnabled cfg = false /\ audioEnabled cfg = true
      /\ (2147483648 <= diff * 1000)%Q
  end.
Proof.
  intros diff. unfold present_turn. cbn [negb]. cbv iota zeta. fold diff.
  destruct (exportEnabled cfg).
  { split; [reflexivity |]. left. split; [| reflexivity]. cbn [effects].
    rewrite shown_app, shown_waited. reflexivity. }
  destruct (audioEnabled cfg).
  - destruct (Qltb (1 # 100) diff) eqn:E1.
    + apply Qltb_lt in E1.
      destruct (cast_int (diff * 1000)) as [ms|] eqn:Ecast.
      * split; [reflexivity |]. left. split; [| reflexivity]. cbn [effects].
        rewrite shown_app, shown_waited. reflexivity.
      * split; [reflexivity |]. split; [reflexivity |].
        apply cast_int_none; [lra | exact Ecast].
    + destruct (Qltb diff (- (5 # 100))) eqn:E2.
      * apply Qltb_lt in E2. split; [reflexivity |]. right. cbn [effects counters].
        split; [apply shown_waited |]. repeat split; try reflexivity. exact E2.
      * split; [reflexivity |]. left. split; [| reflexivity]. cbn [effects].
        rewrite shown_app, shown_waited. reflexivity.
  - destruct (Qltb 0 (target_of cfg st frame - el)); (split; [reflexivity |]); left;
      (split; [| reflexivity]); cbn [effects]; rewrite shown_app, shown_waited;
      reflexivity.
Qed.

Lemma sleeps_are_positive cfg n running ac el frame st out :
  present_turn cfg n running ac el frame st = Some out ->
  (forall ms, In (SleepMillis ms) (effects out) -> 10 <= ms <= 2147483647)
  /\ (forall d, In (SleepSeconds d) (effects out) -> (0 < d)%Q).
Proof.
  assert (Hw : forall ms, In (SleepMillis ms) (replicate n (SleepMillis 20)) ->
                          10 <= ms <= 2147483647).
  { intros ms Hin. apply in_waited in Hin. injection Hin as ->. lia. }
  assert (Hs : forall d, ~ In (SleepSeconds d) (replicate n (SleepMillis 20))).
  { intros d Hin. apply in_waited in Hin. discriminate Hin. }
  unfold present_turn. cbv zeta.
  destruct running; cbn [negb]; cbv iota.
  2:{ intros H. injection H as <-. cbn [effects]. split; [exact Hw |].
      intros d Hin. exfalso. exact (Hs d Hin). }
  destruct (exportEnabled cfg).
  { intros H. injection H as <-. cbn [effects]. split.
    - intros ms Hin. apply in_app_or in Hin. destruct Hin as [Hin | [H | []]];
        [exact (Hw ms Hin) | discriminate H].
    - intros d Hin. apply in_app_or in Hin. destruct Hin as [Hin | [H | []]];
        [exfalso; exact (Hs d Hin) | discriminate H]. }
  destruct (audioEnabled cfg).
  - destruct (Qltb (1 # 100) (target_of cfg st frame - ac)) eqn:E1;
      [| destruct (Qltb (target_of cfg st frame - ac) (- (5 # 100)))].
    + apply Qltb_lt in E1.
      destruct (cast_int ((target_of cfg st frame - ac) * 1000)) as [ms0|] eqn:Ecast;
        [| discriminate].
      apply PresenterFacts.cast_int_range in Ecast. destruct Ecast as [Ems Hmax].
      intros H. injection H as <-. cbn [effects]. split.
      * intros ms Hin. apply in_app_or in Hin.
        destruct Hin as [Hin | [H | [H | []]]];
          [exact (Hw ms Hin) | | discriminate H].
        injection H as <-. split; [| exact Hmax]. rewrite Ems.
        assert (H10 : (10 <= (target_of cfg st frame - ac) * 1000)%Q) by lra.
        rewrite Qtrunc_nonneg_floor by lra.
        apply Qfloor_resp_le in H10. exact H10.
      * intros d Hin. apply in_app_or in Hin.
        destruct Hin as [Hin | [H | [H | []]]];
          [exfalso; exact (Hs d Hin) | discriminate H | discriminate H].
    + intros H. injection H as <-. cbn [effects]. split; [exact Hw |].
      intros d Hin. exfalso. exact (Hs d Hin).
    + intros H. injection H as <-. cbn [effects]. split.
      * intros ms Hin. apply in_app_or in Hin. destruct Hin as [Hin | [H | []]];
          [exact (Hw ms Hin) | discriminate H].
      * intros d Hin. apply in_app_or in Hin. destruct Hin as [Hin | [H | []]];
          [exfalso; exact (Hs d Hin) | discriminate H].
  - destruct (Qltb 0 (target_of cfg st frame - el)) eqn:E.
    + apply Qltb_lt in E. intros H. injection H as <-. cbn [effects]. split.
      * intros ms Hin. apply in_app_or in Hin.
        destruct Hin as [Hin | [H | [H | []]]];
          [exact (Hw ms Hin) | discriminate H | discriminate H].
      * intros d Hin. apply in_app_or in Hin.
        destruct Hin as [Hin | [H | [H | []]]];
          [exfalso; exact (Hs d Hin) | | discriminate H].
        injection H as <-. exact E.
    + intros H. injection H as <-. cbn [effects]. split.
      * intros ms Hin. apply in_app_or in Hin. destruct Hin as [Hin | [H | []]];
          [exact (Hw ms Hin) | discriminate H].
      * intros d Hin. apply in_app_or in Hin. destruct Hin as [Hin | [H | []]];
          [exfalso; exact (Hs d Hin) | discriminate H].
Qed.

(** X22: what one turn of the presenter's loop does with the frame it has
    popped.  If the turn finds [running_] cleared after the pause loop it
    leaves the loop: the frame is shown nowhere and counted in neither counter.
    Otherwise the frame is counted exactly once: the turn either shows it
    (presents it, or hands it to the exporter) and adds one to the rendered
    counter, or shows nothing and adds one to the dropped counter, which
    happens only in live mode with audio and a frame more than 50 ms late.  The
    turn is undefined exactly when it runs in live mode with audio and the
    sleep in milliseconds, diff * 1000, is 2^31 or more.  Every sleep in
    milliseconds it asks for is at least 10 ms and fits an [int]; a sleep by
    the wall clock has a positive duration. *)
Theorem every_popped_frame_is_counted_once (cfg : PipelineConfig) (pauses : nat)
    (running : bool) (ac el : Q) (frame : AsciiFrame) (st : Counters) :
  let out := present_turn cfg pauses running ac el frame st in
  let diff := (target_of cfg st frame - ac)%Q in
  (out = None <->
   running = true /\ exportEnabled cfg = false /\ audioEnabled cfg = true
   /\ (2147483648 <= diff * 1000)%Q)
  /\ (forall o, out = Some o ->
        (running = false ->
           ending o = Break /\ counters o = st /\ shown (effects o) = [])
        /\ (running = true ->
              ending o = NextTurn
              /\ renderedFrames_ (counters o) + droppedFrames_ (counters o)
                 = renderedFrames_ st + droppedFrames_ st + 1
              /\ ((shown (effects o) = [frame]
                   /\ renderedFrames_ (counters o) = renderedFrames_ st + 1
                   /\ droppedFrames_ (counters o) = droppedFrames_ st)
                  \/ (shown (effects o) = []
                      /\ renderedFrames_ (counters o) = renderedFrames_ st
                      /\ droppedFrames_ (counters o) = droppedFrames_ st + 1
                      /\ exportEnabled cfg = false /\ audioEnabled cfg = true
                      /\ (diff < - (5 # 100))%Q)))
        /\ (forall ms, In (SleepMillis ms) (effects o) -> 10 <= ms <= 2147483647)
        /\ (forall d, In (SleepSeconds d) (effects o) -> (0 < d)%Q)).
Proof.
  intros out diff. subst out. split.
  - destruct running.
    + pose proof (present_turn_cases cfg pauses ac el frame st) as Hc. cbv zeta in Hc.
      fold diff in Hc.
      destruct (present_turn cfg pauses true ac el frame st) as [o|] eqn:E.
      * split; [discriminate |]. intros (_ & Hexp & Haud & Hbig). exfalso.
        revert E. unfold present_turn. cbn [negb]. cbv iota zeta. rewrite Hexp, Haud.
        fold diff.
        assert (E1 : Qltb (1 # 100) diff = true) by (apply Qltb_lt; lra).
        rewrite E1, (PresenterFacts.cast_int_undefined _ Hbig). discriminate.
      * split; [| reflexivity]. intros _. destruct Hc as (Hexp & Haud & Hbig).
        repeat split; assumption.
    + rewrite present_turn_break. split; [discriminate |]. intros [H _]. discriminate H.
  - intros o Ho.
    destruct (sleeps_are_positive cfg pauses running ac el frame st o Ho) as [Hms Hsec].
    split; [| split; [| split; assumption]].
    + intros ->. rewrite present_turn_break in Ho. injection Ho as <-.
      cbn [ending counters effects]. split; [reflexivity |]. split; [reflexivity |].
      apply shown_waited.
    + intros ->.
      pose proof (present_turn_cases cfg pauses ac el frame st) as Hc. cbv zeta in Hc.
      fold diff in Hc. rewrite Ho in Hc.
      destruct Hc as [Hend [[Hshown Hst] | (Hshown & Hst & Hexp & Haud & Hlate)]];
        rewrite Hst; cbn [renderedFrames_ droppedFrames_].
      * split; [exact Hend |]. split; [lia |]. left.
        split; [exact Hshown |]. split; reflexivity.
      * split; [exact Hend |]. split; [lia |]. right.
        split; [exact Hshown |]. repeat split; assumption.
Qed.

(** The loop is defined when every turn is. *)
Lemma present_frames_defined cfg turns st :
  exportEnabled cfg = true \/ audioEnabled cfg = false ->
  present_frames cfg turns st <> None.
Proof.
  intros Hmode. revert st. induction turns as [|t turns IH]; intros st; [discriminate |].
  cbn [present_frames].
  destruct (running t) eqn:Erun.
  - pose proof (present_turn_cases cfg (pauses t) (audioClock t) (elapsed t) (popped t) st)
      as Hc. cbv zeta in Hc.
    destruct (present_turn cfg (pauses t) true (audioClock t) (elapsed t) (popped t) st)
      as [o|].
    + destruct Hc as [Hend _]. rewrite Hend.
      specialize (IH (counters o)).
      destruct (present_frames cfg turns (counters o)); [discriminate | contradiction].
    + destruct Hc as (Hexp & Haud & _). destruct Hmode; congruence.
  - rewrite present_turn_break. cbn [ending]. discriminate.
Qed.

Lemma present_frames_order cfg turns st st' effs :
  present_frames cfg turns st = Some (st', effs) ->
  sublist (shown effs) (map popped (before_break turns))
  /\ Z.of_nat (length (shown effs)) = renderedFrames_ st' - renderedFrames_ st
  /\ Z.of_nat (length (before_break turns))
     = (renderedFrames_ st' - renderedFrames_ st)
       + (droppedFrames_ st' - droppedFrames_ st)
  /\ (exportEnabled cfg = true \/ audioEnabled cfg = false ->
      shown effs = map popped (before_break turns)
      /\ droppedFrames_ st' = droppedFrames_ st).
Proof.
  revert st st' effs. induction turns as [|t turns IH]; intros st st' effs Hrun.
  - cbn in Hrun. injection Hrun as <- <-. cbn.
    split; [constructor |]. split; [lia |]. split; [lia |]. intros _. split; reflexivity.
  - cbn [present_frames] in Hrun. cbn [before_break].
    destruct (running t) eqn:Erun.
    + pose proof (present_turn_cases cfg (pauses t) (audioClock t) (elapsed t) (popped t)
                    st) as Hc. cbv zeta in Hc.
      destruct (present_turn cfg (pauses t) true (audioClock t) (elapsed t) (popped t) st)
        as [o|]; [| discriminate].
      destruct Hc as [Hend Hc]. rewrite Hend in Hrun.
      destruct (present_frames cfg turns (counters o)) as [[st1 effs1]|] eqn:Erest;
        [| discriminate].
      cbn [fst snd] in Hrun. injection Hrun as <- <-.
      destruct (IH _ _ _ Erest) as (Hsub & Hlen & Hall & Hevery).
      rewrite shown_app. cbn [map length].
      destruct Hc as [[Hshown Hst] | (Hshown & Hst & Hexp & Haud & _)];
        rewrite Hshown; rewrite Hst in *; cbn [renderedFrames_ droppedFrames_] in *.
      * split; [simpl; apply sublist_skip; exact Hsub |].
        split; [simpl length; lia |]. split; [lia |].
        intros Hmode. destruct (Hevery Hmode) as [E1 E2].
        split; [simpl; rewrite E1; reflexivity | exact E2].
      * split; [simpl; apply sublist_cons; exact Hsub |].
        split; [simpl; lia |]. split; [lia |].
        intros [Hmode | Hmode]; congruence.
    + rewrite present_turn_break in Hrun. cbn [ending counters effects] in Hrun.
      injection Hrun as <- <-. rewrite shown_waited. cbn.
      split; [constructor |]. split; [lia |]. split; [lia |]. intros _. split; reflexivity.
Qed.

(** X23: the presenter's loop over any run of popped frames, up to the first
    turn that finds [running_] cleared (that turn's frame is popped and shown
    nowhere).  The frames shown are a subsequence of the frames of the turns
    before it, in the order they were popped; the rendered counter grows by the
    number of frames shown and the two counters together by the number of those
    turns.  When exporting, or with audio disabled, the loop is defined, every
    one of these frames is shown (presented, or handed to the exporter) and none
    is dropped. *)
Theorem shown_frames_keep_their_order (cfg : PipelineConfig) (turns : list Turn)
    (st : Counters) :
  (forall st' effs,
     present_frames cfg turns st = Some (st', effs) ->
     sublist (shown effs) (map popped (before_break turns))
     /\ Z.of_nat (length (shown effs)) = renderedFrames_ st' - renderedFrames_ st
     /\ Z.of_nat (length (before_break turns))
        = (renderedFrames_ st' - renderedFrames_ st)
          + (droppedFrames_ st' - droppedFrames_ st))
  /\ (exportEnabled cfg = true \/ audioEnabled cfg = false ->
      exists st' effs,
        present_frames cfg turns st = Some (st', effs)
        /\ shown effs = map popped (before_break turns)
        /\ droppedFrames_ st' = droppedFrames_ st).
Proof.
  split.
  - intros st' effs Hrun.
    destruct (present_frames_order cfg turns st st' effs Hrun) as (H1 & H2 & H3 & _).
    split; [exact H1 |]. split; [exact H2 | exact H3].
  - intros Hmode.
    destruct (present_frames cfg turns st) as [[st' effs]|] eqn:Erun.
    + exists st', effs. split; [reflexivity |].
      destruct (present_frames_order cfg turns st st' effs Erun) as (_ & _ & _ & H4).
      exact (H4 Hmode).
    + exfalso. exact (present_frames_defined cfg turns st Hmode Erun).
Qed.

Lemma shown_frames_keep_their_order_witness :
  present_frames live_audio turns_then_quit (mkCounters 0 0)
  = Some (mkCounters 1 1,
          [SleepMillis 62; Present frame_1_5625; SleepMillis 20])
  /\ sublist [frame_1_5625] [frame_1_5625; frame_1_5625]
  /\ Z.of_nat (length (before_break turns_then_quit)) = (1 - 0) + (1 - 0).
Proof.
  assert (E : present_frames live_audio turns_then_quit (mkCounters 0 0)
              = Some (mkCounters 1 1,
                      [SleepMillis 62; Present frame_1_5625; SleepMillis 20]))
    by (vm_compute; reflexivity).
  split; [exact E |].
  destruct (shown_frames_keep_their_order live_audio turns_then_quit (mkCounters 0 0))
    as [H _].
  destruct (H _ _ E) as (H1 & _ & H3). split; [exact H1 | exact H3].
Defined.

End PacingFacts.

(** ** pipeline.cpp: the keys of the control thread *)

Module KeyFacts.
Import ColorLut Renderer Control.

Lemma handle_key_space (c : RendererConfig) : handle_key " " c = c.
Proof. reflexivity. Qed.

Lemma xorb_negb_odd (p : bool) (n : nat) :
  xorb (negb p) (Nat.odd n) = xorb p (Nat.odd (S n)).
Proof.
  rewrite Nat.odd_succ. rewrite <- Nat.negb_odd.
  destruct p, (Nat.odd n); reflexivity.
Qed.

(** The control loop from any running state. *)
Lemma controlThread_from (audio_enabled : bool) (config_volume : Q) (keys : list ascii) :
  forall st0,
    ctl_running st0 = true ->
    let st := controlThread audio_enabled config_volume keys st0 in
    ctl_config st = handle_keys (keys_before_quit keys) (ctl_config st0)
    /\ ctl_paused st = xorb (ctl_paused st0) (Nat.odd (spaces (keys_before_quit keys)))
    /\ ctl_volume st
       = (if audio_enabled && negb (Nat.eqb (spaces (keys_before_quit keys)) 0)
          then (if ctl_paused st then 0%Q else config_volume)
          else ctl_volume st0)
    /\ ctl_running st = negb (existsb is_quit_key keys).
Proof.
  induction keys as [|key keys IH]; intros st0 Hrun; cbv zeta.
  - cbn. rewrite xorb_false_r, andb_false_r. repeat split; try reflexivity. exact Hrun.
  - cbn [controlThread keys_before_quit existsb]. rewrite Hrun.
    unfold control_key. cbv zeta.
    destruct (key =? " ")%char eqn:Espace.
    + apply Ascii.eqb_eq in Espace. subst key.
      change (is_quit_key " ") with false. cbv iota. cbn [orb].
      match goal with
      | |- context [controlThread _ _ keys ?st1] =>
          destruct (IH st1 Hrun) as (Hcfg & Hpaused & Hv & Hr)
      end.
      cbn [ctl_config ctl_paused ctl_volume] in Hcfg, Hpaused, Hv.
      assert (Hspaces : spaces (" "%char :: keys_before_quit keys)
                        = S (spaces (keys_before_quit keys))) by reflexivity.
      split; [| split; [| split]].
      * rewrite Hcfg. unfold handle_keys. cbn [fold_left]. rewrite handle_key_space.
        reflexivity.
      * rewrite Hpaused, Hspaces. apply xorb_negb_odd.
      * rewrite Hv, Hspaces. cbn [Nat.eqb negb]. rewrite andb_true_r.
        destruct audio_enabled; cbn [andb]; [| reflexivity].
        destruct (spaces (keys_before_quit keys)) as [|n] eqn:En; cbn [Nat.eqb negb];
          [| reflexivity].
        rewrite Hpaused. rewrite ?En. cbn [Nat.odd Nat.even negb]. rewrite xorb_false_r.
        reflexivity.
      * exact Hr.
    + fold (is_quit_key key). destruct (is_quit_key key) eqn:Equit.
      * cbn [orb negb]. destruct keys; cbn [controlThread ctl_running ctl_config ctl_paused
                                             ctl_volume];
          (split; [reflexivity |]; split; [cbn; rewrite xorb_false_r; reflexivity |];
           split; [cbn; rewrite andb_false_r; reflexivity | reflexivity]).
      * cbn [orb].
        match goal with
        | |- context [controlThread _ _ keys ?st1] =>
            destruct (IH st1 Hrun) as (Hcfg & Hpaused & Hv & Hr)
        end.
        cbn [ctl_config ctl_paused ctl_volume] in Hcfg, Hpaused, Hv.
        assert (Hspaces : spaces (key :: keys_before_quit keys)
                          = spaces (keys_before_quit keys)).
        { unfold spaces. cbn [List.filter]. rewrite Espace. reflexivity. }
        split; [| split; [| split]].
        -- rewrite Hcfg. reflexivity.
        -- rewrite Hpaused, Hspaces. reflexivity.
        -- rewrite Hv, Hspaces. reflexivity.
        -- exact Hr.
Qed.

(** X24: what the control thread leaves behind.  After any keys, the pause
    switch is set exactly when the space bar was pressed an odd number of
    times before the first 'q'; with audio enabled, once the space bar has been
    pressed the player's volume is 0 while paused and the configured volume
    otherwise (before that, and without audio, the volume is never touched);
    the renderer has seen exactly the keys before the first 'q'; and the loop
    has cleared [running_] exactly when 'q' or 'Q' was among the keys, after
    which no key has any effect. *)
Theorem control_keys_outcome (audio_enabled : bool) (config_volume player_volume : Q)
    (keys : list ascii) (c : RendererConfig) :
  let st := controlThread audio_enabled config_volume keys (control_start player_volume c) in
  ctl_config st = handle_keys (keys_before_quit keys) c
  /\ ctl_paused st = Nat.odd (spaces (keys_before_quit keys))
  /\ ctl_volume st
     = (if audio_enabled && negb (Nat.eqb (spaces (keys_before_quit keys)) 0)
        then (if ctl_paused st then 0%Q else config_volume)
        else player_volume)
  /\ ctl_running st = negb (existsb is_quit_key keys)
  /\ (forall more, ctl_running st = false ->
        controlThread audio_enabled config_volume (keys ++ more)
                      (control_start player_volume c) = st).
Proof.
  intros st.
  destruct (controlThread_from audio_enabled config_volume keys
              (control_start player_volume c) eq_refl) as (Hcfg & Hpaused & Hvol & Hrun).
  fold st in Hcfg, Hpaused, Hvol, Hrun.
  split; [exact Hcfg |]. split; [exact Hpaused |]. split; [exact Hvol |].
  split; [exact Hrun |].
  intros more Hstop. subst st. clear Hcfg Hpaused Hvol Hrun. revert Hstop.
  generalize (control_start player_volume c) as st0.
  induction keys as [|key keys IH]; intros st0 Hstop.
  - cbn in Hstop. destruct more; cbn; [reflexivity | rewrite Hstop; reflexivity].
  - cbn [app controlThread] in *. destruct (ctl_running st0); [| reflexivity].
    apply IH. exact Hstop.
Qed.

End KeyFacts.

(** ** exporter.cpp: what blitAscii draws *)

Module BlitFacts.
Import Renderer VideoExport.

(** X25: the character handed to the font is always printable ASCII: the
    code [export_glyph] picks for a cell lies in 32..126, whether [char] is
    signed or not.  It is the first byte of the glyph when that byte is
    printable, the space for an empty glyph, and '#' otherwise. *)
Theorem export_glyph_is_printable (char_is_signed : bool) (cell : AsciiCell) :
  32 <= export_glyph char_is_signed cell <= 126
  /\ (glyph cell = EmptyString -> export_glyph char_is_signed cell = 32)
  /\ (forall byte, first_byte (glyph cell) = Some byte -> 32 <= byte <= 126 ->
        export_glyph char_is_signed cell = byte)
  /\ (forall byte, first_byte (glyph cell) = Some byte -> byte < 32 \/ 126 < byte ->
        export_glyph char_is_signed cell = 35).
Proof.
  split; [| split; [| split]].
  - unfold export_glyph. cbv zeta.
    match goal with |- context [if ?t then _ else _] => destruct t eqn:E end; [lia |].
    apply orb_false_iff in E. destruct E as [E1 E2].
    apply Z.ltb_ge in E1. apply Z.ltb_ge in E2. lia.
  - intros Hempty. unfold export_glyph. rewrite Hempty. reflexivity.
  - intros byte Hfirst Hprint. unfold export_glyph.
    destruct (glyph cell) as [|c rest]; [discriminate |].
    simpl in Hfirst. injection Hfirst as <-. unfold to_char.
    assert (E : (127 <? Z.of_nat (nat_of_ascii c)) = false) by (apply Z.ltb_ge; lia).
    rewrite E, andb_false_r.
    assert (E1 : (Z.of_nat (nat_of_ascii c) <? 32) = false) by (apply Z.ltb_ge; lia).
    assert (E2 : (126 <? Z.of_nat (nat_of_ascii c)) = false) by (apply Z.ltb_ge; lia).
    rewrite E1, E2. reflexivity.
  - intros byte Hfirst Hout. apply ExportFacts.export_glyph_unprintable.
    exists byte. split; assumption.
Qed.

Section Font.
Variables (glyph_width glyph_height : Z).
Variable blit_glyph : list Z -> Z -> Z -> Z -> Z -> list Z.
Variable char_is_signed : bool.

Section Frame.
Variables (e : Exporter) (frame : AsciiFrame) (buffer : list Z).
Hypothesis glyphW_pos : 0 < glyphW_ e.
Hypothesis glyphH_pos : 0 < glyphH_ e.
Hypothesis cols_nonneg : 0 <= cols frame.
Hypothesis rows_nonneg : 0 <= rows frame.
Hypothesis row_fits : cols frame * glyphW_ e <= frame_width e.
Hypothesis frame_fits :
  rows frame * glyphH_ e * frame_width e <= Z.of_nat (length buffer).

(** The state of [blitAscii] before the cell at column [x], row [y]: the cells
    before it are drawn, every pixel outside the grid is as it was. *)
Lemma blit_cell_draws (y x : Z) (st : Blit) :
  0 <= y < rows frame -> 0 <= x < cols frame ->
  (length (pixels st) = length buffer
   /\ (forall y' x' yy xx, in_frame e frame y' x' yy xx ->
         y' < y \/ (y' = y /\ x' < x) ->
         exists gb, pixels st !! pixel_index e y' x' yy xx
                    = Some (cell_pixel glyph_width glyph_height blit_glyph char_is_signed
                              e frame y' x' yy xx gb))
   /\ (forall p : nat,
         (forall y' x' yy xx, in_frame e frame y' x' yy xx -> p <> pixel_index e y' x' yy xx) ->
         pixels st !! p = buffer !! p)) ->
  let st' := blit_cell glyph_width glyph_height blit_glyph char_is_signed e frame y x st in
  length (pixels st') = length buffer
  /\ (forall y' x' yy xx, in_frame e frame y' x' yy xx ->
        y' < y \/ (y' = y /\ x' < x + 1) ->
        exists gb, pixels st' !! pixel_index e y' x' yy xx
                   = Some (cell_pixel glyph_width glyph_height blit_glyph char_is_signed
                             e frame y' x' yy xx gb))
  /\ (forall p : nat,
        (forall y' x' yy xx, in_frame e frame y' x' yy xx -> p <> pixel_index e y' x' yy xx) ->
        pixels st' !! p = buffer !! p).
Proof.
  intros Hy Hx (Hl & Hdone & Hout). unfold blit_cell. cbv zeta. cbn [pixels].
  match goal with
  | |- context [copy_glyph _ _ _ ?gb _ _ _] =>
      destruct (ExportFacts.copy_glyph_spec glyph_width glyph_height blit_glyph e frame buffer
                  glyphW_pos glyphH_pos cols_nonneg row_fits frame_fits
                  gb y x (pixels st) Hl Hy Hx) as (Hlen & Hlook & Hrest)
  end.
  split; [rewrite Hlen; exact Hl |]. split.
  - intros y' x' yy xx Hin Hbefore.
    destruct (Z.eq_dec y' y) as [-> | Hney]; [destruct (Z.eq_dec x' x) as [-> | Hnex] |].
    + exists (glyphBuffer st). rewrite Hlook by exact Hin. reflexivity.
    + destruct (Hdone y x' yy xx Hin ltac:(lia)) as [gb Hgb].
      exists gb. rewrite Hrest; [exact Hgb |].
      intros yy2 xx2 Hin2 E.
      apply (ExportFacts.pixel_index_inj glyph_width blit_glyph e frame buffer
               glyphW_pos glyphH_pos cols_nonneg row_fits) in E;
        [lia | exact Hin | exact Hin2].
    + destruct (Hdone y' x' yy xx Hin ltac:(lia)) as [gb Hgb].
      exists gb. rewrite Hrest; [exact Hgb |].
      intros yy2 xx2 Hin2 E.
      apply (ExportFacts.pixel_index_inj glyph_width blit_glyph e frame buffer
               glyphW_pos glyphH_pos cols_nonneg row_fits) in E;
        [lia | exact Hin | exact Hin2].
  - intros p Hp. rewrite Hrest; [apply Hout; exact Hp |].
    intros yy xx Hin. apply Hp. exact Hin.
Qed.

Lemma blitAscii_draws :
  let st := blitAscii glyph_width glyph_height blit_glyph char_is_signed e frame buffer in
  length (pixels st) = length buffer
  /\ (forall y x yy xx, in_frame e frame y x yy xx ->
        exists gb, pixels st !! pixel_index e y x yy xx
                   = Some (cell_pixel glyph_width glyph_height blit_glyph char_is_signed
                             e frame y x yy xx gb))
  /\ (forall p : nat,
        (forall y x yy xx, in_frame e frame y x yy xx -> p <> pixel_index e y x yy xx) ->
        pixels st !! p = buffer !! p).
Proof.
  cbv zeta.
  pose (Inv := fun (y x : Z) (st : Blit) =>
    length (pixels st) = length buffer
    /\ (forall y' x' yy xx, in_frame e frame y' x' yy xx ->
          y' < y \/ (y' = y /\ x' < x) ->
          exists gb, pixels st !! pixel_index e y' x' yy xx
                     = Some (cell_pixel glyph_width glyph_height blit_glyph char_is_signed
                               e frame y' x' yy xx gb))
    /\ (forall p : nat,
          (forall y' x' yy xx, in_frame e frame y' x' yy xx ->
             p <> pixel_index e y' x' yy xx) ->
          pixels st !! p = buffer !! p)).
  assert (Hinv : Inv (rows frame) 0
            (blitAscii glyph_width glyph_height blit_glyph char_is_signed e frame buffer)).
  { unfold blitAscii. apply (for_loop_ind (fun y => Inv y 0)); [exact rows_nonneg | |].
    - unfold Inv. cbn [pixels]. split; [reflexivity |]. split; [| reflexivity].
      intros y' x' yy xx [[Hy' Hx'] _] Hbefore. lia.
    - intros y st Hy Hst.
      assert (Hrow : Inv y (cols frame)
                (for_loop (cols frame)
                   (fun x st =>
                      blit_cell glyph_width glyph_height blit_glyph char_is_signed
                        e frame y x st) st)).
      { apply (for_loop_ind (Inv y)); [exact cols_nonneg | exact Hst |].
        intros x st' Hx Hst'. unfold Inv. apply blit_cell_draws; assumption. }
      destruct Hrow as (Hl & Hdone & Hout). split; [exact Hl |]. split; [| exact Hout].
      intros y' x' yy xx Hin Hbefore. apply Hdone; [exact Hin |].
      destruct Hin as [[_ Hx'] _]. lia. }
  destruct Hinv as (Hl & Hdone & Hout). split; [exact Hl |]. split; [| exact Hout].
  intros y x yy xx Hin. apply Hdone; [exact Hin |]. destruct Hin as [[Hy _] _]. lia.
Qed.
End Frame.

(** X26: [blitAscii] draws every cell with its own glyph and colors and
    nothing else.  When the grid of the frame fits into the frame buffer, then
    after [blitAscii] every pixel of every cell is the pixel, scaled by nearest
    neighbor, of the glyph buffer that [blit_glyph] left for that cell's
    character, fg and bg (no cell overwrites another); the buffer keeps its
    length, and every pixel outside the grid keeps its value. *)
Theorem blitAscii_draws_every_cell (e : Exporter) (frame : AsciiFrame) (buffer : list Z) :
  0 < glyphW_ e -> 0 < glyphH_ e ->
  0 <= cols frame -> 0 <= rows frame ->
  cols frame * glyphW_ e <= frame_width e ->
  rows frame * glyphH_ e * frame_width e <= Z.of_nat (length buffer) ->
  let st := blitAscii glyph_width glyph_height blit_glyph char_is_signed e frame buffer in
  length (pixels st) = length buffer
  /\ (forall y x yy xx, in_frame e frame y x yy xx ->
        exists gb, pixels st !! pixel_index e y x yy xx
                   = Some (cell_pixel glyph_width glyph_height blit_glyph char_is_signed
                             e frame y x yy xx gb))
  /\ (forall p : nat,
        (forall y x yy xx, in_frame e frame y x yy xx -> p <> pixel_index e y x yy xx) ->
        pixels st !! p = buffer !! p).
Proof. intros Hgw Hgh Hc Hr Hrow Hfit. apply blitAscii_draws; assumption. Qed.
End Font.

Lemma blitAscii_draws_every_cell_witness :
  pixels (blitAscii 8 16 code_font false (open export_1x1) letter_frame (replicate 128 0))
    !! pixel_index (open export_1x1) 0 0 3 5
  = Some 65.
Proof.
  destruct (blitAscii_draws_every_cell 8 16 code_font false (open export_1x1) letter_frame
              (replicate 128 0)) as (_ & Hcell & _);
    try (simpl; lia).
  destruct (Hcell 0 0 3 5) as [gb Hgb]; [repeat split; simpl; lia |].
  rewrite Hgb. reflexivity.
Defined.


(** Every index below cols * gw * (rows * gh) is the index of one pixel of one
    cell. *)
Lemma index_is_a_cell_pixel (ncols nrows gw gh p : Z) :
  0 < ncols -> 0 < nrows -> 0 < gw -> 0 < gh ->
  0 <= p < ncols * gw * (nrows * gh) ->
  exists y x yy xx,
    (0 <= y < nrows /\ 0 <= x < ncols) /\ (0 <= yy < gh /\ 0 <= xx < gw)
    /\ p = (y * gh + yy) * (ncols * gw) + (x * gw + xx).
Proof.
  intros Hc Hr Hgw Hgh Hp.
  assert (HW : 0 < ncols * gw) by (apply Z.mul_pos_pos; assumption).
  assert (HH : 0 < nrows * gh) by (apply Z.mul_pos_pos; assumption).
  pose proof (Z.div_mod p (ncols * gw) ltac:(lia)) as Ep.
  pose proof (Z.mod_pos_bound p (ncols * gw) HW) as Bcol.
  assert (Brow : 0 <= p / (ncols * gw) < nrows * gh).
  { split; [apply Z.div_pos; lia |]. apply Z.div_lt_upper_bound; lia. }
  set (row := p / (ncols * gw)) in *. set (col := p mod (ncols * gw)) in *.
  pose proof (Z.div_mod row gh ltac:(lia)) as Er.
  pose proof (Z.mod_pos_bound row gh Hgh) as Byy.
  pose proof (Z.div_mod col gw ltac:(lia)) as Ec.
  pose proof (Z.mod_pos_bound col gw Hgw) as Bxx.
  assert (By : 0 <= row / gh < nrows).
  { split; [apply Z.div_pos; lia |]. apply Z.div_lt_upper_bound; lia. }
  assert (Bx : 0 <= col / gw < ncols).
  { split; [apply Z.div_pos; lia |]. apply Z.div_lt_upper_bound; lia. }
  exists (row / gh), (col / gw), (row mod gh), (col mod gw).
  split; [split; assumption |]. split; [split; assumption |].
  replace (row / gh * gh + row mod gh) with row by lia.
  replace (col / gw * gw + col mod gw) with col by lia.
  lia.
Qed.

(** X27: without [--export-grid] the exporter's frame is exactly the grid of
    the renderer in glyph cells, so [writeFrame] leaves no pixel undrawn: the
    buffer has frame_width * frame_height pixels, and every one of them is a
    pixel of one cell of the rendered frame, drawn from that cell's glyph and
    colors. *)
Theorem default_export_draws_every_pixel (glyph_width glyph_height : Z)
    (blit_glyph : list Z -> Z -> Z -> Z -> Z -> list Z) (char_is_signed : bool)
    (powf : Q -> Q -> Q) (cfg : RendererConfig) (vf : VideoFrame) (eopts : ExportOptions) :
  exportGrid eopts = None ->
  0 < Renderer.gridCols cfg -> 0 < Renderer.gridRows cfg ->
  let e := open (exporter_of_options eopts cfg) in
  let frame := render powf cfg vf in
  let out := writeFrame_buffer glyph_width glyph_height blit_glyph char_is_signed e frame in
  frame_width e = Renderer.gridCols cfg * glyphW_ e
  /\ frame_height e = Renderer.gridRows cfg * glyphH_ e
  /\ length out = Z.to_nat (frame_width e * frame_height e)
  /\ forall p : nat, (p < length out)%nat ->
       exists y x yy xx gb,
         in_frame e frame y x yy xx
         /\ p = pixel_index e y x yy xx
         /\ out !! p = Some (cell_pixel glyph_width glyph_height blit_glyph char_is_signed
                               e frame y x yy xx gb).
Proof.
  intros Hgrid Hc Hr e frame out.
  assert (Hgw : 0 < glyphW_ e) by (subst e; unfold open; cbn [glyphW_]; lia).
  assert (Hgh : 0 < glyphH_ e) by (subst e; unfold open; cbn [glyphH_]; lia).
  assert (HW : frame_width e = Renderer.gridCols cfg * glyphW_ e).
  { subst e. unfold open, exporter_of_options. rewrite Hgrid. reflexivity. }
  assert (HH : frame_height e = Renderer.gridRows cfg * glyphH_ e).
  { subst e. unfold open, exporter_of_options. rewrite Hgrid. reflexivity. }
  assert (Hcols : cols frame = Renderer.gridCols cfg) by reflexivity.
  assert (Hrows : rows frame = Renderer.gridRows cfg) by reflexivity.
  assert (Hsize : 0 <= frame_width e * frame_height e).
  { rewrite HW, HH. apply Z.mul_nonneg_nonneg; apply Z.mul_nonneg_nonneg; lia. }
  destruct (blitAscii_draws glyph_width glyph_height blit_glyph char_is_signed
              e frame (replicate (Z.to_nat (frame_width e * frame_height e)) 0))
    as (Hlen & Hcell & _).
  { exact Hgw. } { exact Hgh. } { rewrite Hcols. lia. } { rewrite Hrows. lia. }
  { rewrite Hcols, HW. lia. }
  { rewrite length_replicate, Z2Nat.id by exact Hsize.
    rewrite Hrows, HH. rewrite (Z.mul_comm (frame_width e)). lia. }
  rewrite length_replicate in Hlen. fold (writeFrame_buffer glyph_width glyph_height
    blit_glyph char_is_signed e frame) in Hlen, Hcell. fold out in Hlen, Hcell.
  split; [exact HW |]. split; [exact HH |]. split; [exact Hlen |].
  intros p Hp. rewrite Hlen in Hp.
  destruct (index_is_a_cell_pixel (Renderer.gridCols cfg) (Renderer.gridRows cfg)
              (glyphW_ e) (glyphH_ e) (Z.of_nat p) Hc Hr Hgw Hgh)
    as (y & x & yy & xx & Hyx & Hin & Ep).
  { rewrite <- HW, <- HH. lia. }
  assert (Hframe : in_frame e frame y x yy xx).
  { unfold in_frame. rewrite Hcols, Hrows. split; assumption. }
  assert (Eidx : p = pixel_index e y x yy xx).
  { unfold pixel_index. rewrite HW, <- Ep. lia. }
  destruct (Hcell y x yy xx Hframe) as [gb Hgb].
  exists y, x, yy, xx, gb. split; [exact Hframe |]. split; [exact Eidx |].
  rewrite Eidx at 1. exact Hgb.
Qed.

Lemma default_export_draws_every_pixel_witness :
  length (writeFrame_buffer 8 16 code_font false
            (open (exporter_of_options (mkExportOptions None None) plain_gray))
            (render pow_exponent_one plain_gray black_pixel))
  = 128%nat.
Proof.
  destruct (default_export_draws_every_pixel 8 16 code_font false pow_exponent_one
              plain_gray black_pixel (mkExportOptions None None))
    as (_ & _ & Hlen & _); [reflexivity | simpl; lia | simpl; lia |].
  exact Hlen.
Defined.

End BlitFacts.

(** ** terminal_sink.cpp: what a session leaves behind *)

Module TerminalFacts.
Import Renderer Terminal.

(** The calls between [initialize] and [teardown] only append to the output. *)
Lemma calls_append (cs : list Call) (s : TerminalSink) (w : World) :
  is_tty (calls cs s w) = is_tty w /\ attrs (calls cs s w) = attrs w
  /\ status_flags (calls cs s w) = status_flags w
  /\ exists bytes, out (calls cs s w) = (out w ++ bytes)%string.
Proof.
  revert w. induction cs as [|c cs IH]; intros w.
  - repeat split; try reflexivity. exists EmptyString. symmetry. apply string_app_nil_r.
  - unfold calls in *. cbn [fold_left].
    destruct (IH (call c s w)) as (H1 & H2 & H3 & bytes & H4).
    assert (Hc : is_tty (call c s w) = is_tty w /\ attrs (call c s w) = attrs w
                 /\ status_flags (call c s w) = status_flags w
                 /\ exists b, out (call c s w) = (out w ++ b)%string).
    { destruct c as [frame | line]; unfold call, present, printStats, write;
        destruct (initialized_ s); cbn [negb is_tty attrs status_flags out];
        (split; [reflexivity |]; split; [reflexivity |]; split; [reflexivity |]);
        first [ eexists; reflexivity
              | exists EmptyString; symmetry; apply string_app_nil_r ]. }
    destruct Hc as (C1 & C2 & C3 & b & C4).
    rewrite H1, H2, H3, H4, C1, C2, C3, C4. repeat split; try reflexivity.
    exists (b ++ bytes)%string. apply string_app_assoc.
Qed.

(** X28: a session of the terminal sink leaves the terminal as it found it.
    After [initialize], any presented frames and stats lines, and [teardown],
    the attributes and the status flags of standard input are those from before
    [initialize] (on a terminal they were changed in between: ICANON and ECHO
    cleared, O_NONBLOCK set), the sink is uninitialised again, and the output
    is the hide-cursor escape, the notice line, what the calls wrote, and at
    the very end the show-cursor escape and the SGR reset. *)
Theorem session_restores_the_terminal (ICANON ECHO O_NONBLOCK : Z) (cs : list Call)
    (w : World) :
  0 <= status_flags w ->
  let sw := session ICANON ECHO O_NONBLOCK cs w in
  let during := snd (initialize ICANON ECHO O_NONBLOCK fresh w) in
  attrs (snd sw) = attrs w /\ status_flags (snd sw) = status_flags w
  /\ initialized_ (fst sw) = false /\ rawEnabled_ (fst sw) = false
  /\ (is_tty w = true ->
      attrs during = mkTermios (Z.land (c_lflag (attrs w)) (Z.lnot (Z.lor ICANON ECHO))) 0 0
      /\ status_flags during = Z.lor (status_flags w) O_NONBLOCK)
  /\ exists body,
       out (snd sw)
       = (out w ++ ESC ++ "[?25l" ++ notice ++ LF ++ body
                ++ ESC ++ "[?25h" ++ ESC ++ "[0m")%string.
Proof.
  intros Hflags sw during. subst sw during. unfold session. cbv zeta.
  unfold initialize at 1 2 3. cbn [initialized_ fresh]. cbv iota zeta.
  unfold initialize. cbn [initialized_ fresh]. cbv iota zeta.
  unfold enableRawMode, hideCursor, write.
  cbn [rawEnabled_ fresh is_tty attrs status_flags out].
  assert (Hne : (status_flags w =? -1) = false) by (apply Z.eqb_neq; lia).
  destruct (is_tty w) eqn:Htty;
    cbn [fst snd rawEnabled_ origTermios_ stdinFlags_ is_tty attrs status_flags out];
    match goal with
    | |- context [calls cs ?s ?w1] =>
        destruct (calls_append cs s w1) as (C1 & C2 & C3 & body & C4);
        cbn [is_tty attrs status_flags out] in C1, C2, C3, C4;
        unfold teardown, disableRawMode, showCursor, write;
        cbn [initialized_ rawEnabled_ origTermios_ stdinFlags_ negb fst snd];
        cbv iota zeta;
        cbn [initialized_ rawEnabled_ origTermios_ stdinFlags_ negb fst snd];
        rewrite ?C1, ?Hne;
        cbn [initialized_ rawEnabled_ origTermios_ stdinFlags_ negb fst snd
             is_tty attrs status_flags out];
        rewrite ?C2, ?C3, ?C4
    end.
  - destruct w as [t a f o]. cbn [attrs status_flags out is_tty] in *.
    do 4 (split; [reflexivity |]). split; [intros _; split; reflexivity |].
    exists body. rewrite !string_app_assoc. reflexivity.
  - destruct w as [t a f o]. cbn [attrs status_flags out is_tty] in *.
    unfold fresh in *. cbn [stdinFlags_ origTermios_] in *.
    change (-1 =? -1) with true. cbv iota.
    cbn [is_tty attrs status_flags out]. rewrite ?C2, ?C3, ?C4.
    do 4 (split; [reflexivity |]). split; [discriminate |].
    exists body. rewrite !string_app_assoc. reflexivity.
Qed.

Lemma session_restores_the_terminal_witness :
  attrs (snd (session 2 8 2048 [PrintStats "FPS"] cooked)) = attrs cooked
  /\ status_flags (snd (session 2 8 2048 [PrintStats "FPS"] cooked)) = status_flags cooked.
Proof.
  destruct (session_restores_the_terminal 2 8 2048 [PrintStats "FPS"] cooked)
    as (H1 & H2 & _); [simpl; lia |].
  split; [exact H1 | exact H2].
Defined.

End TerminalFacts.
